(** * Change tracking and reconciliation engine of claude-diff-extension

    A shallow embedding of [diffManager.ts] (class [DiffManager]) and of the
    state machine of [claudeWatcher.ts] (class [ClaudeWatcher]), together with
    the facts about them that the specification states.

    Conventions of the embedding.
    - A path is the list of its components from the file-system root; the
      paths handled by the extension come from [path.join], [readdirSync] and
      chokidar and are normalised, so [path.join dir name] is [dir ++ [name]].
    - The disk is a tree of directories and text files, read and written as
      strings; links, permissions and encodings are left out.  The [fs]
      calls of the source are [existsSync], [readFileSync], [writeFileSync],
      [unlinkSync] and [readdirSync] below, with the failures Node raises:
      reading or writing a directory, writing below a missing directory,
      unlinking a missing path or a directory.
    - A JavaScript [Map] is an association list in insertion order: [set] on
      a present key overwrites in place, on an absent key appends.  A record
      mutated in place is the value stored again under its key.
    - Methods run in a state-and-exception monad over the [world]; an
      exception keeps the mutations made before it was thrown.
    - The two recursive directory walks carry a bound on their depth, one
      more than the height of the disk, which they are proved never to
      exhaust.
    - [createTwoFilesPatch] (npm package [diff]) and the parsing of the
      activity marker are parameters; the mode comes from the mode manager
      and is a field of the [world]. *)

From Stdlib Require Import List String Ascii Bool Arith Lia.
Import ListNotations.

Local Open Scope list_scope.

(** * Part I: the embedding *)

(** ** Keys with a decidable equality *)

Class EqKey (K : Type) := {
  keqb : K -> K -> bool;
  keqb_spec : forall a b, reflect (a = b) (keqb a b)
}.

#[export] Instance string_EqKey : EqKey string :=
  {| keqb := String.eqb; keqb_spec := String.eqb_spec |}.

Definition path := list string.

Fixpoint path_eqb (p q : path) : bool :=
  match p, q with
  | [], [] => true
  | x :: p', y :: q' => String.eqb x y && path_eqb p' q'
  | _, _ => false
  end.

Lemma path_eqb_spec (p q : path) : reflect (p = q) (path_eqb p q).
Proof.
  revert q; induction p as [|x p IH]; intros [|y q]; simpl;
    try (constructor; congruence).
  destruct (String.eqb_spec x y) as [->|Hxy]; simpl.
  - destruct (IH q) as [->|Hpq]; constructor; congruence.
  - constructor; congruence.
Qed.

#[export] Instance path_EqKey : EqKey path :=
  {| keqb := path_eqb; keqb_spec := path_eqb_spec |}.

(** ** JavaScript [Map]: association lists in insertion order *)

Section JsMap.

Context {K V : Type} `{EqKey K}.

Fixpoint map_get (k : K) (m : list (K * V)) : option V :=
  match m with
  | [] => None
  | (k', v) :: m' => if keqb k k' then Some v else map_get k m'
  end.

Fixpoint map_set (k : K) (v : V) (m : list (K * V)) : list (K * V) :=
  match m with
  | [] => [(k, v)]
  | (k', v') :: m' =>
      if keqb k k' then (k, v) :: m' else (k', v') :: map_set k v m'
  end.

Definition map_delete (k : K) (m : list (K * V)) : list (K * V) :=
  filter (fun kv => negb (keqb k (fst kv))) m.

Definition map_keys (m : list (K * V)) : list K := map fst m.

Definition map_values (m : list (K * V)) : list V := map snd m.

End JsMap.

(** ** The disk *)

#[warnings="-register-all"]
Inductive node : Type :=
| File (content : string)
| Dir (entries : list (string * node)).

(** Exceptions: the [fs] errors of Node, the stack exhaustion of a
    recursion deeper than the directory tree (never raised, see
    [walk_fuel] and [snapshotDirectory_fuel]), and the error of
    [JSON.parse]. *)
Inductive exn : Type :=
  ENOENT | ENOTDIR | EISDIR | EPERM | RangeError | SyntaxError.

Inductive result (A : Type) : Type :=
| Ok (a : A)
| Err (e : exn).

Arguments Ok {A} a.
Arguments Err {A} e.

Fixpoint lookup (p : path) (n : node) : option node :=
  match p with
  | [] => Some n
  | x :: p' =>
      match n with
      | File _ => None
      | Dir es =>
          match map_get x es with
          | Some c => lookup p' c
          | None => None
          end
      end
  end.

(** The content of the regular file at [p], if there is one. *)
Definition file_at (p : path) (n : node) : option string :=
  match lookup p n with
  | Some (File c) => Some c
  | _ => None
  end.

(** [alter f p n] rewrites the directory entry at [p]: [f] receives the
    present entry and answers with the new one ([None] removes it). *)
Fixpoint alter (f : option node -> result (option node)) (p : path) (n : node)
  : result node :=
  match p with
  | [] => Err EISDIR
  | x :: p' =>
      match n with
      | File _ => Err ENOTDIR
      | Dir es =>
          match p' with
          | [] =>
              match f (map_get x es) with
              | Ok (Some c) => Ok (Dir (map_set x c es))
              | Ok None => Ok (Dir (map_delete x es))
              | Err e => Err e
              end
          | _ :: _ =>
              match map_get x es with
              | Some c =>
                  match alter f p' c with
                  | Ok c' => Ok (Dir (map_set x c' es))
                  | Err e => Err e
                  end
              | None => Err ENOENT
              end
          end
      end
  end.

Definition write_entry (c : string) (old : option node) : result (option node) :=
  match old with
  | Some (Dir _) => Err EISDIR
  | _ => Ok (Some (File c))
  end.

Definition unlink_entry (old : option node) : result (option node) :=
  match old with
  | Some (File _) => Ok None
  | Some (Dir _) => Err EPERM
  | None => Err ENOENT
  end.

Definition fs_exists (p : path) (n : node) : bool :=
  match lookup p n with Some _ => true | None => false end.

Definition fs_read (p : path) (n : node) : result string :=
  match lookup p n with
  | Some (File c) => Ok c
  | Some (Dir _) => Err EISDIR
  | None => Err ENOENT
  end.

Definition fs_write (p : path) (c : string) (n : node) : result node :=
  alter (write_entry c) p n.

Definition fs_unlink (p : path) (n : node) : result node :=
  alter unlink_entry p n.

(** A [Dirent]: the name and the kind of a directory entry. *)
Record Dirent := { name : string; isDirectory : bool; isFile : bool }.

Definition dirent_of (e : string * node) : Dirent :=
  match snd e with
  | File _ => {| name := fst e; isDirectory := false; isFile := true |}
  | Dir _ => {| name := fst e; isDirectory := true; isFile := false |}
  end.

Definition fs_readdir (p : path) (n : node) : result (list Dirent) :=
  match lookup p n with
  | Some (Dir es) => Ok (map dirent_of es)
  | Some (File _) => Err ENOTDIR
  | None => Err ENOENT
  end.

Fixpoint height (n : node) : nat :=
  match n with
  | File _ => 0
  | Dir es =>
      S ((fix hs (l : list (string * node)) : nat :=
            match l with
            | [] => 0
            | (_, c) :: l' => Nat.max (height c) (hs l')
            end) es)
  end.

(** ** Paths *)

Definition path_join (dir : path) (name : string) : path := dir ++ [name].

Definition path_concat (root rel : path) : path := root ++ rel.

(** [path.relative from to] on normalised absolute paths. *)
Fixpoint path_relative (from to : path) : path :=
  match from, to with
  | f :: from', t :: to' =>
      if String.eqb f t then path_relative from' to'
      else map (fun _ => ".."%string) from ++ to
  | _, _ => map (fun _ => ".."%string) from ++ to
  end.

Definition render (p : path) : string := String.concat "/" p.

(** [path.extname] of a file name: from the last dot, unless the name has
    no dot, starts at that dot, or is [".."]. *)
Fixpoint last_dot (s : string) : option (string * string) :=
  match s with
  | EmptyString => None
  | String c s' =>
      match last_dot s' with
      | Some (b, e) => Some (String c b, e)
      | None => if Ascii.eqb c "."%char then Some (EmptyString, s) else None
      end
  end.

Definition extname (base : string) : string :=
  match last_dot base with
  | Some (b, e) =>
      if String.eqb b "" || String.eqb base ".." then ""%string else e
  | None => ""%string
  end.

Definition lower_ascii (c : ascii) : ascii :=
  let n := nat_of_ascii c in
  if (65 <=? n) && (n <=? 90) then ascii_of_nat (n + 32) else c.

Fixpoint toLowerCase (s : string) : string :=
  match s with
  | EmptyString => EmptyString
  | String c s' => String (lower_ascii c) (toLowerCase s')
  end.

Definition basename (p : path) : string := last p ""%string.

(** ** The state of the extension *)

Inductive Status : Type := pending | accepted | rejected.

Definition Status_eqb (a b : Status) : bool :=
  match a, b with
  | pending, pending | accepted, accepted | rejected, rejected => true
  | _, _ => false
  end.

Record FileDiff := {
  filePath : path;
  relativePath : string;
  before : string;
  after : string;
  patch : string;
  status : Status;
  isNew : bool;
  isDeleted : bool
}.

Definition with_status (s : Status) (d : FileDiff) : FileDiff :=
  {| filePath := filePath d; relativePath := relativePath d;
     before := before d; after := after d; patch := patch d;
     status := s; isNew := isNew d; isDeleted := isDeleted d |}.

(** The fields of [DiffManager]; [changesReady] is the log of the payloads
    fired on [_onChangesReady], oldest first. *)
Record DiffManager := {
  snapshots : list (path * string);
  diffs : list (path * FileDiff);
  changesReady : list (list FileDiff)
}.

Inductive Mode : Type := auto | propose | ask.

(** A chokidar watcher: the directory watched, the events it has a handler
    for, and whether [close] was called. *)
Record FSWatcher := {
  watched : path;
  onAdd : bool;
  onChange : bool;
  onUnlink : bool;
  closed : bool
}.

Record ClaudeWatcher := {
  fsWatcher : option FSWatcher;
  changedFiles : list path;
  isClaudeActive : bool;
  active : bool
}.

Record world := {
  root_dir : list (string * node); (* the entries of the root directory *)
  workspaceFolder : option path;  (* vscode.workspace.workspaceFolders?.[0] *)
  cwd : path;                     (* process.cwd(), what [''] resolves to *)
  currentMode : Mode;             (* modeManager.currentMode *)
  dm : DiffManager;
  cw : ClaudeWatcher
}.

Definition disk (w : world) : node := Dir (root_dir w).

Definition children (n : node) : list (string * node) :=
  match n with Dir es => es | File _ => [] end.

(** [d] is a directory whenever it is a rewrite of the disk ([alter_Dir]). *)
Definition with_disk (d : node) (w : world) : world :=
  {| root_dir := children d; workspaceFolder := workspaceFolder w; cwd := cwd w;
     currentMode := currentMode w; dm := dm w; cw := cw w |}.

Definition with_mode (m : Mode) (w : world) : world :=
  {| root_dir := root_dir w; workspaceFolder := workspaceFolder w; cwd := cwd w;
     currentMode := m; dm := dm w; cw := cw w |}.

Definition with_dm (m : DiffManager) (w : world) : world :=
  {| root_dir := root_dir w; workspaceFolder := workspaceFolder w; cwd := cwd w;
     currentMode := currentMode w; dm := m; cw := cw w |}.

Definition with_cw (c : ClaudeWatcher) (w : world) : world :=
  {| root_dir := root_dir w; workspaceFolder := workspaceFolder w; cwd := cwd w;
     currentMode := currentMode w; dm := dm w; cw := c |}.

Definition with_snapshots (s : list (path * string)) (w : world) : world :=
  with_dm {| snapshots := s; diffs := diffs (dm w);
             changesReady := changesReady (dm w) |} w.

Definition with_diffs (d : list (path * FileDiff)) (w : world) : world :=
  with_dm {| snapshots := snapshots (dm w); diffs := d;
             changesReady := changesReady (dm w) |} w.

Definition with_changesReady (l : list (list FileDiff)) (w : world) : world :=
  with_dm {| snapshots := snapshots (dm w); diffs := diffs (dm w);
             changesReady := l |} w.

(** ** The monad of methods: state and exceptions *)

Inductive outcome (A : Type) : Type :=
| Done (a : A) (w : world)
| Threw (e : exn) (w : world).

Arguments Done {A} a w.
Arguments Threw {A} e w.

Definition M (A : Type) : Type := world -> outcome A.

Definition final {A} (o : outcome A) : world :=
  match o with Done _ w => w | Threw _ w => w end.

Definition completed {A} (o : outcome A) : bool :=
  match o with Done _ _ => true | Threw _ _ => false end.

Definition ret {A} (a : A) : M A := fun w => Done a w.

Definition throw {A} (e : exn) : M A := fun w => Threw e w.

Definition bind {A B} (m : M A) (k : A -> M B) : M B :=
  fun w => match m w with
           | Done a w' => k a w'
           | Threw e w' => Threw e w'
           end.

Notation "x <- m ;; k" := (bind m (fun x => k))
  (at level 61, m at next level, right associativity).

Notation "m ;; k" := (bind m (fun _ => k))
  (at level 61, right associativity).

Definition gets {A} (f : world -> A) : M A := fun w => Done (f w) w.

Definition modify (f : world -> world) : M unit := fun w => Done tt (f w).

Definition lift_fs {A} (f : node -> result A) : M A :=
  fun w => match f (disk w) with
           | Ok a => Done a w
           | Err e => Threw e w
           end.

(** [for (const x of xs) body(x)] *)
Fixpoint for_each {A} (xs : list A) (body : A -> M unit) : M unit :=
  match xs with
  | [] => ret tt
  | x :: xs' => body x ;; for_each xs' body
  end.

(** *** [fs] *)

Definition existsSync (p : path) : M bool := gets (fun w => fs_exists p (disk w)).

Definition readFileSync (p : path) : M string := lift_fs (fs_read p).

Definition readdirSync (p : path) : M (list Dirent) := lift_fs (fs_readdir p).

Definition writeFileSync (p : path) (c : string) : M unit :=
  fun w => match fs_write p c (disk w) with
           | Ok d => Done tt (with_disk d w)
           | Err e => Threw e w
           end.

Definition unlinkSync (p : path) : M unit :=
  fun w => match fs_unlink p (disk w) with
           | Ok d => Done tt (with_disk d w)
           | Err e => Threw e w
           end.

(** *** The two maps and the event emitter of [DiffManager] *)

Definition snapshots_get (p : path) : M (option string) :=
  gets (fun w => map_get p (snapshots (dm w))).

Definition snapshots_set (p : path) (c : string) : M unit :=
  modify (fun w => with_snapshots (map_set p c (snapshots (dm w))) w).

Definition snapshots_keys : M (list path) :=
  gets (fun w => map_keys (snapshots (dm w))).

Definition diffs_get (p : path) : M (option FileDiff) :=
  gets (fun w => map_get p (diffs (dm w))).

Definition diffs_set (p : path) (d : FileDiff) : M unit :=
  modify (fun w => with_diffs (map_set p d (diffs (dm w))) w).

Definition diffs_keys : M (list path) :=
  gets (fun w => map_keys (diffs (dm w))).

Definition diffs_size : M nat := gets (fun w => List.length (diffs (dm w))).

Definition fire (payload : list FileDiff) : M unit :=
  modify (fun w => with_changesReady (changesReady (dm w) ++ [payload]) w).

(** [get workspaceRoot()]: the first workspace folder, or [''], which
    [path.relative] and the [fs] calls resolve to the working directory. *)
Definition workspaceRoot : M (option path) := gets workspaceFolder.

Definition resolve_root (root : option path) (w : world) : path :=
  match root with Some r => r | None => cwd w end.

(** ** [DiffManager] and [ClaudeWatcher] *)

Section Extension.

Set Default Proof Using "Type".

(** [createTwoFilesPatch(oldFileName, newFileName, oldStr, newStr,
    oldHeader, newHeader)] of the npm package [diff]. *)
Variable createTwoFilesPatch :
  string -> string -> string -> string -> string -> string -> string.

(** *** diffManager.ts *)

Definition snapshotFiles (filePaths : list path) : M unit :=
  for_each filePaths (fun fp =>
    ex <- existsSync fp ;;
    if ex then (c <- readFileSync fp ;; snapshots_set fp c)
    else snapshots_set fp "").

Definition ignore : list string :=
  ["node_modules"; ".git"; "dist"; "out"; ".claude"]%string.

Definition textExts : list string :=
  [".ts"; ".tsx"; ".js"; ".jsx"; ".json"; ".md"; ".txt"; ".css"; ".scss";
   ".html"; ".xml"; ".yaml"; ".yml"; ".py"; ".go"; ".rs"; ".java"; ".c";
   ".cpp"; ".h"; ".sh"; ".env"; ".toml"; ".ini"; ".sql"]%string.

Definition set_has (s : list string) (x : string) : bool :=
  existsb (String.eqb x) s.

Definition isTextFile (fp : path) : bool :=
  set_has textExts (toLowerCase (extname (basename fp))).

(** [fuel] bounds the depth of the recursion. *)
Fixpoint snapshotDirectory (fuel : nat) (dir : path) : M unit :=
  match fuel with
  | O => throw RangeError
  | S fuel' =>
      entries <- readdirSync dir ;;
      for_each entries (fun entry =>
        if set_has ignore (name entry) then ret tt
        else
          let full := path_join dir (name entry) in
          if isDirectory entry then snapshotDirectory fuel' full
          else if isFile entry && isTextFile full then
            (c <- readFileSync full ;; snapshots_set full c)
          else ret tt)
  end.

Definition snapshotWorkspace : M unit :=
  root <- workspaceRoot ;;
  match root with
  | None => ret tt
  | Some root =>
      d <- gets disk ;;
      snapshotDirectory (S (height d)) root
  end.

Definition getPendingDiffs : M (list FileDiff) :=
  gets (fun w =>
    filter (fun d => Status_eqb (status d) pending)
           (map_values (diffs (dm w)))).

Definition getAllDiffs : M (list FileDiff) :=
  gets (fun w => map_values (diffs (dm w))).

(** The body of the loop of [computeDiffs]. *)
Definition computeDiffs_path (fp : path) : M unit :=
  s <- snapshots_get fp ;;
  let before := match s with Some c => c | None => ""%string end in
  exists_ <- existsSync fp ;;
  after <- (if exists_ then readFileSync fp else ret ""%string) ;;
  if String.eqb before after then ret tt
  else
    root <- workspaceRoot ;;
    w <- gets (fun w => w) ;;
    let rel := render (path_relative (resolve_root root w) fp) in
    let patch :=
      createTwoFilesPatch ("a/" ++ rel) ("b/" ++ rel) before after "" "" in
    diffs_set fp
      {| filePath := fp; relativePath := rel;
         before := before; after := after; patch := patch;
         status := pending;
         isNew := String.eqb before "" && negb (String.eqb after "");
         isDeleted := negb (String.eqb before "") && String.eqb after "" |}.

Definition computeDiffs (changedPaths : option (list path))
  : M (list FileDiff) :=
  paths <- match changedPaths with
           | Some ps => ret ps
           | None => snapshots_keys
           end ;;
  modify (with_diffs []) ;;
  for_each paths computeDiffs_path ;;
  n <- diffs_size ;;
  (if 0 <? n then (p <- getPendingDiffs ;; fire p) else ret tt) ;;
  getPendingDiffs.

(** The file branch of [walk] in [loadProposedChanges]. *)
Definition walk_file (proposedDir : path) (root : option path) (full : path)
  : M unit :=
  w <- gets (fun w => w) ;;
  let relative := path_relative proposedDir full in
  let actual := path_concat (resolve_root root w) relative in
  ex <- existsSync actual ;;
  before <- (if ex then readFileSync actual else ret ""%string) ;;
  after <- readFileSync full ;;
  if negb (String.eqb before after) then
    let rel := render relative in
    let patch :=
      createTwoFilesPatch ("a/" ++ rel) ("b/" ++ rel) before after "" "" in
    diffs_set actual
      {| filePath := actual; relativePath := rel;
         before := before; after := after; patch := patch;
         status := pending;
         isNew := String.eqb before "";
         isDeleted := false |}
  else ret tt.

Fixpoint walk (fuel : nat) (proposedDir : path) (root : option path)
  (dir : path) : M unit :=
  match fuel with
  | O => throw RangeError
  | S fuel' =>
      entries <- readdirSync dir ;;
      for_each entries (fun entry =>
        let full := path_join dir (name entry) in
        if isDirectory entry then walk fuel' proposedDir root full
        else walk_file proposedDir root full)
  end.

Definition loadProposedChanges (proposedDir : path) : M unit :=
  ex <- existsSync proposedDir ;;
  if negb ex then ret tt
  else
    root <- workspaceRoot ;;
    d <- gets disk ;;
    walk (S (height d)) proposedDir root proposedDir ;;
    n <- diffs_size ;;
    if 0 <? n then (p <- getPendingDiffs ;; fire p) else ret tt.

Definition acceptFile (filePath : path) : M unit :=
  d <- diffs_get filePath ;;
  match d with
  | None => ret tt
  | Some diff =>
      diffs_set filePath (with_status accepted diff) ;;
      snapshots_set filePath (after diff)
  end.

Definition rejectFile (filePath : path) : M unit :=
  d <- diffs_get filePath ;;
  match d with
  | None => ret tt
  | Some diff =>
      (if isNew diff then unlinkSync filePath
       else writeFileSync filePath (before diff)) ;;
      diffs_set filePath (with_status rejected diff)
  end.

(** [for (const diff of this.diffs.values())]: the records are visited in
    insertion order, each as it is when the loop reaches it. *)
Definition for_each_diff (body : FileDiff -> M unit) : M unit :=
  ks <- diffs_keys ;;
  for_each ks (fun k =>
    d <- diffs_get k ;;
    match d with
    | Some diff => body diff
    | None => ret tt
    end).

Definition acceptAll : M unit :=
  for_each_diff (fun diff =>
    if Status_eqb (status diff) pending then acceptFile (filePath diff)
    else ret tt).

Definition rejectAll : M unit :=
  for_each_diff (fun diff =>
    if Status_eqb (status diff) pending then rejectFile (filePath diff)
    else ret tt).

Definition clearDiffs : M unit :=
  modify (with_diffs []) ;;
  modify (with_snapshots []).

Definition hasPendingDiffs : M bool :=
  p <- getPendingDiffs ;; ret (0 <? List.length p).

(** *** claudeWatcher.ts *)

Definition set_fsWatcher (f : option FSWatcher) (c : ClaudeWatcher)
  : ClaudeWatcher :=
  {| fsWatcher := f; changedFiles := changedFiles c;
     isClaudeActive := isClaudeActive c; active := active c |}.

Definition set_changedFiles (l : list path) (c : ClaudeWatcher)
  : ClaudeWatcher :=
  {| fsWatcher := fsWatcher c; changedFiles := l;
     isClaudeActive := isClaudeActive c; active := active c |}.

Definition set_isClaudeActive (b : bool) (c : ClaudeWatcher)
  : ClaudeWatcher :=
  {| fsWatcher := fsWatcher c; changedFiles := changedFiles c;
     isClaudeActive := b; active := active c |}.

Definition set_active (b : bool) (c : ClaudeWatcher) : ClaudeWatcher :=
  {| fsWatcher := fsWatcher c; changedFiles := changedFiles c;
     isClaudeActive := isClaudeActive c; active := b |}.

Definition close (f : FSWatcher) : FSWatcher :=
  {| watched := watched f; onAdd := onAdd f; onChange := onChange f;
     onUnlink := onUnlink f; closed := true |}.

(** [this.fsWatcher?.close()] *)
Definition fsWatcher_close : M unit :=
  modify (fun w =>
    with_cw (set_fsWatcher (option_map close (fsWatcher (cw w))) (cw w)) w).

(** [this.fsWatcher = chokidar.watch(dir, ...)] followed by the [on] calls. *)
Definition chokidar_watch (dir : path) (add change unlink : bool) : M unit :=
  modify (fun w =>
    with_cw (set_fsWatcher
               (Some {| watched := dir; onAdd := add; onChange := change;
                        onUnlink := unlink; closed := false |}) (cw w)) w).

(** [Set.add] *)
Definition set_add (fp : path) (s : list path) : list path :=
  if existsb (path_eqb fp) s then s else s ++ [fp].

Inductive FsEvent : Type := EvAdd | EvChange | EvUnlink.

Definition handles (ev : FsEvent) (f : FSWatcher) : bool :=
  negb (closed f) &&
  match ev with
  | EvAdd => onAdd f
  | EvChange => onChange f
  | EvUnlink => onUnlink f
  end.

(** chokidar reports event [ev] on [fp]: the handler registered for it,
    if the watcher is open, adds [fp] to [changedFiles]. *)
Definition chokidar_emit (ev : FsEvent) (fp : path) : M unit :=
  modify (fun w =>
    match fsWatcher (cw w) with
    | Some f =>
        if handles ev f then
          with_cw (set_changedFiles (set_add fp (changedFiles (cw w))) (cw w)) w
        else w
    | None => w
    end).

Definition proposed_of (root : path) : path :=
  root ++ [".claude"; "proposed"]%string.

Definition onClaudeStarted (root : path) : M unit :=
  modify (fun w => with_cw (set_isClaudeActive true (cw w)) w) ;;
  modify (fun w => with_cw (set_changedFiles [] (cw w)) w) ;;
  mode <- gets currentMode ;;
  match mode with
  | propose => chokidar_watch (proposed_of root) true true false
  | auto => snapshotWorkspace ;; chokidar_watch root true true true
  | ask => snapshotWorkspace
  end.

Definition onClaudeFinished (root proposedDir : path) : M unit :=
  modify (fun w => with_cw (set_isClaudeActive false (cw w)) w) ;;
  fsWatcher_close ;;
  mode <- gets currentMode ;;
  match mode with
  | propose => loadProposedChanges proposedDir
  | auto | ask =>
      changed <- gets (fun w => changedFiles (cw w)) ;;
      computeDiffs (Some changed) ;; ret tt
  end.

(** [try { body } catch {}] *)
Definition try_catch (body : M unit) : M unit :=
  fun w => Done tt (final (body w)).

(** One tick of the polling interval of [watchClaudeActivity].
    [JSON_parse_status content] is [JSON.parse(content).status]: [None]
    when the content does not parse or carries no [status] string. *)
Definition poll (JSON_parse_status : string -> option string) (root : path)
  : M unit :=
  a <- gets (fun w => active (cw w)) ;;
  if negb a then ret tt
  else
    let activityFile := root ++ [".claude"; "activity.json"]%string in
    let proposedDir := proposed_of root in
    ex <- existsSync activityFile ;;
    if negb ex then ret tt
    else
      try_catch (
        content <- readFileSync activityFile ;;
        busy <- gets (fun w => isClaudeActive (cw w)) ;;
        match JSON_parse_status content with
        | None => throw SyntaxError
        | Some st =>
            if String.eqb st "running" && negb busy then onClaudeStarted root
            else if String.eqb st "idle" && busy then
              onClaudeFinished root proposedDir
            else ret tt
        end).

(** [start()] and [stop()] of the watcher. *)
Definition start : M unit :=
  a <- gets (fun w => active (cw w)) ;;
  if a then ret tt
  else modify (fun w => with_cw (set_active true (cw w)) w).

Definition stop : M unit :=
  modify (fun w => with_cw (set_active false (cw w)) w) ;;
  fsWatcher_close.

(** *** The environment of the extension *)

(** What happens to the extension: the timer fires, chokidar reports, the
    user switches the mode or acts in the panel, files change on disk. *)
Inductive Event : Type :=
| Tick
| Reported (ev : FsEvent) (fp : path)
| ModeChanged (m : Mode)
| DiskChanged (entries : list (string * node))
| AcceptFile (fp : path)
| RejectFile (fp : path)
| AcceptAll
| RejectAll
| Started
| Stopped.

Definition react (parse : string -> option string) (root : path) (ev : Event)
  : M unit :=
  match ev with
  | Tick => poll parse root
  | Reported e fp => chokidar_emit e fp
  | ModeChanged m => modify (with_mode m)
  | DiskChanged entries => modify (with_disk (Dir entries))
  | AcceptFile fp => acceptFile fp
  | RejectFile fp => rejectFile fp
  | AcceptAll => acceptAll
  | RejectAll => rejectAll
  | Started => start
  | Stopped => stop
  end.

Definition run (parse : string -> option string) (root : path)
  (evs : list Event) (w : world) : world :=
  fold_left (fun w ev => final (react parse root ev w)) evs w.

(** The chokidar events of a session, in order of arrival. *)
Definition deliver (evs : list (FsEvent * path)) : M unit :=
  for_each evs (fun e => chokidar_emit (fst e) (snd e)).

(** ** Vocabulary of the statements *)

Definition plain (o : option node) : Prop :=
  match o with Some (Dir _) => False | _ => True end.

(** An entry rewriter that only replaces, creates or removes regular
    files. *)
Definition file_op (f : option node -> result (option node)) : Prop :=
  forall o o', f o = Ok o' -> plain o /\ plain o'.

(** What a loop does not look at, it does not change: [w'] agrees with [w]
    on the disk, the snapshots, the workspace and the watcher. *)
Definition same_base (w w' : world) : Prop :=
  root_dir w' = root_dir w /\
  workspaceFolder w' = workspaceFolder w /\
  cwd w' = cwd w /\
  currentMode w' = currentMode w /\
  cw w' = cw w /\
  snapshots (dm w') = snapshots (dm w) /\
  changesReady (dm w') = changesReady (dm w).

Definition content_or_empty (p : path) (d : node) : string :=
  match file_at p d with Some c => c | None => ""%string end.

Definition snapshot_or_empty (p : path) (w : world) : string :=
  match map_get p (snapshots (dm w)) with Some c => c | None => ""%string end.

(** The record that [computeDiffs] stores for [fp]: none when the content
    on disk is the snapshot. *)
Definition diff_of (w : world) (fp : path) : option FileDiff :=
  let before := snapshot_or_empty fp w in
  let after := content_or_empty fp (disk w) in
  if String.eqb before after then None
  else
    let rel := render (path_relative (resolve_root (workspaceFolder w) w) fp) in
    Some {| filePath := fp; relativePath := rel;
            before := before; after := after;
            patch := createTwoFilesPatch ("a/" ++ rel) ("b/" ++ rel)
                       before after "" "";
            status := pending;
            isNew := String.eqb before "" && negb (String.eqb after "");
            isDeleted := negb (String.eqb before "") && String.eqb after "" |}.

Definition store_diff (fp : path) (w : world) : world :=
  match diff_of w fp with
  | Some d => with_diffs (map_set fp d (diffs (dm w))) w
  | None => w
  end.

Definition pending_of (w : world) : list FileDiff :=
  filter (fun d => Status_eqb (status d) pending) (map_values (diffs (dm w))).

(** [if (this.diffs.size > 0) this._onChangesReady.fire(...)] *)
Definition notify (w : world) : world :=
  if 0 <? List.length (diffs (dm w)) then
    with_changesReady (changesReady (dm w) ++ [pending_of w]) w
  else w.

Definition paths_of (changedPaths : option (list path)) (w : world)
  : list path :=
  match changedPaths with
  | Some ps => ps
  | None => map_keys (snapshots (dm w))
  end.

(** The shape of a record: what differs, and how it is classified. *)
Definition record_inv (d : FileDiff) : Prop :=
  before d <> after d /\
  (isNew d = true <-> before d = ""%string /\ after d <> ""%string) /\
  ~ (isNew d = true /\ isDeleted d = true).

Definition deleted_inv (d : FileDiff) : Prop :=
  isDeleted d = true <-> before d <> ""%string /\ after d = ""%string.

Definition accept_record (p : path) (d : FileDiff) (w : world) : world :=
  with_snapshots (map_set p (after d) (snapshots (dm w)))
    (with_diffs (map_set p (with_status accepted d) (diffs (dm w))) w).

Definition reject_record (p : path) (d : FileDiff) (n : node) (w : world)
  : world :=
  with_diffs (map_set p (with_status rejected d) (diffs (dm w)))
    (with_disk n w).

(** The [fs] call of [rejectFile]. *)
Definition restore (p : path) (d : FileDiff) (n : node) : result node :=
  if isNew d then fs_unlink p n else fs_write p (before d) n.

(** Every record is stored under its own [filePath]. *)
Definition keys_ok (w : world) : Prop :=
  forall k d, map_get k (diffs (dm w)) = Some d -> filePath d = k.

Definition keys_okb (w : world) : bool :=
  forallb (fun kd => path_eqb (fst kd) (filePath (snd kd))) (diffs (dm w)).

Definition bulk_step (op : path -> M unit) (k : path) : M unit :=
  d <- diffs_get k ;;
  match d with
  | Some diff =>
      if Status_eqb (status diff) pending then op (filePath diff) else ret tt
  | None => ret tt
  end.

(** The record that [walk] stores for the staged file [proposedDir ++ rel]. *)
Definition staged_diff (root rel : path) (before after : string)
  : FileDiff :=
  {| filePath := root ++ rel; relativePath := render rel;
     before := before; after := after;
     patch := createTwoFilesPatch ("a/" ++ render rel) ("b/" ++ render rel)
                before after "" "";
     status := pending;
     isNew := String.eqb before "";
     isDeleted := false |}.

Definition store_staged (root : option path) (rel : path) (after : string)
  (w : world) : world :=
  let actual := resolve_root root w ++ rel in
  let before := content_or_empty actual (disk w) in
  if String.eqb before after then w
  else with_diffs
         (map_set actual
            (staged_diff (resolve_root root w) rel before after)
            (diffs (dm w))) w.

(** What [loadProposedChanges] records about a staged file. *)
Definition staged_record (proposedDir : path) (w : world) (k : path)
  (d : FileDiff) : Prop :=
  exists rel,
    k = resolve_root (workspaceFolder w) w ++ rel /\
    file_at (proposedDir ++ rel) (disk w) = Some (after d) /\
    before d = content_or_empty k (disk w) /\
    before d <> after d /\
    isNew d = String.eqb (before d) "" /\
    isDeleted d = false /\
    status d = pending /\
    filePath d = k.

(** The step of the loop of [walk] in directory [proposedDir ++ r]. *)
Definition walk_entry (fuel : nat) (proposedDir : path) (root : option path)
  (r : path) (entry : Dirent) : M unit :=
  let full := path_join (proposedDir ++ r) (name entry) in
  if isDirectory entry then walk fuel proposedDir root full
  else walk_file proposedDir root full.

(** The step of the loop of [snapshotDirectory]. *)
Definition snapshot_entry (fuel : nat) (dir : path) (entry : Dirent)
  : M unit :=
  if set_has ignore (name entry) then ret tt
  else
    let full := path_join dir (name entry) in
    if isDirectory entry then snapshotDirectory fuel full
    else if isFile entry && isTextFile full then
      (c <- readFileSync full ;; snapshots_set full c)
    else ret tt.

(** The record of the staged file at [rel] is in place. *)
Definition staged_stored (w0 : world) (rel : path) (content : string)
  (w : world) : Prop :=
  same_base w0 w /\
  map_get (resolve_root (workspaceFolder w0) w0 ++ rel) (diffs (dm w)) =
  Some (staged_diff (resolve_root (workspaceFolder w0) w0) rel
          (content_or_empty (resolve_root (workspaceFolder w0) w0 ++ rel)
             (disk w0))
          content).

(** [w'] differs from [w] in the snapshots at most. *)
Definition only_snapshots (w w' : world) : Prop :=
  root_dir w' = root_dir w /\
  workspaceFolder w' = workspaceFolder w /\
  cwd w' = cwd w /\
  currentMode w' = currentMode w /\
  cw w' = cw w /\
  diffs (dm w') = diffs (dm w) /\
  changesReady (dm w') = changesReady (dm w).

Definition watcher_closed (c : ClaudeWatcher) : Prop :=
  match fsWatcher c with Some f => closed f = true | None => True end.

Definition activity_file (root : path) : path :=
  root ++ [".claude"; "activity.json"]%string.

(** While no agent run is in progress, no watcher is open. *)
Definition idle_closed (w : world) : Prop :=
  isClaudeActive (cw w) = false -> watcher_closed (cw w).

(** The body of the loop of [snapshotFiles]. *)
Definition snapshot_path (fp : path) : M unit :=
  ex <- existsSync fp ;;
  if ex then (c <- readFileSync fp ;; snapshots_set fp c)
  else snapshots_set fp "".

Definition is_dir (p : path) (n : node) : bool :=
  match lookup p n with Some (Dir _) => true | _ => false end.

(** No component of [rel] is one of the ignored names. *)
Definition not_ignored (rel : path) : Prop :=
  Forall (fun x => set_has ignore x = false) rel.

(** [wb] is [wa] but for the notifications fired so far. *)
Definition same_but_events (wa wb : world) : Prop :=
  root_dir wb = root_dir wa /\
  workspaceFolder wb = workspaceFolder wa /\
  cwd wb = cwd wa /\
  currentMode wb = currentMode wa /\
  cw wb = cw wa /\
  snapshots (dm wb) = snapshots (dm wa) /\
  diffs (dm wb) = diffs (dm wa).

(** The watcher that [onClaudeStarted] opens in [auto] mode. *)
Definition auto_watcher (root : path) : FSWatcher :=
  {| watched := root; onAdd := true; onChange := true; onUnlink := true;
     closed := false |}.

(** The paths of a list of reports, collected as [changedFiles] does. *)
Definition collect (evs : list (FsEvent * path)) (s : list path) : list path :=
  fold_left (fun s e => set_add (snd e) s) evs s.

(** [w'] is [w] but for the state of [DiffManager]. *)
Definition only_manager (w w' : world) : Prop :=
  root_dir w' = root_dir w /\
  workspaceFolder w' = workspaceFolder w /\
  cwd w' = cwd w /\
  currentMode w' = currentMode w /\
  cw w' = cw w.

(** What the watcher leaves alone: the disk, the workspace, the mode and
    its own [active] flag. *)
Definition untouched_by_watcher (w w' : world) : Prop :=
  root_dir w' = root_dir w /\
  workspaceFolder w' = workspaceFolder w /\
  cwd w' = cwd w /\
  currentMode w' = currentMode w /\
  active (cw w') = active (cw w).

(** The events that reach a watcher without any action of the user. *)
Definition from_outside (e : Event) : bool :=
  match e with
  | Tick | Reported _ _ => true
  | _ => false
  end.

(** [fs.writeFileSync(p, ...)] has what it needs: the directory that is to
    hold [p] exists, and [p] itself is not a directory. *)
Definition can_write (p : path) (n : node) : bool :=
  match p with
  | [] => false
  | _ :: _ =>
      match lookup (removelast p) n with
      | Some (Dir _) => negb (is_dir p n)
      | _ => false
      end
  end.

(** [rejected_in_turn l w w']: going through [l] in order, [rejectFile] was
    called on each path whose record was pending when its turn came;
    every call returned, and [w'] is the state they left. *)
Inductive rejected_in_turn : list path -> world -> world -> Prop :=
| rejected_none w : rejected_in_turn [] w w
| rejected_skip k l w w' :
    (forall d, map_get k (diffs (dm w)) = Some d -> status d <> pending) ->
    rejected_in_turn l w w' ->
    rejected_in_turn (k :: l) w w'
| rejected_next k l d w w1 w' :
    map_get k (diffs (dm w)) = Some d ->
    status d = pending ->
    rejectFile k w = Done tt w1 ->
    rejected_in_turn l w1 w' ->
    rejected_in_turn (k :: l) w w'.

(** * Part II: facts *)

(** ** Keys and maps *)

Lemma keqb_refl {K} `{EqKey K} (k : K) : keqb k k = true.
Proof. destruct (keqb_spec k k); congruence. Qed.

Lemma keqb_neq {K} `{EqKey K} (a b : K) : a <> b -> keqb a b = false.
Proof. destruct (keqb_spec a b); congruence. Qed.

Lemma keqb_eq {K} `{EqKey K} (a b : K) : keqb a b = true -> a = b.
Proof. destruct (keqb_spec a b); congruence. Qed.

Section JsMapFacts.
Context {K V : Type} `{EqKey K}.

Lemma map_get_set_same k v (m : list (K * V)) : map_get k (map_set k v m) = Some v.
Proof.
  induction m as [|[k' v'] m IH]; simpl.
  - now rewrite keqb_refl.
  - destruct (keqb k k') eqn:E; simpl.
    + now rewrite keqb_refl.
    + now rewrite E.
Qed.

Lemma map_get_set_other k k' v (m : list (K * V)) :
  k' <> k -> map_get k' (map_set k v m) = map_get k' m.
Proof.
  intros Hne; induction m as [|[k0 v0] m IH]; simpl.
  - now rewrite (keqb_neq k' k).
  - destruct (keqb k k0) eqn:E; simpl.
    + apply keqb_eq in E; subst k0. now rewrite (keqb_neq k' k).
    + now rewrite IH.
Qed.

Lemma map_get_delete_same k (m : list (K * V)) : map_get k (map_delete k m) = None.
Proof.
  induction m as [|[k' v'] m IH]; simpl; auto.
  destruct (keqb k k') eqn:E; simpl; auto. now rewrite E.
Qed.

Lemma map_get_delete_other k k' (m : list (K * V)) :
  k' <> k -> map_get k' (map_delete k m) = map_get k' m.
Proof.
  intros Hne; induction m as [|[k0 v0] m IH]; simpl; auto.
  destruct (keqb k k0) eqn:E; simpl.
  - apply keqb_eq in E; subst k0. now rewrite (keqb_neq k' k).
  - now rewrite IH.
Qed.

Lemma map_get_In k v (m : list (K * V)) : map_get k m = Some v -> In (k, v) m.
Proof.
  induction m as [|[k' v'] m IH]; simpl; [discriminate|].
  destruct (keqb k k') eqn:E; intros Hg.
  - apply keqb_eq in E. left. congruence.
  - right; auto.
Qed.

Lemma map_get_None k (m : list (K * V)) : map_get k m = None <-> ~ In k (map_keys m).
Proof.
  induction m as [|[k' v'] m IH]; simpl.
  - tauto.
  - destruct (keqb_spec k k') as [->|Hne].
    + split; [discriminate | intros Hn; exfalso; apply Hn; now left].
    + rewrite IH. split.
      * intros Hn [Heq|Hin]; [congruence | tauto].
      * tauto.
Qed.

Lemma map_get_Some_key k v (m : list (K * V)) : map_get k m = Some v -> In k (map_keys m).
Proof.
  intros Hg. apply map_get_In in Hg.
  change k with (fst (k, v)). unfold map_keys. now apply in_map.
Qed.

End JsMapFacts.

(** ** Facts about the disk *)

Lemma write_entry_file_op c : file_op (write_entry c).
Proof.
  intros [[?|?]|] o'; simpl; intros Hf; inversion Hf; simpl; auto.
Qed.

Lemma unlink_entry_file_op : file_op unlink_entry.
Proof.
  intros [[?|?]|] o'; simpl; intros Hf; inversion Hf; simpl; auto.
Qed.

Lemma file_at_cons x q es :
  file_at (x :: q) (Dir es) =
  match map_get x es with Some c => file_at q c | None => None end.
Proof. unfold file_at; simpl. now destruct (map_get x es). Qed.

Lemma file_at_below_plain (o : option node) q :
  plain o -> q <> [] ->
  match o with Some c => file_at q c | None => None end = None.
Proof.
  destruct o as [[c|es]|]; simpl; intros Hp Hq; try tauto.
  destruct q; [congruence | reflexivity].
Qed.

(** Rewriting the entry at [p] leaves the content read at any other path
    as it was. *)
Lemma file_at_alter_other f (Hf : file_op f) :
  forall p q n n', alter f p n = Ok n' -> q <> p ->
                   file_at q n' = file_at q n.
Proof.
  induction p as [|x p IH]; intros q n n' Ha Hq; [discriminate|].
  destruct n as [c|es]; [discriminate|].
  simpl in Ha. destruct p as [|z p].
  - destruct (f (map_get x es)) as [o'|e] eqn:Ef; [|discriminate].
    destruct (Hf _ _ Ef) as [Hp Hp'].
    destruct q as [|y q]; [destruct o'; inversion Ha; reflexivity|].
    assert (Hold : file_at (y :: q) (Dir es) =
                   match map_get y es with
                   | Some c => file_at q c | None => None end)
      by apply file_at_cons.
    destruct (String.eqb_spec y x) as [->|Hyx].
    + assert (Hq' : q <> []) by congruence.
      rewrite Hold, (file_at_below_plain _ q Hp Hq').
      destruct o' as [c'|]; inversion Ha; subst; rewrite file_at_cons.
      * rewrite map_get_set_same. apply (file_at_below_plain (Some c') q Hp' Hq').
      * now rewrite map_get_delete_same.
    + rewrite Hold.
      destruct o' as [c'|]; inversion Ha; subst; rewrite file_at_cons.
      * now rewrite map_get_set_other.
      * now rewrite map_get_delete_other.
  - destruct (map_get x es) as [c|] eqn:Eg; [|discriminate].
    destruct (alter f (z :: p) c) as [c'|e] eqn:Ea; [|discriminate].
    inversion Ha; subst n'; clear Ha.
    destruct q as [|y q]; [reflexivity|].
    rewrite !file_at_cons.
    destruct (String.eqb_spec y x) as [->|Hyx].
    + rewrite map_get_set_same, Eg. apply (IH q c c' Ea). congruence.
    + now rewrite map_get_set_other.
Qed.

(** After a rewrite that succeeded, the entry at [p] is what [f] answered. *)
Lemma lookup_alter_same f :
  forall p n n', alter f p n = Ok n' ->
                 exists o, f (lookup p n) = Ok o /\ lookup p n' = o.
Proof.
  induction p as [|x p IH]; intros n n' Ha; [discriminate|].
  destruct n as [c|es]; [discriminate|].
  simpl in Ha. destruct p as [|z p].
  - destruct (f (map_get x es)) as [o'|e] eqn:Ef; [|discriminate].
    exists o'. simpl. split.
    + destruct (map_get x es); exact Ef.
    + destruct o' as [c'|]; inversion Ha; subst; simpl.
      * now rewrite map_get_set_same.
      * now rewrite map_get_delete_same.
  - destruct (map_get x es) as [c|] eqn:Eg; [|discriminate].
    destruct (alter f (z :: p) c) as [c'|e] eqn:Ea; [|discriminate].
    inversion Ha; subst n'; clear Ha.
    destruct (IH c c' Ea) as [o [Hfo Hl]].
    exists o. split.
    + change (lookup (x :: z :: p) (Dir es))
        with (match map_get x es with
              | Some c => lookup (z :: p) c | None => None end).
      now rewrite Eg.
    + change (lookup (x :: z :: p) (Dir (map_set x c' es)))
        with (match map_get x (map_set x c' es) with
              | Some c => lookup (z :: p) c | None => None end).
      now rewrite map_get_set_same.
Qed.

Lemma alter_Dir f p es n' :
  alter f p (Dir es) = Ok n' -> exists es', n' = Dir es'.
Proof.
  destruct p as [|x p]; simpl; [discriminate|]. destruct p as [|z p].
  - destruct (f (map_get x es)) as [[c|]|e]; intros Ha; inversion Ha; eauto.
  - destruct (map_get x es) as [c|]; [|discriminate].
    destruct (alter f (z :: p) c); intros Ha; inversion Ha; eauto.
Qed.

(** Rewriting the entry of an existing regular file succeeds whenever [f]
    accepts a regular file. *)
Lemma alter_file_succeeds f :
  forall p es c, file_at p (Dir es) = Some c ->
                 (exists o, f (Some (File c)) = Ok o) ->
                 exists n', alter f p (Dir es) = Ok n'.
Proof.
  induction p as [|x p IH]; intros es c Hfa [o Hf]; [discriminate|].
  rewrite file_at_cons in Hfa. simpl.
  destruct (map_get x es) as [c'|] eqn:Eg; [|discriminate].
  destruct p as [|z p].
  - unfold file_at in Hfa; simpl in Hfa.
    destruct c' as [c0|]; [|discriminate]. inversion Hfa; subst c0.
    rewrite Hf. destruct o; eauto.
  - destruct c' as [c0|es']; [discriminate|].
    destruct (IH es' c Hfa) as [n' Hn']; [eauto|].
    rewrite Hn'. eauto.
Qed.

(** Removing a path that does not exist fails. *)
Lemma unlink_missing_fails :
  forall p n, lookup p n = None -> exists e, fs_unlink p n = Err e.
Proof.
  unfold fs_unlink.
  induction p as [|x p IH]; intros n Hl; [discriminate|].
  destruct n as [c|es]; simpl; [eauto|].
  simpl in Hl. destruct (map_get x es) as [c'|] eqn:Eg.
  - destruct p as [|z p]; [discriminate|].
    destruct (IH c' Hl) as [e He]. rewrite He. eauto.
  - destruct p; simpl; eauto.
Qed.

Lemma fs_write_read p c n n' :
  fs_write p c n = Ok n' -> file_at p n' = Some c.
Proof.
  intros Hw. destruct (lookup_alter_same _ _ _ _ Hw) as [o [Hf Hl]].
  unfold file_at. rewrite Hl.
  unfold write_entry in Hf. destruct (lookup p n) as [[?|?]|];
    inversion Hf; reflexivity.
Qed.

Lemma fs_unlink_gone p n n' :
  fs_unlink p n = Ok n' -> lookup p n' = None.
Proof.
  intros Hu. destruct (lookup_alter_same _ _ _ _ Hu) as [o [Hf Hl]].
  rewrite Hl. unfold unlink_entry in Hf.
  destruct (lookup p n) as [[?|?]|]; inversion Hf; reflexivity.
Qed.

Lemma fs_write_other p c n n' q :
  fs_write p c n = Ok n' -> q <> p -> file_at q n' = file_at q n.
Proof. apply file_at_alter_other, write_entry_file_op. Qed.

Lemma fs_unlink_other p n n' q :
  fs_unlink p n = Ok n' -> q <> p -> file_at q n' = file_at q n.
Proof. apply file_at_alter_other, unlink_entry_file_op. Qed.

(** When a write succeeds, and when a removal does. *)
Lemma fs_write_ok_iff c p :
  forall n, (exists n', fs_write p c n = Ok n') <-> can_write p n = true.
Proof.
  unfold fs_write.
  induction p as [|x p IH]; intros n.
  - simpl. split; [intros [n' H]; discriminate | discriminate].
  - destruct n as [c0|es].
    + split; [intros [n' H]; discriminate|].
      unfold can_write. destruct p; simpl; discriminate.
    + destruct p as [|z p].
      * unfold can_write, is_dir. simpl.
        destruct (map_get x es) as [[c1|es1]|]; simpl;
          split; eauto; try discriminate; intros [n' H]; discriminate.
      * assert (Hcw : can_write (x :: z :: p) (Dir es) =
                      match map_get x es with
                      | Some c' => can_write (z :: p) c'
                      | None => false
                      end).
        { unfold can_write, is_dir.
          change (removelast (x :: z :: p)) with (x :: removelast (z :: p)).
          simpl lookup. now destruct (map_get x es). }
        rewrite Hcw.
        change (alter (write_entry c) (x :: z :: p) (Dir es))
          with (match map_get x es with
                | Some c' =>
                    match alter (write_entry c) (z :: p) c' with
                    | Ok c'' => Ok (Dir (map_set x c'' es))
                    | Err e => Err e
                    end
                | None => Err ENOENT
                end).
        destruct (map_get x es) as [c'|];
          [|split; [intros [n' H]; discriminate | discriminate]].
        rewrite <- (IH c'). split.
        -- intros [n' H].
           destruct (alter (write_entry c) (z :: p) c') as [c''|e];
             [eauto | discriminate].
        -- intros [c'' H]. rewrite H. eauto.
Qed.

Lemma fs_unlink_ok_iff p :
  forall es, (exists n', fs_unlink p (Dir es) = Ok n') <->
             (exists c, file_at p (Dir es) = Some c).
Proof.
  unfold fs_unlink.
  induction p as [|x p IH]; intros es.
  - simpl. split; intros [? H]; discriminate.
  - rewrite file_at_cons. destruct p as [|z p].
    + simpl. unfold file_at. simpl.
      destruct (map_get x es) as [[c1|es1]|]; simpl;
        split; eauto; intros [? H]; discriminate.
    + change (alter unlink_entry (x :: z :: p) (Dir es))
        with (match map_get x es with
              | Some c' =>
                  match alter unlink_entry (z :: p) c' with
                  | Ok c'' => Ok (Dir (map_set x c'' es))
                  | Err e => Err e
                  end
              | None => Err ENOENT
              end).
      destruct (map_get x es) as [[c1|es1]|].
      * split; intros [? H]; discriminate.
      * rewrite <- (IH es1). split.
        -- intros [n' H].
           destruct (alter unlink_entry (z :: p) (Dir es1)) as [c''|e];
             [eauto | discriminate].
        -- intros [c'' H]. rewrite H. eauto.
      * split; intros [? H]; discriminate.
Qed.

(** ** Facts about the monad *)

Lemma for_each_inv {A} (P : world -> Prop) (body : A -> M unit) :
  forall xs,
    (forall x w, In x xs -> P w -> P (final (body x w))) ->
    forall w, P w -> P (final (for_each xs body w)).
Proof.
  induction xs as [|x xs IH]; intros Hbody w Hw; simpl; [exact Hw|].
  unfold bind. pose proof (Hbody x w (or_introl eq_refl) Hw) as Hx.
  destruct (body x w) as [[] w1|e w1]; simpl in *; [|exact Hx].
  apply IH; [|exact Hx]. intros y w' Hy. apply Hbody. now right.
Qed.

Lemma for_each_app {A} (body : A -> M unit) xs ys w :
  for_each (xs ++ ys) body w =
  match for_each xs body w with
  | Done _ w1 => for_each ys body w1
  | Threw e w1 => Threw e w1
  end.
Proof.
  revert w; induction xs as [|x xs IH]; intros w; simpl; [reflexivity|].
  unfold bind. destruct (body x w) as [[] w1|e w1]; [apply IH|reflexivity].
Qed.

Lemma same_base_refl w : same_base w w.
Proof. repeat split. Qed.

Lemma same_base_with_diffs w w' d :
  same_base w w' -> same_base w (with_diffs d w').
Proof. intros H. exact H. Qed.

Lemma same_base_disk w w' : same_base w w' -> disk w' = disk w.
Proof. intros [H _]. unfold disk. now rewrite H. Qed.

(** ** [computeDiffs] *)

Lemma computeDiffs_path_spec fp w :
  computeDiffs_path fp w =
  match lookup fp (disk w) with
  | Some (Dir _) => Threw EISDIR w
  | _ => Done tt (store_diff fp w)
  end.
Proof.
  unfold computeDiffs_path, store_diff, diff_of, snapshot_or_empty,
    content_or_empty, file_at, bind, snapshots_get, existsSync, readFileSync,
    lift_fs, gets, fs_exists, fs_read, workspaceRoot, diffs_set, modify, ret.
  destruct (lookup fp (disk w)) as [[c|es]|] eqn:El; cbv beta iota;
    rewrite ?El; cbv beta iota; try reflexivity.
  - destruct (String.eqb _ c); reflexivity.
  - destruct (String.eqb _ ""); reflexivity.
Qed.

Lemma diff_of_same_base w w' fp :
  same_base w w' -> diff_of w' fp = diff_of w fp.
Proof.
  intros (Hd & Hf & Hc & _ & _ & Hs & _).
  unfold diff_of, snapshot_or_empty, resolve_root, disk.
  now rewrite Hd, Hf, Hc, Hs.
Qed.

Lemma computeDiffs_path_same_base fp w :
  same_base w (final (computeDiffs_path fp w)).
Proof.
  rewrite computeDiffs_path_spec.
  destruct (lookup fp (disk w)) as [[c|es]|]; simpl;
    try apply same_base_refl;
    unfold store_diff; destruct (diff_of w fp);
    try apply same_base_refl; apply same_base_with_diffs, same_base_refl.
Qed.

Lemma same_base_trans w1 w2 w3 :
  same_base w1 w2 -> same_base w2 w3 -> same_base w1 w3.
Proof.
  unfold same_base. intros (?&?&?&?&?&?&?) (?&?&?&?&?&?&?).
  repeat split; congruence.
Qed.

Lemma computeDiffs_loop_same_base paths w :
  same_base w (final (for_each paths computeDiffs_path w)).
Proof.
  apply (for_each_inv (same_base w)); [|apply same_base_refl].
  intros fp w' _ Hb. eapply same_base_trans; [exact Hb|].
  apply computeDiffs_path_same_base.
Qed.

(** The records after the loop, path by path. *)
Lemma computeDiffs_loop_get paths :
  forall w0 w, same_base w0 w ->
    let o := for_each paths computeDiffs_path w in
    forall p,
      (~ In p paths ->
       map_get p (diffs (dm (final o))) = map_get p (diffs (dm w))) /\
      (completed o = true -> In p paths ->
       map_get p (diffs (dm (final o))) =
       match diff_of w0 p with
       | Some d => Some d
       | None => map_get p (diffs (dm w))
       end).
Proof.
  induction paths as [|fp paths IH]; intros w0 w Hb o p; subst o.
  - simpl. split; [reflexivity | intros _ []].
  - simpl. unfold bind. rewrite computeDiffs_path_spec.
    assert (Hstore : same_base w0 (store_diff fp w)).
    { unfold store_diff. destruct (diff_of w fp); [|exact Hb].
      apply same_base_with_diffs, Hb. }
    assert (Hget : forall q,
               map_get q (diffs (dm (store_diff fp w))) =
               if path_eqb q fp then
                 match diff_of w0 fp with
                 | Some d => Some d
                 | None => map_get q (diffs (dm w))
                 end
               else map_get q (diffs (dm w))).
    { intros q. unfold store_diff.
      rewrite <- (diff_of_same_base w0 w fp Hb).
      destruct (path_eqb_spec q fp) as [->|Hne];
        destruct (diff_of w fp); simpl; auto.
      - apply map_get_set_same.
      - now apply map_get_set_other. }
    destruct (lookup fp (disk w)) as [[c|es]|] eqn:El; simpl.
    + destruct (IH w0 (store_diff fp w) Hstore p) as [H1 H2]. split.
      * intros Hn. rewrite H1 by tauto. rewrite Hget.
        destruct (path_eqb_spec p fp); [subst; tauto | reflexivity].
      * intros Hc [<-|Hin].
        -- destruct (in_dec (list_eq_dec string_dec) fp paths) as [Hi|Hi].
           ++ rewrite (H2 Hc Hi). rewrite Hget.
              destruct (path_eqb_spec fp fp); [|congruence].
              now destruct (diff_of w0 fp).
           ++ rewrite (H1 Hi), Hget.
              destruct (path_eqb_spec fp fp); [reflexivity|congruence].
        -- rewrite (H2 Hc Hin), Hget.
           destruct (path_eqb_spec p fp) as [->|]; [|reflexivity].
           now destruct (diff_of w0 fp).
    + split; [reflexivity | discriminate].
    + destruct (IH w0 (store_diff fp w) Hstore p) as [H1 H2]. split.
      * intros Hn. rewrite H1 by tauto. rewrite Hget.
        destruct (path_eqb_spec p fp); [subst; tauto | reflexivity].
      * intros Hc [<-|Hin].
        -- destruct (in_dec (list_eq_dec string_dec) fp paths) as [Hi|Hi].
           ++ rewrite (H2 Hc Hi). rewrite Hget.
              destruct (path_eqb_spec fp fp); [|congruence].
              now destruct (diff_of w0 fp).
           ++ rewrite (H1 Hi), Hget.
              destruct (path_eqb_spec fp fp); [reflexivity|congruence].
        -- rewrite (H2 Hc Hin), Hget.
           destruct (path_eqb_spec p fp) as [->|]; [|reflexivity].
           now destruct (diff_of w0 fp).
Qed.

Lemma computeDiffs_unfold changedPaths w :
  computeDiffs changedPaths w =
  match for_each (paths_of changedPaths w) computeDiffs_path
          (with_diffs [] w) with
  | Done _ w1 => Done (pending_of w1) (notify w1)
  | Threw e w1 => Threw e w1
  end.
Proof.
  unfold computeDiffs, bind, paths_of.
  destruct changedPaths as [ps|]; simpl;
    match goal with
    | |- context [for_each ?l ?b ?w0] => destruct (for_each l b w0) as [[] w1|e w1]
    end; try reflexivity;
    unfold diffs_size, gets, getPendingDiffs, fire, modify, notify, pending_of;
    destruct (0 <? List.length (diffs (dm w1))); reflexivity.
Qed.

Lemma notify_same_diffs w : diffs (dm (notify w)) = diffs (dm w).
Proof. unfold notify. now destruct (0 <? _). Qed.

Lemma notify_same_snapshots w : snapshots (dm (notify w)) = snapshots (dm w).
Proof. unfold notify. now destruct (0 <? _). Qed.

Lemma notify_same_disk w : disk (notify w) = disk w.
Proof. unfold notify. now destruct (0 <? _). Qed.

Lemma computeDiffs_final_diffs changedPaths w :
  diffs (dm (final (computeDiffs changedPaths w))) =
  diffs (dm (final (for_each (paths_of changedPaths w) computeDiffs_path
                      (with_diffs [] w)))).
Proof.
  rewrite computeDiffs_unfold.
  destruct (for_each _ _ _) as [[] w1|e w1]; simpl; [apply notify_same_diffs|reflexivity].
Qed.

Lemma computeDiffs_completed changedPaths w :
  completed (computeDiffs changedPaths w) =
  completed (for_each (paths_of changedPaths w) computeDiffs_path
               (with_diffs [] w)).
Proof.
  rewrite computeDiffs_unfold. now destruct (for_each _ _ _) as [[] w1|e w1].
Qed.

(** Every record held after [computeDiffs] was made by this call. *)
Lemma computeDiffs_records changedPaths w k d :
  map_get k (diffs (dm (final (computeDiffs changedPaths w)))) = Some d ->
  In k (paths_of changedPaths w) /\ diff_of w k = Some d.
Proof.
  rewrite computeDiffs_final_diffs.
  set (paths := paths_of changedPaths w).
  set (w0 := with_diffs [] w).
  assert (Hinv :
    (fun w' => same_base w0 w' /\
               forall k d, map_get k (diffs (dm w')) = Some d ->
                           In k paths /\ diff_of w0 k = Some d)
      (final (for_each paths computeDiffs_path w0))).
  { apply for_each_inv.
    - intros fp w' Hin [Hb Hrec]. split.
      + eapply same_base_trans; [exact Hb|apply computeDiffs_path_same_base].
      + rewrite computeDiffs_path_spec.
        assert (Hst : forall k d,
                   map_get k (diffs (dm (store_diff fp w'))) = Some d ->
                   In k paths /\ diff_of w0 k = Some d).
        { intros k' d'. unfold store_diff.
          rewrite (diff_of_same_base w0 w' fp Hb).
          destruct (diff_of w0 fp) as [d0|] eqn:Ed; [|apply Hrec].
          simpl. destruct (path_eqb_spec k' fp) as [->|Hne].
          - rewrite map_get_set_same. intros Hd; inversion Hd; subst. auto.
          - rewrite map_get_set_other by exact Hne. apply Hrec. }
        destruct (lookup fp (disk w')) as [[c|es]|]; simpl; auto.
    - split; [apply same_base_refl | intros k' d'; discriminate]. }
  destruct Hinv as [_ Hrec]. intros Hg.
  destruct (Hrec k d Hg) as [Hin Hd]. split; [exact Hin|].
  rewrite <- Hd. symmetry. apply diff_of_same_base. subst w0.
  apply same_base_with_diffs, same_base_refl.
Qed.

Lemma diff_of_inv w k d :
  diff_of w k = Some d ->
  record_inv d /\ deleted_inv d /\ status d = pending /\ filePath d = k /\
  before d = snapshot_or_empty k w /\ after d = content_or_empty k (disk w).
Proof.
  unfold diff_of, record_inv, deleted_inv.
  destruct (String.eqb_spec (snapshot_or_empty k w)
              (content_or_empty k (disk w))) as [|Hne]; [discriminate|].
  intros Hd; inversion Hd; subst d; clear Hd; simpl.
  destruct (String.eqb_spec (snapshot_or_empty k w) "") as [Hb|Hb];
    destruct (String.eqb_spec (content_or_empty k (disk w)) "") as [Ha|Ha];
    simpl; repeat split; try tauto; try congruence;
    try (intros [? ?]; congruence); try discriminate.
Qed.

(** ** Accepting and rejecting *)

Lemma acceptFile_unfold p w :
  acceptFile p w =
  match map_get p (diffs (dm w)) with
  | Some d => Done tt (accept_record p d w)
  | None => Done tt w
  end.
Proof.
  unfold acceptFile, bind, diffs_get, gets.
  now destruct (map_get p (diffs (dm w))).
Qed.

Lemma rejectFile_unfold p w :
  rejectFile p w =
  match map_get p (diffs (dm w)) with
  | Some d =>
      match restore p d (disk w) with
      | Ok n => Done tt (reject_record p d n w)
      | Err e => Threw e w
      end
  | None => Done tt w
  end.
Proof.
  unfold rejectFile, bind, diffs_get, gets, restore.
  destruct (map_get p (diffs (dm w))) as [d|]; [|reflexivity].
  destruct (isNew d); unfold unlinkSync, writeFileSync;
    match goal with |- context [match ?r with Ok _ => _ | Err _ => _ end] =>
      destruct r end; reflexivity.
Qed.

Lemma restore_is_Dir p d es n :
  restore p d (Dir es) = Ok n -> exists es', n = Dir es'.
Proof. unfold restore. destruct (isNew d); apply alter_Dir. Qed.

Lemma disk_with_disk n w : (exists es, n = Dir es) -> disk (with_disk n w) = n.
Proof. intros [es ->]. reflexivity. Qed.

Lemma restore_other p d n n' q :
  restore p d n = Ok n' -> q <> p -> file_at q n' = file_at q n.
Proof.
  unfold restore. destruct (isNew d);
    [apply fs_unlink_other | apply fs_write_other].
Qed.

Lemma keys_ok_set k d w w' :
  keys_ok w -> filePath d = k ->
  diffs (dm w') = map_set k d (diffs (dm w)) -> keys_ok w'.
Proof.
  intros Hk Hd Hw k' d'. rewrite Hw.
  destruct (path_eqb_spec k' k) as [->|Hne].
  - rewrite map_get_set_same. congruence.
  - rewrite map_get_set_other by exact Hne. apply Hk.
Qed.

Lemma keys_okb_sound w : keys_okb w = true -> keys_ok w.
Proof.
  unfold keys_okb, keys_ok. intros Hb k d Hg.
  apply map_get_In in Hg. rewrite forallb_forall in Hb.
  specialize (Hb _ Hg). simpl in Hb.
  destruct (path_eqb_spec k (filePath d)); congruence.
Qed.

Lemma acceptAll_unfold w :
  acceptAll w = for_each (map_keys (diffs (dm w))) (bulk_step acceptFile) w.
Proof. reflexivity. Qed.

Lemma rejectAll_unfold w :
  rejectAll w = for_each (map_keys (diffs (dm w))) (bulk_step rejectFile) w.
Proof. reflexivity. Qed.

Lemma Status_eqb_pending s : Status_eqb s pending = true <-> s = pending.
Proof. destruct s; simpl; split; congruence. Qed.

(** One step of a bulk operation, by cases. *)
Lemma bulk_step_cases op k w :
  keys_ok w ->
  (exists d, map_get k (diffs (dm w)) = Some d /\ status d = pending /\
             bulk_step op k w = op k w) \/
  ((forall d, map_get k (diffs (dm w)) = Some d -> status d <> pending) /\
   bulk_step op k w = Done tt w).
Proof.
  intros Hk. unfold bulk_step, bind, diffs_get, gets.
  destruct (map_get k (diffs (dm w))) as [d|] eqn:Eg.
  - destruct (Status_eqb (status d) pending) eqn:Es.
    + left. exists d. rewrite (Hk k d Eg). apply Status_eqb_pending in Es. auto.
    + right. split; [|reflexivity]. intros d' Hd' Hp. inversion Hd'; subst d'.
      apply Status_eqb_pending in Hp. congruence.
  - right. split; [discriminate|reflexivity].
Qed.

(** [acceptAll] cannot fail and does not touch the disk. *)
Lemma accept_loop ks :
  forall w, keys_ok w ->
    let o := for_each ks (bulk_step acceptFile) w in
    completed o = true /\ keys_ok (final o) /\ disk (final o) = disk w /\
    forall k d, map_get k (diffs (dm w)) = Some d ->
      map_get k (diffs (dm (final o))) =
      Some (if existsb (path_eqb k) ks && Status_eqb (status d) pending
            then with_status accepted d else d).
Proof.
  induction ks as [|k' ks IH]; intros w Hk; simpl.
  - repeat split; auto.
  - unfold bind.
    destruct (bulk_step_cases acceptFile k' w Hk)
      as [(d' & Hg & Hp & ->)|[Hnp ->]].
    + rewrite acceptFile_unfold, Hg.
      assert (Hk1 : keys_ok (accept_record k' d' w)).
      { eapply (keys_ok_set k' (with_status accepted d') w);
          [exact Hk | apply (Hk _ _ Hg) | reflexivity]. }
      destruct (IH _ Hk1) as (Hc & Hk2 & Hd & Hrec).
      repeat split; auto.
      intros k d Hgk. destruct (path_eqb_spec k k') as [->|Hne]; simpl.
      * assert (d = d') by congruence. subst d'.
        rewrite (Hrec k' (with_status accepted d)).
        -- simpl. rewrite Hp. simpl.
           now destruct (existsb (path_eqb k') ks).
        -- simpl. apply map_get_set_same.
      * apply Hrec. simpl. now rewrite map_get_set_other.
    + destruct (IH _ Hk) as (Hc & Hk2 & Hd & Hrec).
      repeat split; auto.
      intros k d Hgk. rewrite (Hrec k d Hgk).
      destruct (path_eqb_spec k k') as [->|Hne]; simpl; [|reflexivity].
      destruct (Status_eqb (status d) pending) eqn:Es;
        [|now rewrite !andb_false_r].
      apply Status_eqb_pending in Es. now destruct (Hnp d Hgk).
Qed.

(** A record that [rejectAll] does not reject, because it is not pending
    or not among the keys visited, keeps its state and its file. *)
Lemma reject_loop_frame ks :
  forall w k, keys_ok w ->
    (forall d, map_get k (diffs (dm w)) = Some d -> status d = pending ->
               ~ In k ks) ->
    let w' := final (for_each ks (bulk_step rejectFile) w) in
    keys_ok w' /\
    map_get k (diffs (dm w')) = map_get k (diffs (dm w)) /\
    file_at k (disk w') = file_at k (disk w).
Proof.
  induction ks as [|k' ks IH]; intros w k Hk Hskip; simpl; [auto|].
  unfold bind.
  destruct (bulk_step_cases rejectFile k' w Hk)
    as [(d' & Hg & Hp & ->)|[Hnp ->]].
  - rewrite rejectFile_unfold, Hg.
    destruct (restore k' d' (disk w)) as [n|e] eqn:Er; simpl; [|auto].
    assert (Hne : k <> k').
    { intros ->. apply (Hskip d' Hg Hp). now left. }
    destruct (restore_is_Dir _ _ _ _ Er) as [es Hn].
    assert (Hk1 : keys_ok (reject_record k' d' n w)).
    { eapply (keys_ok_set k' (with_status rejected d') w);
        [exact Hk | apply (Hk _ _ Hg) | reflexivity]. }
    assert (Hg1 : map_get k (diffs (dm (reject_record k' d' n w))) =
                  map_get k (diffs (dm w))).
    { simpl. now apply map_get_set_other. }
    assert (Hf1 : file_at k (disk (reject_record k' d' n w)) =
                  file_at k (disk w)).
    { change (disk (reject_record k' d' n w)) with (disk (with_disk n w)).
      rewrite disk_with_disk by eauto.
      now apply (restore_other _ _ _ _ _ Er). }
    destruct (IH (reject_record k' d' n w) k Hk1) as (H1 & H2 & H3).
    { rewrite Hg1. intros d Hd Hpd Hin. apply (Hskip d Hd Hpd). now right. }
    repeat split; [exact H1 | congruence | congruence].
  - apply IH; [exact Hk|].
    intros d Hd Hpd Hin. apply (Hskip d Hd Hpd). now right.
Qed.

(** When [rejectAll] fails, it fails on a pending record, and only the
    keys before it were visited. *)
Lemma reject_loop_abort ks :
  forall w e w', keys_ok w ->
    for_each ks (bulk_step rejectFile) w = Threw e w' ->
    exists l1 k l2 d,
      ks = l1 ++ k :: l2 /\
      for_each l1 (bulk_step rejectFile) w = Done tt w' /\
      map_get k (diffs (dm w')) = Some d /\ status d = pending /\
      rejectFile k w' = Threw e w'.
Proof.
  induction ks as [|k' ks IH]; intros w e w' Hk; simpl; [discriminate|].
  unfold bind.
  destruct (bulk_step rejectFile k' w) as [[] w1|e1 w1] eqn:Es.
  - intros Hrest.
    assert (Hk1 : keys_ok w1).
    { destruct (bulk_step_cases rejectFile k' w Hk)
        as [(d' & Hg & Hp & Hop)|[Hnp Hop]]; rewrite Hop in Es.
      - rewrite rejectFile_unfold, Hg in Es.
        destruct (restore k' d' (disk w)) as [n|?]; [|discriminate].
        inversion Es; subst w1.
        eapply (keys_ok_set k' (with_status rejected d') w);
          [exact Hk | apply (Hk _ _ Hg) | reflexivity].
      - inversion Es; subst; exact Hk. }
    destruct (IH w1 e w' Hk1 Hrest) as (l1 & k & l2 & d & -> & Hl1 & Hg & Hp & Hr).
    exists (k' :: l1), k, l2, d. repeat split; auto.
    simpl. unfold bind. now rewrite Es.
  - intros Ht; inversion Ht; subst e1 w1; clear Ht.
    destruct (bulk_step_cases rejectFile k' w Hk)
      as [(d' & Hg & Hp & Hop)|[Hnp Hop]]; rewrite Hop in Es; [|discriminate].
    assert (w' = w).
    { rewrite rejectFile_unfold, Hg in Es.
      destruct (restore k' d' (disk w)); [discriminate|]. now inversion Es. }
    subst w'. exists [], k', ks, d'. repeat split; auto.
Qed.

Lemma rejectFile_keys_ok k w w1 :
  keys_ok w -> rejectFile k w = Done tt w1 -> keys_ok w1.
Proof.
  intros Hk. rewrite rejectFile_unfold.
  destruct (map_get k (diffs (dm w))) as [d|] eqn:Hg.
  - destruct (restore k d (disk w)) as [n|?]; [|discriminate].
    intros Hrun; inversion Hrun; subst w1.
    eapply (keys_ok_set k (with_status rejected d) w);
      [exact Hk | apply (Hk _ _ Hg) | reflexivity].
  - intros Hrun; inversion Hrun; subst w1. exact Hk.
Qed.

Lemma rejectFile_threw_same k w e w' :
  rejectFile k w = Threw e w' -> w' = w.
Proof.
  rewrite rejectFile_unfold.
  destruct (map_get k (diffs (dm w))) as [d|]; [|discriminate].
  destruct (restore k d (disk w)); intros H; inversion H. reflexivity.
Qed.

(** The loop of [rejectAll] over [ks] returns exactly when the calls it
    makes return one after the other. *)
Lemma turns_of_reject_loop ks :
  forall w w', keys_ok w ->
    for_each ks (bulk_step rejectFile) w = Done tt w' ->
    rejected_in_turn ks w w'.
Proof.
  induction ks as [|k ks IH]; intros w w' Hk; simpl.
  - intros H; inversion H; subst w'. constructor.
  - unfold bind.
    destruct (bulk_step_cases rejectFile k w Hk)
      as [(d & Hg & Hp & ->)|[Hnp ->]].
    + destruct (rejectFile k w) as [[] w1|e w1] eqn:Er; [|discriminate].
      intros Hrest. eapply rejected_next; eauto.
      apply IH; [|exact Hrest]. eapply rejectFile_keys_ok; eauto.
    + intros Hrest. apply rejected_skip; [exact Hnp|]. now apply IH.
Qed.

Lemma reject_loop_of_turns l w w' :
  rejected_in_turn l w w' -> keys_ok w ->
  for_each l (bulk_step rejectFile) w = Done tt w' /\ keys_ok w'.
Proof.
  induction 1 as [w|k l w w' Hnp _ IH|k l d w w1 w' Hg Hp Hr _ IH];
    intros Hk.
  - split; [reflexivity | exact Hk].
  - simpl. unfold bind.
    destruct (bulk_step_cases rejectFile k w Hk)
      as [(d & Hg & Hp & _)|[_ ->]].
    + now destruct (Hnp d Hg).
    + now apply IH.
  - simpl. unfold bind.
    destruct (bulk_step_cases rejectFile k w Hk)
      as [(d' & _ & _ & ->)|[Hnp _]].
    + rewrite Hr. apply IH. eapply rejectFile_keys_ok; eauto.
    + now destruct (Hnp d Hg).
Qed.

(** ** [loadProposedChanges] *)

Lemma path_relative_app pd rel : path_relative pd (pd ++ rel) = rel.
Proof.
  induction pd as [|x pd IH]; simpl; [reflexivity|].
  now rewrite String.eqb_refl.
Qed.

Lemma walk_file_spec proposedDir root rel w :
  walk_file proposedDir root (proposedDir ++ rel) w =
  match lookup (resolve_root root w ++ rel) (disk w) with
  | Some (Dir _) => Threw EISDIR w
  | _ =>
      match lookup (proposedDir ++ rel) (disk w) with
      | Some (File after) =>
          Done tt (store_staged root rel after w)
      | Some (Dir _) => Threw EISDIR w
      | None => Threw ENOENT w
      end
  end.
Proof.
  unfold walk_file, store_staged, content_or_empty, file_at, path_concat,
    staged_diff.
  rewrite !path_relative_app.
  cbv beta iota zeta delta [bind gets existsSync readFileSync lift_fs
    fs_exists fs_read diffs_set modify ret].
  destruct (lookup (resolve_root root w ++ rel) (disk w)) as [[c|es]|] eqn:El;
    cbv beta iota; rewrite ?El; cbv beta iota; try reflexivity;
    destruct (lookup (proposedDir ++ rel) (disk w)) as [[a|es']|] eqn:Ef;
    cbv beta iota; rewrite ?Ef; cbv beta iota; try reflexivity;
    match goal with |- context [negb (String.eqb ?x ?y)] =>
      destruct (String.eqb x y); reflexivity end.
Qed.

(** A property that the file branch keeps is kept by the whole walk. *)
Lemma walk_inv (P : world -> Prop) proposedDir root :
  (forall rel w, P w ->
                 P (final (walk_file proposedDir root (proposedDir ++ rel) w))) ->
  forall fuel r w, P w ->
                   P (final (walk fuel proposedDir root (proposedDir ++ r) w)).
Proof.
  intros Hfile. induction fuel as [|fuel IH]; intros r w Hw; simpl; [exact Hw|].
  unfold bind, readdirSync, lift_fs.
  destruct (fs_readdir (proposedDir ++ r) (disk w)) as [entries|e];
    [|exact Hw].
  apply for_each_inv; [|exact Hw].
  intros entry w' _ Hw'. unfold path_join. rewrite <- app_assoc.
  destruct (isDirectory entry); [apply IH | apply Hfile]; exact Hw'.
Qed.

Lemma loadProposedChanges_unfold proposedDir w :
  loadProposedChanges proposedDir w =
  if fs_exists proposedDir (disk w) then
    match walk (S (height (disk w))) proposedDir (workspaceFolder w)
            proposedDir w with
    | Done _ w1 => Done tt (notify w1)
    | Threw e w1 => Threw e w1
    end
  else Done tt w.
Proof.
  cbv beta iota delta [loadProposedChanges bind existsSync gets workspaceRoot
    negb ret diffs_size getPendingDiffs].
  destruct (fs_exists proposedDir (disk w)); [|reflexivity].
  cbv beta iota.
  destruct (walk _ _ _ _ w) as [[] w1|e w1]; [|reflexivity].
  unfold fire, modify, notify, pending_of.
  destruct (0 <? List.length (diffs (dm w1))); reflexivity.
Qed.

Lemma store_staged_same_base root rel after w :
  same_base w (store_staged root rel after w).
Proof.
  unfold store_staged. destruct (String.eqb _ _);
    [apply same_base_refl | apply same_base_with_diffs, same_base_refl].
Qed.

Lemma walk_file_same_base proposedDir root rel w :
  same_base w (final (walk_file proposedDir root (proposedDir ++ rel) w)).
Proof.
  rewrite walk_file_spec.
  destruct (lookup (resolve_root root w ++ rel) (disk w)) as [[c|es]|];
    simpl; try apply same_base_refl;
    destruct (lookup (proposedDir ++ rel) (disk w)) as [[a|es']|];
    simpl; try apply same_base_refl; apply store_staged_same_base.
Qed.

Lemma resolve_root_same_base w w' root :
  same_base w w' -> resolve_root root w' = resolve_root root w.
Proof. intros (_ & _ & Hc & _). unfold resolve_root. now rewrite Hc. Qed.

Lemma walk_sound proposedDir w0 fuel r :
  let w' := final (walk fuel proposedDir (workspaceFolder w0)
                     (proposedDir ++ r) w0) in
  same_base w0 w' /\
  forall k d, map_get k (diffs (dm w')) = Some d ->
              map_get k (diffs (dm w0)) = Some d \/
              staged_record proposedDir w0 k d.
Proof.
  apply (walk_inv
           (fun w' => same_base w0 w' /\
                      forall k d, map_get k (diffs (dm w')) = Some d ->
                                  map_get k (diffs (dm w0)) = Some d \/
                                  staged_record proposedDir w0 k d));
    [|split; [apply same_base_refl | auto]].
  intros rel w [Hb Hrec]. split.
  - eapply same_base_trans; [exact Hb | apply walk_file_same_base].
  - rewrite walk_file_spec.
    rewrite (resolve_root_same_base w0 w _ Hb), (same_base_disk w0 w Hb).
    destruct (lookup (resolve_root (workspaceFolder w0) w0 ++ rel) (disk w0))
      as [[c|es]|] eqn:El; simpl; auto;
      destruct (lookup (proposedDir ++ rel) (disk w0)) as [[a|es']|] eqn:Ef;
      simpl; auto;
      unfold store_staged;
      rewrite (resolve_root_same_base w0 w _ Hb), (same_base_disk w0 w Hb);
      unfold content_or_empty, file_at; rewrite El;
      match goal with |- context [String.eqb ?x ?y] =>
        destruct (String.eqb_spec x y) as [Heq|Hneq] end; auto;
      intros k d; simpl;
      (destruct (path_eqb_spec k (resolve_root (workspaceFolder w0) w0 ++ rel))
        as [->|Hne];
       [rewrite map_get_set_same; intros Hd; inversion Hd; subst d; right;
        exists rel; unfold staged_diff, content_or_empty, file_at; simpl;
        rewrite El, Ef; repeat split; auto
       |rewrite map_get_set_other by exact Hne; apply Hrec]).
Qed.

Lemma loadProposedChanges_same_base_but_events proposedDir w :
  let w' := final (loadProposedChanges proposedDir w) in
  disk w' = disk w /\ snapshots (dm w') = snapshots (dm w).
Proof.
  simpl. rewrite loadProposedChanges_unfold.
  destruct (fs_exists proposedDir (disk w)); [|auto].
  pose proof (walk_sound proposedDir w (S (height (disk w))) []) as [Hb _].
  rewrite app_nil_r in Hb.
  destruct (walk _ _ _ _ w) as [[] w1|e w1]; simpl in *.
  - rewrite notify_same_disk, notify_same_snapshots.
    split; [apply (same_base_disk _ _ Hb) | apply Hb].
  - split; [apply (same_base_disk _ _ Hb) | apply Hb].
Qed.

(** A record held after [loadProposedChanges] was held before the call or
    records a staged file. *)
Lemma loadProposedChanges_records proposedDir w k d :
  map_get k (diffs (dm (final (loadProposedChanges proposedDir w)))) = Some d ->
  map_get k (diffs (dm w)) = Some d \/ staged_record proposedDir w k d.
Proof.
  rewrite loadProposedChanges_unfold.
  destruct (fs_exists proposedDir (disk w)); [|auto].
  pose proof (walk_sound proposedDir w (S (height (disk w))) []) as [_ Hrec].
  rewrite app_nil_r in Hrec.
  destruct (walk _ _ _ _ w) as [[] w1|e w1]; simpl in *.
  - rewrite notify_same_diffs. apply Hrec.
  - apply Hrec.
Qed.

(** *** The walk visits every staged file *)

Lemma lookup_app p q n :
  lookup (p ++ q) n =
  match lookup p n with Some c => lookup q c | None => None end.
Proof.
  revert n; induction p as [|x p IH]; intros n; simpl; [reflexivity|].
  destruct n as [c|es]; [reflexivity|].
  destruct (map_get x es); [apply IH | reflexivity].
Qed.

Lemma map_get_split {V} (x : string) (es : list (string * V)) c :
  map_get x es = Some c ->
  exists es1 es2, es = es1 ++ (x, c) :: es2.
Proof.
  induction es as [|[y v] es IH]; simpl; [discriminate|].
  destruct (String.eqb_spec x y) as [->|Hne].
  - intros Hc; inversion Hc; subst. now exists [], es.
  - intros Hg. destruct (IH Hg) as (es1 & es2 & ->).
    now exists ((y, v) :: es1), es2.
Qed.

Lemma map_get_of_key {V} (x : string) (es : list (string * V)) :
  In x (map_keys es) -> exists c, map_get x es = Some c.
Proof.
  intros Hin. destruct (map_get x es) as [c|] eqn:Eg; [eauto|].
  apply map_get_None in Eg. contradiction.
Qed.

Lemma walk_S fuel proposedDir root r w :
  walk (S fuel) proposedDir root (proposedDir ++ r) w =
  match fs_readdir (proposedDir ++ r) (disk w) with
  | Ok entries => for_each entries (walk_entry fuel proposedDir root r) w
  | Err e => Threw e w
  end.
Proof.
  simpl. unfold bind, readdirSync, lift_fs.
  now destruct (fs_readdir (proposedDir ++ r) (disk w)).
Qed.

Lemma walk_entry_inv (P : world -> Prop) proposedDir root :
  (forall rel w, P w ->
                 P (final (walk_file proposedDir root (proposedDir ++ rel) w))) ->
  forall fuel r entry w, P w ->
                         P (final (walk_entry fuel proposedDir root r entry w)).
Proof.
  intros Hfile fuel r entry w Hw. unfold walk_entry, path_join.
  rewrite <- app_assoc.
  destruct (isDirectory entry); [now apply walk_inv | now apply Hfile].
Qed.

Section Visits.

Variable proposedDir : path.

Variable w0 : world.

Local Abbreviation root := (workspaceFolder w0).
Local Abbreviation root0 := (resolve_root (workspaceFolder w0) w0).

Lemma store_staged_get rel after w k :
  same_base w0 w ->
  map_get k (diffs (dm (store_staged root rel after w))) =
  if path_eqb k (root0 ++ rel)
     && negb (String.eqb (content_or_empty (root0 ++ rel) (disk w0)) after)
  then Some (staged_diff root0 rel
               (content_or_empty (root0 ++ rel) (disk w0)) after)
  else map_get k (diffs (dm w)).
Proof.
  intros Hb. unfold store_staged.
  rewrite (resolve_root_same_base w0 w root Hb), (same_base_disk w0 w Hb).
  destruct (String.eqb _ after); simpl; [now rewrite andb_false_r|].
  rewrite andb_true_r.
  destruct (path_eqb_spec k (root0 ++ rel)) as [->|Hne].
  - apply map_get_set_same.
  - now apply map_get_set_other.
Qed.

(** A record in place stays in place: a staged file is only ever
    recorded under its own key, and always as the same record. *)
Lemma staged_stored_walk_file rel after rel2 w :
  file_at (proposedDir ++ rel) (disk w0) = Some after ->
  staged_stored w0 rel after w ->
  staged_stored w0 rel after
    (final (walk_file proposedDir root (proposedDir ++ rel2) w)).
Proof.
  intros Hfa [Hb Hg]. split.
  - eapply same_base_trans; [exact Hb | apply walk_file_same_base].
  - rewrite walk_file_spec.
    rewrite (resolve_root_same_base w0 w root Hb), (same_base_disk w0 w Hb).
    destruct (lookup (root0 ++ rel2) (disk w0)) as [[c|es]|]; simpl; auto;
      destruct (lookup (proposedDir ++ rel2) (disk w0)) as [[a|es']|] eqn:Ef;
      simpl; auto;
      rewrite (store_staged_get rel2 a w _ Hb);
      (destruct (path_eqb_spec (root0 ++ rel) (root0 ++ rel2)) as [Heq|Hne];
       simpl; [|exact Hg]);
      apply app_inv_head in Heq; subst rel2;
      unfold file_at in Hfa; rewrite Ef in Hfa; inversion Hfa; subst a;
      destruct (String.eqb _ after); simpl; auto.
Qed.

Lemma staged_stored_rest rel after fuel r entries w :
  file_at (proposedDir ++ rel) (disk w0) = Some after ->
  staged_stored w0 rel after w ->
  staged_stored w0 rel after
    (final (for_each entries (walk_entry fuel proposedDir root r) w)).
Proof.
  intros Hfa. apply for_each_inv. intros entry w' _.
  apply walk_entry_inv. intros rel2 w2. now apply staged_stored_walk_file.
Qed.

(** A walk that returns has recorded every staged file below its
    directory whose content differs from the real file. *)
Lemma walk_visits fuel :
  forall r w w1,
    same_base w0 w ->
    walk fuel proposedDir root (proposedDir ++ r) w = Done tt w1 ->
    forall rel' after,
      rel' <> [] ->
      file_at (proposedDir ++ r ++ rel') (disk w0) = Some after ->
      content_or_empty (root0 ++ r ++ rel') (disk w0) <> after ->
      staged_stored w0 (r ++ rel') after w1.
Proof.
  induction fuel as [|fuel IH]; intros r w w1 Hb Hrun rel' after Hne Hfa Hdiff;
    [discriminate|].
  rewrite walk_S in Hrun. unfold fs_readdir in Hrun.
  rewrite (same_base_disk w0 w Hb) in Hrun.
  destruct rel' as [|x rel'']; [congruence|].
  pose proof Hfa as Hfa'.
  unfold file_at in Hfa'. rewrite app_assoc, lookup_app in Hfa'.
  destruct (lookup (proposedDir ++ r) (disk w0)) as [[c|es]|] eqn:Edir;
    try discriminate.
  simpl in Hfa'. destruct (map_get x es) as [c1|] eqn:Ex; [|discriminate].
  destruct (map_get_split x es c1 Ex) as (es1 & es2 & ->).
  rewrite map_app, for_each_app in Hrun. simpl in Hrun.
  destruct (for_each (map dirent_of es1) _ w) as [[] wa|] eqn:Ea;
    [|discriminate].
  assert (Hba : same_base w0 wa).
  { change wa with (final (Done tt wa : outcome unit)). rewrite <- Ea.
    apply (for_each_inv (same_base w0)); [|exact Hb].
    intros entry w' _. apply walk_entry_inv.
    intros rel2 w2 Hb2. eapply same_base_trans; [exact Hb2|].
    apply walk_file_same_base. }
  unfold bind in Hrun.
  destruct (walk_entry fuel proposedDir root r (dirent_of (x, c1)) wa)
    as [[] wb|] eqn:Eb; [|discriminate].
  assert (Hstored : staged_stored w0 (r ++ x :: rel'') after wb).
  { unfold walk_entry, path_join, dirent_of in Eb. simpl in Eb.
    rewrite <- app_assoc in Eb.
    destruct c1 as [c1|es']; simpl in Eb.
    - (* a regular file: [rel''] is empty *)
      destruct rel'' as [|y rel'']; [|discriminate].
      inversion Hfa'; subst c1.
      rewrite walk_file_spec in Eb.
      rewrite (resolve_root_same_base w0 wa root Hba),
        (same_base_disk w0 wa Hba) in Eb.
      unfold file_at in Hfa.
      destruct (lookup (root0 ++ r ++ [x]) (disk w0)) as [[c|?]|] eqn:El;
        try discriminate;
        destruct (lookup (proposedDir ++ r ++ [x]) (disk w0))
          as [[a|?]|]; try discriminate;
        inversion Hfa; subst a; inversion Eb; subst wb; split;
        try apply same_base_trans with wa; auto;
        try apply store_staged_same_base;
        rewrite (store_staged_get _ _ _ _ Hba);
        destruct (path_eqb_spec (root0 ++ r ++ [x]) (root0 ++ r ++ [x]));
        try congruence;
        destruct (String.eqb_spec
                    (content_or_empty (root0 ++ r ++ [x]) (disk w0)) after);
        try congruence; reflexivity.
    - (* a directory: the staged file is below it *)
      assert (Hr : r ++ x :: rel'' = (r ++ [x]) ++ rel'')
        by now rewrite <- app_assoc.
      rewrite Hr. apply (IH (r ++ [x]) wa wb Hba Eb rel'' after).
      + intros ->. discriminate.
      + now rewrite <- Hr.
      + now rewrite <- Hr. }
  change w1 with (final (Done tt w1 : outcome unit)). rewrite <- Hrun.
  now apply staged_stored_rest.
Qed.

End Visits.

(** *** The recursion never exhausts the stack *)

Lemma height_child x es c :
  map_get x es = Some c -> height c < height (Dir es).
Proof.
  simpl. induction es as [|[y v] es IH]; simpl; [discriminate|].
  destruct (String.eqb x y).
  - intros Hc; inversion Hc; subst. lia.
  - intros Hg. specialize (IH Hg). lia.
Qed.

Lemma height_lookup p : forall n c, lookup p n = Some c -> height c <= height n.
Proof.
  induction p as [|x p IH]; intros n c; simpl.
  - intros Hc; inversion Hc; subst; lia.
  - destruct n as [?|es]; [discriminate|].
    destruct (map_get x es) as [c1|] eqn:Ex; [|discriminate].
    intros Hl. specialize (IH _ _ Hl).
    pose proof (height_child _ _ _ Ex). lia.
Qed.

Lemma for_each_threw {A} (P : world -> Prop) (body : A -> M unit) :
  forall xs,
    (forall x w, In x xs -> P w -> P (final (body x w))) ->
    forall w e w1, P w -> for_each xs body w = Threw e w1 ->
      exists x w', In x xs /\ P w' /\ body x w' = Threw e w1.
Proof.
  induction xs as [|x xs IH]; intros Hbody w e w1 Hw; simpl; [discriminate|].
  unfold bind. pose proof (Hbody x w (or_introl eq_refl) Hw) as Hx.
  destruct (body x w) as [[] w2|e2 w2] eqn:Eb; simpl in Hx.
  - intros Hrest. destruct (IH (fun y w' Hy => Hbody y w' (or_intror Hy))
                              _ _ _ Hx Hrest) as (y & w' & Hy & Hw' & Hb).
    exists y, w'. auto.
  - intros Ht; inversion Ht; subst. exists x, w. auto.
Qed.

Lemma walk_file_throws proposedDir root rel w e w1 :
  walk_file proposedDir root (proposedDir ++ rel) w = Threw e w1 ->
  e = EISDIR \/ e = ENOENT.
Proof.
  rewrite walk_file_spec.
  destruct (lookup (resolve_root root w ++ rel) (disk w)) as [[c|es]|];
    try (intros Ht; inversion Ht; auto; fail);
    destruct (lookup (proposedDir ++ rel) (disk w)) as [[a|es']|];
    intros Ht; inversion Ht; auto.
Qed.

Lemma walk_fuel proposedDir root w0 fuel :
  forall r w n e w1,
    same_base w0 w ->
    lookup (proposedDir ++ r) (disk w0) = Some n ->
    height n < fuel ->
    walk fuel proposedDir root (proposedDir ++ r) w = Threw e w1 ->
    e <> RangeError.
Proof.
  induction fuel as [|fuel IH]; intros r w n e w1 Hb Hl Hh Hrun; [lia|].
  rewrite walk_S in Hrun. unfold fs_readdir in Hrun.
  rewrite (same_base_disk w0 w Hb), Hl in Hrun.
  destruct n as [c|es]; [inversion Hrun; discriminate|].
  apply (for_each_threw (same_base w0)) in Hrun; [|
    intros entry w' _; apply walk_entry_inv;
    intros rel2 w2 Hb2; eapply same_base_trans; [exact Hb2|];
    apply walk_file_same_base | exact Hb].
  destruct Hrun as (entry & w' & Hin & Hb' & Hthrow).
  apply in_map_iff in Hin. destruct Hin as ([x child] & <- & Hin).
  assert (Hkey : In x (map_keys es)).
  { change x with (fst (x, child)). unfold map_keys. now apply in_map. }
  destruct (map_get_of_key x es Hkey) as [c1 Hc1].
  unfold walk_entry, path_join in Hthrow. rewrite <- app_assoc in Hthrow.
  assert (Hname : name (dirent_of (x, child)) = x)
    by (unfold dirent_of; simpl; now destruct child).
  rewrite Hname in Hthrow.
  destruct (isDirectory (dirent_of (x, child))).
  - apply (IH (r ++ [x]) w' c1 e w1 Hb'); [| |exact Hthrow].
    + rewrite app_assoc, lookup_app, Hl. simpl. now rewrite Hc1.
    + pose proof (height_child _ _ _ Hc1). lia.
  - destruct (walk_file_throws _ _ _ _ _ _ Hthrow); subst; discriminate.
Qed.

(** [loadProposedChanges] terminates within the bound on the recursion. *)
Lemma loadProposedChanges_fuel proposedDir w e w1 :
  loadProposedChanges proposedDir w = Threw e w1 -> e <> RangeError.
Proof.
  rewrite loadProposedChanges_unfold. unfold fs_exists.
  destruct (lookup proposedDir (disk w)) as [n|] eqn:El; [|discriminate].
  destruct (walk _ _ _ _ w) as [[] w2|e2 w2] eqn:Ew; [discriminate|].
  intros Ht; inversion Ht; subst.
  apply (walk_fuel proposedDir (workspaceFolder w) w (S (height (disk w))) []
           w n e w1).
  - apply same_base_refl.
  - now rewrite app_nil_r.
  - pose proof (height_lookup _ _ _ El). lia.
  - now rewrite app_nil_r.
Qed.

(** ** The claims about [DiffManager] *)

(** C2 (amended). [computeDiffs(paths)] first drops every record of the
    session: after the call no path outside [paths] has a record, and
    after a call that returns each path of [paths] has exactly the pending
    record of its change, or none when its content is the snapshot; every
    record held was made by this call.  Records are also dropped by
    [clearDiffs]. *)
Theorem computeDiffs_replaces_records (paths : list path) (w : world) :
  let o := computeDiffs (Some paths) w in
  (forall p, ~ In p paths -> map_get p (diffs (dm (final o))) = None) /\
  (completed o = true ->
   forall p, In p paths -> map_get p (diffs (dm (final o))) = diff_of w p) /\
  (forall p d, map_get p (diffs (dm (final o))) = Some d ->
               In p paths /\ diff_of w p = Some d) /\
  diffs (dm (final (clearDiffs (final o)))) = [].
Proof.
  simpl.
  assert (Hb : same_base (with_diffs [] w) (with_diffs [] w))
    by apply same_base_refl.
  assert (Hd : forall p, diff_of (with_diffs [] w) p = diff_of w p).
  { intros p. apply diff_of_same_base.
    apply same_base_with_diffs, same_base_refl. }
  repeat split.
  - intros p Hn. rewrite computeDiffs_final_diffs. unfold paths_of.
    destruct (computeDiffs_loop_get paths _ _ Hb p) as [H1 _].
    now rewrite (H1 Hn).
  - intros Hc p Hin. rewrite computeDiffs_final_diffs. unfold paths_of.
    rewrite computeDiffs_completed in Hc. unfold paths_of in Hc.
    destruct (computeDiffs_loop_get paths _ _ Hb p) as [_ H2].
    rewrite (H2 Hc Hin), Hd. now destruct (diff_of w p).
  - now apply (computeDiffs_records (Some paths) w p d).
  - now apply (computeDiffs_records (Some paths) w p d).
Qed.

(** C3 (amended). [acceptAll] and [rejectAll] leave every record that is
    [accepted] or [rejected] as it is, and the content of its file on
    disk unchanged (each record being stored under its own path).  The
    single-file operations do not look at the status: [acceptFile] marks
    the record of its path [accepted] whatever it was, and a [rejectFile]
    that returns marks it [rejected]. *)
Theorem bulk_operations_skip_terminal (w : world) (k : path) (d : FileDiff) :
  keys_ok w ->
  map_get k (diffs (dm w)) = Some d ->
  status d <> pending ->
  (map_get k (diffs (dm (final (acceptAll w)))) = Some d /\
   disk (final (acceptAll w)) = disk w) /\
  (map_get k (diffs (dm (final (rejectAll w)))) = Some d /\
   file_at k (disk (final (rejectAll w))) = file_at k (disk w)) /\
  map_get k (diffs (dm (final (acceptFile k w)))) =
  Some (with_status accepted d) /\
  (forall w', rejectFile k w = Done tt w' ->
     map_get k (diffs (dm w')) = Some (with_status rejected d)).
Proof.
  intros Hk Hg Hs. repeat split.
  - rewrite acceptAll_unfold.
    destruct (accept_loop (map_keys (diffs (dm w))) w Hk) as (_ & _ & _ & Hrec).
    rewrite (Hrec k d Hg).
    destruct (Status_eqb (status d) pending) eqn:Es;
      [apply Status_eqb_pending in Es; contradiction|].
    now rewrite andb_false_r.
  - rewrite acceptAll_unfold.
    now destruct (accept_loop (map_keys (diffs (dm w))) w Hk) as (_ & _ & Hd & _).
  - rewrite rejectAll_unfold.
    destruct (reject_loop_frame (map_keys (diffs (dm w))) w k Hk) as (_ & H2 & _).
    + intros d' Hd' Hp. congruence.
    + congruence.
  - rewrite rejectAll_unfold.
    destruct (reject_loop_frame (map_keys (diffs (dm w))) w k Hk) as (_ & _ & H3).
    + intros d' Hd' Hp. congruence.
    + exact H3.
  - rewrite acceptFile_unfold, Hg. simpl. apply map_get_set_same.
  - intros w'. rewrite rejectFile_unfold, Hg.
    destruct (restore k d (disk w)); [|discriminate].
    intros Hrun; inversion Hrun; subst w'. simpl. apply map_get_set_same.
Qed.

(** C4 (amended). [acceptAll] cannot fail: it returns, having marked
    every pending record accepted.  [rejectAll] has no error handling of
    its own.  It returns exactly when every [rejectFile] it calls returns.
    As soon as one raises, on a record pending at its turn and after the
    calls before it have returned, [rejectAll] raises the same error and
    goes no further: the failing record stays pending, and every record
    that is not before it in the order of the map keeps its state and its
    file.  Conversely a [rejectAll] that raises has stopped in that
    way. *)
Theorem bulk_failure_aborts (w : world) :
  keys_ok w ->
  (completed (acceptAll w) = true /\
   forall k d, map_get k (diffs (dm w)) = Some d -> status d = pending ->
     map_get k (diffs (dm (final (acceptAll w)))) =
     Some (with_status accepted d)) /\
  (forall w', rejectAll w = Done tt w' <->
     rejected_in_turn (map_keys (diffs (dm w))) w w') /\
  (forall l1 k l2 d w1 e w2,
     map_keys (diffs (dm w)) = l1 ++ k :: l2 ->
     rejected_in_turn l1 w w1 ->
     map_get k (diffs (dm w1)) = Some d -> status d = pending ->
     rejectFile k w1 = Threw e w2 ->
     rejectAll w = Threw e w1 /\
     map_get k (diffs (dm w1)) = Some d /\
     forall k2, ~ In k2 l1 ->
       map_get k2 (diffs (dm w1)) = map_get k2 (diffs (dm w)) /\
       file_at k2 (disk w1) = file_at k2 (disk w)) /\
  (forall e w', rejectAll w = Threw e w' ->
     exists l1 k l2 d,
       map_keys (diffs (dm w)) = l1 ++ k :: l2 /\
       rejected_in_turn l1 w w' /\
       map_get k (diffs (dm w')) = Some d /\ status d = pending /\
       rejectFile k w' = Threw e w' /\
       forall k2, ~ In k2 l1 ->
         map_get k2 (diffs (dm w')) = map_get k2 (diffs (dm w)) /\
         file_at k2 (disk w') = file_at k2 (disk w)).
Proof.
  intros Hk.
  assert (Hframe : forall l1 w1,
            for_each l1 (bulk_step rejectFile) w = Done tt w1 ->
            forall k2, ~ In k2 l1 ->
              map_get k2 (diffs (dm w1)) = map_get k2 (diffs (dm w)) /\
              file_at k2 (disk w1) = file_at k2 (disk w)).
  { intros l1 w1 Hl1 k2 Hnin.
    destruct (reject_loop_frame l1 w k2 Hk) as (_ & H2 & H3);
      [intros; assumption|].
    rewrite Hl1 in H2, H3. simpl in H2, H3. auto. }
  split; [|split; [|split]].
  - rewrite acceptAll_unfold.
    destruct (accept_loop (map_keys (diffs (dm w))) w Hk) as (Hc & _ & _ & Hrec).
    split; [exact Hc|]. intros k d Hg Hp. rewrite (Hrec k d Hg), Hp. simpl.
    assert (Hin : existsb (path_eqb k) (map_keys (diffs (dm w))) = true).
    { apply existsb_exists. exists k. split.
      - eapply map_get_Some_key; eauto.
      - destruct (path_eqb_spec k k); congruence. }
    now rewrite Hin.
  - intros w'. rewrite rejectAll_unfold. split.
    + now apply turns_of_reject_loop.
    + intros Ht. now apply (reject_loop_of_turns _ _ _ Ht Hk).
  - intros l1 k l2 d w1 e w2 Hks Ht Hg Hp Hr.
    destruct (reject_loop_of_turns _ _ _ Ht Hk) as [Hl1 Hk1].
    pose proof (rejectFile_threw_same _ _ _ _ Hr) as ->.
    split; [|split; [exact Hg | now apply Hframe]].
    rewrite rejectAll_unfold, Hks, for_each_app, Hl1.
    simpl. unfold bind.
    destruct (bulk_step_cases rejectFile k w1 Hk1)
      as [(d' & _ & _ & ->)|[Hnp _]].
    + now rewrite Hr.
    + now destruct (Hnp d Hg).
  - intros e w' Hrun. rewrite rejectAll_unfold in Hrun.
    destruct (reject_loop_abort _ w e w' Hk Hrun)
      as (l1 & k & l2 & d & Hks & Hl1 & Hg & Hp & Hr).
    exists l1, k, l2, d.
    split; [exact Hks|]. split; [now apply turns_of_reject_loop|].
    split; [exact Hg|]. split; [exact Hp|]. split; [exact Hr|].
    now apply Hframe.
Qed.

(** C5 (amended). A [rejectFile(p)] that returns has marked the record
    [rejected], and has left the file at [p] with exactly the record's
    [before] content when [isNew] is false, or deleted it when [isNew] is
    true.  When [isNew] is false it returns exactly when the write can
    succeed, that is when [p] is not a directory and the directory
    holding it exists: a file that was deleted is written anew.  When
    [isNew] is true it returns exactly when [p] is a regular file.  In
    every other case it raises and changes nothing. *)
Theorem rejectFile_restores (p : path) (d : FileDiff) (w : world) :
  map_get p (diffs (dm w)) = Some d ->
  (forall w', rejectFile p w = Done tt w' ->
     map_get p (diffs (dm w')) = Some (with_status rejected d) /\
     (isNew d = false -> file_at p (disk w') = Some (before d)) /\
     (isNew d = true -> fs_exists p (disk w') = false)) /\
  (isNew d = false ->
   (completed (rejectFile p w) = true <-> can_write p (disk w) = true)) /\
  (isNew d = true ->
   (completed (rejectFile p w) = true <->
    exists c, file_at p (disk w) = Some c)) /\
  (isNew d = false -> fs_exists p (disk w) = false ->
   can_write p (disk w) = true ->
   completed (rejectFile p w) = true /\
   file_at p (disk (final (rejectFile p w))) = Some (before d)) /\
  (forall c, file_at p (disk w) = Some c ->
     completed (rejectFile p w) = true) /\
  (forall e w', rejectFile p w = Threw e w' -> w' = w).
Proof.
  intros Hg.
  assert (Hdone : forall w', rejectFile p w = Done tt w' ->
            map_get p (diffs (dm w')) = Some (with_status rejected d) /\
            (isNew d = false -> file_at p (disk w') = Some (before d)) /\
            (isNew d = true -> fs_exists p (disk w') = false)).
  { intros w'. rewrite rejectFile_unfold, Hg. intros Hrun.
    destruct (restore p d (disk w)) as [n|e] eqn:Er; [|discriminate].
    inversion Hrun; subst w'; clear Hrun.
    destruct (restore_is_Dir _ _ _ _ Er) as [es Hes].
    assert (Hdisk : disk (reject_record p d n w) = n).
    { change (disk (reject_record p d n w)) with (disk (with_disk n w)).
      apply disk_with_disk. eauto. }
    split; [simpl; apply map_get_set_same|].
    rewrite Hdisk. unfold restore in Er.
    split; intros Hn; rewrite Hn in Er.
    + eapply fs_write_read; eauto.
    + unfold fs_exists. now rewrite (fs_unlink_gone _ _ _ Er). }
  assert (Hret : completed (rejectFile p w) = true <->
                 exists n, restore p d (disk w) = Ok n).
  { rewrite rejectFile_unfold, Hg.
    destruct (restore p d (disk w)) as [n|e]; simpl; split; eauto;
      try discriminate. intros [n H]; discriminate. }
  assert (Hold : isNew d = false ->
            (completed (rejectFile p w) = true <->
             can_write p (disk w) = true)).
  { intros Hn. rewrite Hret. unfold restore. rewrite Hn.
    apply fs_write_ok_iff. }
  assert (Hnew : isNew d = true ->
            (completed (rejectFile p w) = true <->
             exists c, file_at p (disk w) = Some c)).
  { intros Hn. rewrite Hret. unfold restore. rewrite Hn.
    apply fs_unlink_ok_iff. }
  split; [exact Hdone|]. split; [exact Hold|]. split; [exact Hnew|].
  split; [|split].
  - intros Hn _ Hcw.
    assert (Hc : completed (rejectFile p w) = true) by now apply Hold.
    split; [exact Hc|].
    destruct (rejectFile p w) as [[] w'|e w'] eqn:Er; [|discriminate].
    now apply (Hdone w' eq_refl).
  - intros c Hc. destruct (isNew d) eqn:Hn.
    + apply Hnew; eauto.
    + rewrite Hret. unfold restore, fs_write, disk. rewrite Hn.
      apply (alter_file_succeeds (write_entry (before d)) p (root_dir w) c Hc).
      simpl. eauto.
  - intros e w'. apply rejectFile_threw_same.
Qed.

Lemma loadProposedChanges_complete proposedDir w w' rel after :
  let root := resolve_root (workspaceFolder w) w in
  loadProposedChanges proposedDir w = Done tt w' ->
  file_at (proposedDir ++ rel) (disk w) = Some after ->
  content_or_empty (root ++ rel) (disk w) <> after ->
  map_get (root ++ rel) (diffs (dm w')) =
  Some (staged_diff root rel (content_or_empty (root ++ rel) (disk w)) after).
Proof.
  simpl. rewrite loadProposedChanges_unfold. intros Hrun Hfa Hdiff.
  destruct (fs_exists proposedDir (disk w)) eqn:Ex.
  - destruct (walk _ _ _ _ w) as [[] w1|e w1] eqn:Ew; [|discriminate].
    inversion Hrun; subst w'. rewrite notify_same_diffs.
    rewrite <- (app_nil_r proposedDir) in Ew at 2.
    destruct rel as [|x rel].
    + exfalso. rewrite walk_S in Ew. unfold fs_readdir, file_at in *.
      destruct (lookup (proposedDir ++ []) (disk w)) as [[c|es]|];
        discriminate.
    + apply (walk_visits proposedDir w _ [] w w1 (same_base_refl w) Ew
               (x :: rel) after); auto. discriminate.
  - exfalso. unfold fs_exists, file_at in *. rewrite lookup_app in Hfa.
    destruct (lookup proposedDir (disk w)); discriminate.
Qed.

Lemma staged_record_inv proposedDir w k d :
  staged_record proposedDir w k d -> record_inv d /\ isDeleted d = false.
Proof.
  intros (rel & _ & _ & _ & Hne & Hnew & Hdel & _). split; [|exact Hdel].
  unfold record_inv. rewrite Hnew, Hdel. split; [exact Hne|]. split.
  - split.
    + intros He. apply String.eqb_eq in He. split; congruence.
    + intros [He _]. now apply String.eqb_eq.
  - intros [_ Hf]. discriminate.
Qed.

(** C6 (amended). A record exists only when [before] and [after] differ;
    [isNew] holds iff [before] is empty and [after] is not; [isNew] and
    [isDeleted] are never both true.  For the records of [computeDiffs],
    [isDeleted] holds iff [before] is non-empty and [after] is empty; the
    records that [loadProposedChanges] makes always have [isDeleted]
    false. *)
Theorem records_classified (changedPaths : option (list path))
  (proposedDir : path) (w : world) (k : path) (d : FileDiff) :
  (map_get k (diffs (dm (final (computeDiffs changedPaths w)))) = Some d ->
   record_inv d /\ deleted_inv d) /\
  (map_get k (diffs (dm (final (loadProposedChanges proposedDir w)))) = Some d ->
   map_get k (diffs (dm w)) = Some d \/
   (record_inv d /\ isDeleted d = false)).
Proof.
  split.
  - intros Hg. apply computeDiffs_records in Hg. destruct Hg as [_ Hd].
    apply diff_of_inv in Hd. tauto.
  - intros Hg. apply loadProposedChanges_records in Hg.
    destruct Hg as [Hold|Hst]; [now left|right].
    eapply staged_record_inv; eauto.
Qed.

(** C7 (amended). One call fires the notification at most once.
    [computeDiffs] fires iff it returns holding at least one record, and
    every record it holds is a pending record made by this call.
    [loadProposedChanges] fires iff the staging directory exists, the walk
    returns and the session then holds at least one record, made by this
    call or left by an earlier one. *)
Theorem changesReady_policy (changedPaths : option (list path))
  (proposedDir : path) (w : world) :
  (let o := computeDiffs changedPaths w in
   changesReady (dm (final o)) =
   changesReady (dm w) ++
     (if completed o && (0 <? List.length (diffs (dm (final o))))
      then [pending_of (final o)] else []) /\
   forall k d, map_get k (diffs (dm (final o))) = Some d ->
               status d = pending /\ diff_of w k = Some d) /\
  (let o := loadProposedChanges proposedDir w in
   changesReady (dm (final o)) =
   changesReady (dm w) ++
     (if fs_exists proposedDir (disk w) && completed o
         && (0 <? List.length (diffs (dm (final o))))
      then [pending_of (final o)] else [])).
Proof.
  split; simpl.
  - split.
    + rewrite computeDiffs_unfold.
      pose proof (computeDiffs_loop_same_base (paths_of changedPaths w)
                    (with_diffs [] w)) as Hb.
      destruct (for_each _ _ _) as [[] w1|e w1]; simpl in *.
      * destruct Hb as (_ & _ & _ & _ & _ & _ & Hcr). simpl in Hcr.
        rewrite notify_same_diffs. unfold notify, pending_of.
        destruct (0 <? List.length (diffs (dm w1))); simpl;
          rewrite Hcr; [reflexivity | now rewrite app_nil_r].
      * destruct Hb as (_ & _ & _ & _ & _ & _ & Hcr). simpl in Hcr.
        now rewrite Hcr, app_nil_r.
    + intros k d Hg. apply computeDiffs_records in Hg. destruct Hg as [_ Hd].
      split; [|exact Hd]. apply diff_of_inv in Hd. tauto.
  - rewrite loadProposedChanges_unfold.
    destruct (fs_exists proposedDir (disk w)); cbn [andb];
      [|simpl; now rewrite app_nil_r].
    pose proof (walk_sound proposedDir w (S (height (disk w))) []) as [Hb _].
    rewrite app_nil_r in Hb.
    destruct (walk _ _ _ _ w) as [[] w1|e w1];
      cbn [final completed andb] in *.
    + destruct Hb as (_ & _ & _ & _ & _ & _ & Hcr).
      rewrite notify_same_diffs. unfold notify, pending_of.
      destruct (0 <? List.length (diffs (dm w1))); simpl;
        rewrite Hcr; [reflexivity | now rewrite app_nil_r].
    + destruct Hb as (_ & _ & _ & _ & _ & _ & Hcr).
      now rewrite Hcr, app_nil_r.
Qed.

(** C8. For every staged file, [loadProposedChanges] reads the content of
    the corresponding real file as [before] (empty when there is no such
    file) and the staged content as [after]; when they differ it stores a
    pending record, and every record it makes has [isDeleted] false. *)
Theorem loadProposedChanges_records_staged_files (proposedDir : path)
  (w : world) :
  let o := loadProposedChanges proposedDir w in
  let root := resolve_root (workspaceFolder w) w in
  (forall k d, map_get k (diffs (dm (final o))) = Some d ->
     map_get k (diffs (dm w)) = Some d \/
     exists rel,
       k = root ++ rel /\
       file_at (proposedDir ++ rel) (disk w) = Some (after d) /\
       before d = content_or_empty k (disk w) /\
       isDeleted d = false /\ status d = pending) /\
  (completed o = true ->
   forall rel staged,
     file_at (proposedDir ++ rel) (disk w) = Some staged ->
     content_or_empty (root ++ rel) (disk w) <> staged ->
     exists d,
       map_get (root ++ rel) (diffs (dm (final o))) = Some d /\
       before d = content_or_empty (root ++ rel) (disk w) /\
       after d = staged /\ isDeleted d = false /\ status d = pending) /\
  (forall e w', o = Threw e w' -> e <> RangeError).
Proof.
  simpl. repeat split.
  - intros k d Hg. apply loadProposedChanges_records in Hg.
    destruct Hg as [Hold|(rel & H1 & H2 & H3 & _ & _ & H6 & H7 & _)];
      [now left|right].
    exists rel. repeat split; try assumption.
  - intros Hc rel staged Hfa Hdiff.
    destruct (loadProposedChanges proposedDir w) as [[] w'|e w'] eqn:Erun;
      [|discriminate].
    pose proof (loadProposedChanges_complete proposedDir w w' rel staged
                  Erun Hfa Hdiff) as Hg.
    eexists. split; [exact Hg|]. simpl. auto.
  - intros e w'. apply loadProposedChanges_fuel.
Qed.


(** C10. For a pending record with [isNew] true whose path does not exist
    on disk, [rejectFile] raises and changes nothing, so the record stays
    pending.  That is the case of the record [loadProposedChanges] makes
    for a staged file that has no real counterpart. *)
Theorem rejectFile_new_missing_raises :
  (forall p d w,
     map_get p (diffs (dm w)) = Some d ->
     isNew d = true -> status d = pending ->
     fs_exists p (disk w) = false ->
     exists e, rejectFile p w = Threw e w /\
               forall d', map_get p (diffs (dm (final (rejectFile p w)))) = Some d' ->
                          status d' = pending) /\
  (forall proposedDir w w' rel after,
     loadProposedChanges proposedDir w = Done tt w' ->
     file_at (proposedDir ++ rel) (disk w) = Some after ->
     after <> ""%string ->
     fs_exists (resolve_root (workspaceFolder w) w ++ rel) (disk w) = false ->
     exists d e,
       map_get (resolve_root (workspaceFolder w) w ++ rel) (diffs (dm w')) = Some d /\
       isNew d = true /\ status d = pending /\
       rejectFile (resolve_root (workspaceFolder w) w ++ rel) w' = Threw e w').
Proof.
  assert (Hraise : forall p d w,
             map_get p (diffs (dm w)) = Some d -> isNew d = true ->
             fs_exists p (disk w) = false ->
             exists e, rejectFile p w = Threw e w).
  { intros p d w Hg Hn Hex. rewrite rejectFile_unfold, Hg.
    unfold restore. rewrite Hn. unfold fs_exists in Hex.
    destruct (lookup p (disk w)) eqn:El; [discriminate|].
    destruct (unlink_missing_fails p (disk w) El) as [e He].
    rewrite He. eauto. }
  split.
  - intros p d w Hg Hn Hs Hex. destruct (Hraise p d w Hg Hn Hex) as [e He].
    exists e. split; [exact He|]. rewrite He. simpl. intros d' Hd'. congruence.
  - intros proposedDir w w' rel after Hrun Hfa Hne Hex.
    set (k := resolve_root (workspaceFolder w) w ++ rel) in *.
    assert (Hempty : content_or_empty k (disk w) = ""%string).
    { unfold content_or_empty, file_at. unfold fs_exists in Hex.
      now destruct (lookup k (disk w)). }
    assert (Hdiff : content_or_empty k (disk w) <> after) by congruence.
    pose proof (loadProposedChanges_complete proposedDir w w' rel after
                  Hrun Hfa Hdiff) as Hg.
    fold k in Hg. rewrite Hempty in Hg.
    assert (Hex' : fs_exists k (disk w') = false).
    { destruct (loadProposedChanges_same_base_but_events proposedDir w) as [Hd _].
      rewrite Hrun in Hd. simpl in Hd. now rewrite Hd. }
    destruct (Hraise k _ w' Hg eq_refl Hex') as [e He].
    eexists. exists e. repeat split; [exact Hg| | |exact He]; reflexivity.
Qed.

(** ** The watcher *)

Lemma only_snapshots_refl w : only_snapshots w w.
Proof. repeat split. Qed.

Lemma only_snapshots_trans w1 w2 w3 :
  only_snapshots w1 w2 -> only_snapshots w2 w3 -> only_snapshots w1 w3.
Proof.
  unfold only_snapshots. intros (?&?&?&?&?&?&?) (?&?&?&?&?&?&?).
  repeat split; congruence.
Qed.

Lemma snapshotDirectory_S fuel dir w :
  snapshotDirectory (S fuel) dir w =
  match fs_readdir dir (disk w) with
  | Ok entries => for_each entries (snapshot_entry fuel dir) w
  | Err e => Threw e w
  end.
Proof.
  change (snapshotDirectory (S fuel) dir)
    with (entries <- readdirSync dir ;;
          for_each entries (snapshot_entry fuel dir)).
  unfold bind, readdirSync, lift_fs.
  now destruct (fs_readdir dir (disk w)).
Qed.

Lemma snapshotDirectory_only_snapshots fuel :
  forall dir w, only_snapshots w (final (snapshotDirectory fuel dir w)).
Proof.
  induction fuel as [|fuel IH]; intros dir w;
    [apply only_snapshots_refl|].
  rewrite snapshotDirectory_S. unfold snapshot_entry.
  destruct (fs_readdir dir (disk w)) as [entries|e];
    [|apply only_snapshots_refl].
  apply (for_each_inv (only_snapshots w)); [|apply only_snapshots_refl].
  intros entry w' _ Hw'. eapply only_snapshots_trans; [exact Hw'|].
  destruct (set_has ignore (name entry)); [apply only_snapshots_refl|].
  destruct (isDirectory entry); [apply IH|].
  destruct (isFile entry && isTextFile (path_join dir (name entry)));
    [|apply only_snapshots_refl].
  unfold bind, readFileSync, lift_fs.
  destruct (fs_read _ (disk w')); simpl; repeat split.
Qed.

Lemma snapshotWorkspace_only_snapshots w :
  only_snapshots w (final (snapshotWorkspace w)).
Proof.
  unfold snapshotWorkspace, bind, workspaceRoot, gets.
  destruct (workspaceFolder w); [|apply only_snapshots_refl].
  apply snapshotDirectory_only_snapshots.
Qed.

Lemma chokidar_emit_closed ev fp w :
  watcher_closed (cw w) -> chokidar_emit ev fp w = Done tt w.
Proof.
  unfold watcher_closed, chokidar_emit, modify, handles.
  destruct (fsWatcher (cw w)) as [f|]; [|reflexivity].
  now intros ->.
Qed.

Lemma deliver_closed evs w :
  watcher_closed (cw w) -> deliver evs w = Done tt w.
Proof.
  intros Hc. unfold deliver. induction evs as [|e evs IH]; [reflexivity|].
  simpl. unfold bind. now rewrite chokidar_emit_closed.
Qed.

Lemma onClaudeStarted_ask root w :
  currentMode w = ask ->
  let w' := final (onClaudeStarted root w) in
  currentMode w' = ask /\
  fsWatcher (cw w') = fsWatcher (cw w) /\
  changedFiles (cw w') = [] /\
  isClaudeActive (cw w') = true /\
  diffs (dm w') = diffs (dm w) /\
  changesReady (dm w') = changesReady (dm w).
Proof.
  intros Hm. unfold onClaudeStarted, bind, modify, gets. simpl.
  rewrite Hm.
  match goal with |- context [snapshotWorkspace ?w1] =>
    destruct (snapshotWorkspace_only_snapshots w1)
      as (_ & _ & _ & H4 & H5 & H6 & H7)
  end.
  rewrite H4, H5, H6, H7. simpl. repeat split; auto.
Qed.

Lemma onClaudeFinished_not_propose root proposedDir w :
  currentMode w <> propose ->
  onClaudeFinished root proposedDir w =
  match computeDiffs (Some (changedFiles (cw w)))
          (with_cw (set_fsWatcher (option_map close (fsWatcher (cw w)))
                      (set_isClaudeActive false (cw w))) w) with
  | Done _ w' => Done tt w'
  | Threw e w' => Threw e w'
  end.
Proof.
  intros Hm. unfold onClaudeFinished, bind, modify, gets, fsWatcher_close, ret.
  simpl. destruct (currentMode w); [reflexivity | congruence | reflexivity].
Qed.

(** C1 (as the code has it). A session that starts in [ask] mode opens no
    watcher, so no path is ever added to [changedFiles]; when the agent
    finishes, [computeDiffs] is called with that empty list and not with
    the snapshotted paths: whatever the agent did to the disk, the session
    ends with no record and no notification. *)
Theorem ask_session_yields_no_record (root proposedDir : path) (w : world)
  (evs : list (FsEvent * path)) (edited : node) :
  currentMode w = ask ->
  watcher_closed (cw w) ->
  let started := final (onClaudeStarted root w) in
  let worked := with_disk edited (final (deliver evs started)) in
  let o := onClaudeFinished root proposedDir worked in
  changedFiles (cw worked) = [] /\
  o = Done tt (final o) /\
  diffs (dm (final o)) = [] /\
  changesReady (dm (final o)) = changesReady (dm w).
Proof.
  intros Hm Hc. simpl.
  destruct (onClaudeStarted_ask root w Hm) as (H1 & H2 & H3 & _ & _ & H6).
  assert (Hc' : watcher_closed (cw (final (onClaudeStarted root w)))).
  { unfold watcher_closed. now rewrite H2. }
  rewrite (deliver_closed evs _ Hc'). simpl.
  rewrite onClaudeFinished_not_propose by (simpl; congruence).
  simpl. rewrite H3. rewrite computeDiffs_unfold. simpl.
  unfold notify. simpl. auto.
Qed.

(** *** The recursion of [snapshotDirectory] never exhausts the stack *)

Lemma snapshotDirectory_fuel fuel :
  forall dir w0 w n e w1,
    only_snapshots w0 w ->
    lookup dir (disk w0) = Some n ->
    height n < fuel ->
    snapshotDirectory fuel dir w = Threw e w1 ->
    e <> RangeError.
Proof.
  induction fuel as [|fuel IH]; intros dir w0 w n e w1 Hb Hl Hh Hrun; [lia|].
  assert (Hdisk : disk w = disk w0)
    by (destruct Hb as [Hr _]; unfold disk; now rewrite Hr).
  rewrite snapshotDirectory_S in Hrun. unfold fs_readdir in Hrun.
  rewrite Hdisk, Hl in Hrun.
  destruct n as [c|es]; [inversion Hrun; discriminate|].
  apply (for_each_threw (only_snapshots w0)) in Hrun; [| |exact Hb].
  - destruct Hrun as (entry & w' & Hin & Hb' & Hthrow).
    apply in_map_iff in Hin. destruct Hin as ([x child] & <- & Hin).
    assert (Hkey : In x (map_keys es)).
    { change x with (fst (x, child)). unfold map_keys. now apply in_map. }
    destruct (map_get_of_key x es Hkey) as [c1 Hc1].
    assert (Hname : name (dirent_of (x, child)) = x)
      by (unfold dirent_of; simpl; now destruct child).
    unfold snapshot_entry in Hthrow. rewrite Hname in Hthrow.
    destruct (set_has ignore x); [discriminate|].
    destruct (isDirectory (dirent_of (x, child))).
    + apply (IH (path_join dir x) w0 w' c1 e w1 Hb'); [| |exact Hthrow].
      * unfold path_join. rewrite lookup_app, Hl. simpl. now rewrite Hc1.
      * pose proof (height_child _ _ _ Hc1). lia.
    + destruct (isFile (dirent_of (x, child)) && isTextFile (path_join dir x));
        [|discriminate].
      unfold bind, readFileSync, lift_fs, fs_read in Hthrow.
      destruct (lookup (path_join dir x) (disk w')) as [[?|?]|];
        inversion Hthrow; discriminate.
  - intros entry w' _ Hw'. eapply only_snapshots_trans; [exact Hw'|].
    unfold snapshot_entry.
    destruct (set_has ignore (name entry)); [apply only_snapshots_refl|].
    destruct (isDirectory entry); [apply snapshotDirectory_only_snapshots|].
    destruct (isFile entry && isTextFile (path_join dir (name entry)));
      [|apply only_snapshots_refl].
    unfold bind, readFileSync, lift_fs.
    destruct (fs_read _ (disk w')); simpl; repeat split.
Qed.

Lemma snapshotWorkspace_fuel w e w1 :
  snapshotWorkspace w = Threw e w1 -> e <> RangeError.
Proof.
  unfold snapshotWorkspace, bind, workspaceRoot, gets.
  destruct (workspaceFolder w) as [root|]; [|discriminate].
  intros Hrun.
  destruct (lookup root (disk w)) as [n|] eqn:El.
  - apply (snapshotDirectory_fuel (S (height (disk w))) root w w n e w1
             (only_snapshots_refl w) El); [|exact Hrun].
    pose proof (height_lookup _ _ _ El). lia.
  - rewrite snapshotDirectory_S in Hrun. unfold fs_readdir in Hrun.
    rewrite El in Hrun. inversion Hrun. discriminate.
Qed.

(** Called without a list, [computeDiffs] covers every snapshotted path:
    a call that returns holds a pending record for each snapshotted file
    whose content on disk is not the snapshot. *)
Lemma computeDiffs_default_covers_snapshots w p c :
  completed (computeDiffs None w) = true ->
  map_get p (snapshots (dm w)) = Some c ->
  content_or_empty p (disk w) <> c ->
  exists d, map_get p (diffs (dm (final (computeDiffs None w)))) = Some d /\
            status d = pending /\ before d = c /\
            after d = content_or_empty p (disk w).
Proof.
  intros Hc Hs Hne.
  rewrite computeDiffs_completed in Hc. rewrite computeDiffs_final_diffs.
  unfold paths_of in *.
  assert (Hin : In p (map_keys (snapshots (dm w))))
    by (eapply map_get_Some_key; eauto).
  destruct (computeDiffs_loop_get (map_keys (snapshots (dm w)))
              (with_diffs [] w) (with_diffs [] w)
              (same_base_refl _) p) as [_ H2].
  rewrite (H2 Hc Hin).
  rewrite (diff_of_same_base w (with_diffs [] w) p
             (same_base_with_diffs w w [] (same_base_refl w))).
  destruct (diff_of w p) as [d|] eqn:Ed.
  - exists d. split; [reflexivity|].
    destruct (diff_of_inv w p d Ed) as (_ & _ & Hp & _ & Hb & Ha).
    unfold snapshot_or_empty in Hb. rewrite Hs in Hb. auto.
  - exfalso. unfold diff_of, snapshot_or_empty in Ed. rewrite Hs in Ed.
    destruct (String.eqb_spec c (content_or_empty p (disk w)));
      [congruence | discriminate].
Qed.

(** *** The polling tick and the reachable states *)

(** What a tick does when the marker is read as [st]. *)
Lemma poll_dispatch parse root w content st :
  active (cw w) = true ->
  file_at (activity_file root) (disk w) = Some content ->
  parse content = Some st ->
  poll parse root w =
  Done tt
    (final
       (if String.eqb st "running" && negb (isClaudeActive (cw w))
        then onClaudeStarted root w
        else if String.eqb st "idle" && isClaudeActive (cw w)
             then onClaudeFinished root (proposed_of root) w
             else Done tt w)).
Proof.
  intros Ha Hf Hp. unfold file_at, activity_file in Hf.
  cbv beta iota delta [poll bind gets existsSync fs_exists try_catch
    readFileSync lift_fs fs_read ret throw].
  rewrite Ha. cbn [negb].
  destruct (lookup (root ++ [".claude"; "activity.json"]%string) (disk w))
    as [[c|?]|] eqn:El; try discriminate.
  inversion Hf; subst content. cbn [negb]. cbv beta iota.
  rewrite ?El. cbv beta iota. rewrite Hp.
  destruct (String.eqb st "running" && negb (isClaudeActive (cw w)));
    [reflexivity|].
  destruct (String.eqb st "idle" && isClaudeActive (cw w)); reflexivity.
Qed.

(** A marker that does not parse triggers no transition. *)
Lemma poll_malformed parse root w content :
  file_at (activity_file root) (disk w) = Some content ->
  parse content = None ->
  poll parse root w = Done tt w.
Proof.
  intros Hf Hp. unfold file_at, activity_file in Hf.
  cbv beta iota delta [poll bind gets existsSync fs_exists try_catch
    readFileSync lift_fs fs_read ret throw].
  destruct (active (cw w)); [|reflexivity]. cbn [negb].
  destruct (lookup (root ++ [".claude"; "activity.json"]%string) (disk w))
    as [[c|?]|] eqn:El; try discriminate.
  inversion Hf; subst content. cbn [negb]. cbv beta iota.
  rewrite ?El. cbv beta iota. now rewrite Hp.
Qed.

Lemma onClaudeStarted_busy root w :
  isClaudeActive (cw (final (onClaudeStarted root w))) = true.
Proof.
  unfold onClaudeStarted, bind, modify, gets. simpl.
  destruct (currentMode w); try reflexivity;
    match goal with |- context [snapshotWorkspace ?w1] =>
      pose proof (snapshotWorkspace_only_snapshots w1)
        as (_ & _ & _ & _ & H5 & _);
      destruct (snapshotWorkspace w1) as [[] w2|e w2]
    end; simpl in *; now rewrite H5.
Qed.

Lemma loadProposedChanges_same_cw proposedDir w :
  cw (final (loadProposedChanges proposedDir w)) = cw w.
Proof.
  rewrite loadProposedChanges_unfold.
  destruct (fs_exists proposedDir (disk w)); [|reflexivity].
  pose proof (walk_sound proposedDir w (S (height (disk w))) []) as [Hb _].
  rewrite app_nil_r in Hb. destruct Hb as (_ & _ & _ & _ & Hcw & _).
  destruct (walk _ _ _ _ w) as [[] w1|e w1]; simpl in *; [|exact Hcw].
  unfold notify. now destruct (0 <? _).
Qed.

Lemma computeDiffs_same_cw changedPaths w :
  cw (final (computeDiffs changedPaths w)) = cw w.
Proof.
  rewrite computeDiffs_unfold.
  pose proof (computeDiffs_loop_same_base (paths_of changedPaths w)
                (with_diffs [] w)) as (_ & _ & _ & _ & Hcw & _).
  destruct (for_each _ _ _) as [[] w1|e w1]; simpl in *; [|exact Hcw].
  unfold notify. now destruct (0 <? _).
Qed.

Lemma onClaudeFinished_closed root proposedDir w :
  watcher_closed (cw (final (onClaudeFinished root proposedDir w))).
Proof.
  unfold onClaudeFinished, bind, modify, gets, fsWatcher_close. simpl.
  destruct (currentMode w).
  - match goal with |- context [computeDiffs ?a ?b] =>
      pose proof (computeDiffs_same_cw a b) as Hcw;
      destruct (computeDiffs a b)
    end; simpl in *; rewrite Hcw; unfold watcher_closed; simpl;
      now destruct (fsWatcher (cw w)).
  - rewrite loadProposedChanges_same_cw. unfold watcher_closed; simpl.
    now destruct (fsWatcher (cw w)).
  - match goal with |- context [computeDiffs ?a ?b] =>
      pose proof (computeDiffs_same_cw a b) as Hcw;
      destruct (computeDiffs a b)
    end; simpl in *; rewrite Hcw; unfold watcher_closed; simpl;
      now destruct (fsWatcher (cw w)).
Qed.

Lemma poll_idle_closed parse root w :
  idle_closed w -> idle_closed (final (poll parse root w)).
Proof.
  intros Hw.
  cbv beta iota delta [poll bind gets existsSync fs_exists try_catch
    readFileSync lift_fs fs_read ret throw].
  destruct (active (cw w)); [|exact Hw]. cbn [negb].
  destruct (lookup (root ++ [".claude"; "activity.json"]%string) (disk w))
    as [[content|?]|] eqn:El; cbn [negb]; cbv beta iota;
    rewrite ?El; cbv beta iota; try exact Hw.
  destruct (parse content) as [st|]; [|exact Hw].
  destruct (String.eqb st "running" && negb (isClaudeActive (cw w))).
  - intros Hidle. cbn [final] in Hidle.
    rewrite onClaudeStarted_busy in Hidle. discriminate.
  - destruct (String.eqb st "idle" && isClaudeActive (cw w)); [|exact Hw].
    intros _. apply onClaudeFinished_closed.
Qed.

Lemma acceptFile_same_cw p w : cw (final (acceptFile p w)) = cw w.
Proof.
  rewrite acceptFile_unfold. now destruct (map_get p (diffs (dm w))).
Qed.

Lemma rejectFile_same_cw p w : cw (final (rejectFile p w)) = cw w.
Proof.
  rewrite rejectFile_unfold. destruct (map_get p (diffs (dm w))) as [d|];
    [|reflexivity].
  now destruct (restore p d (disk w)).
Qed.

Lemma bulk_same_cw (op : path -> M unit) :
  (forall p w, cw (final (op p w)) = cw w) ->
  forall ks w, cw (final (for_each ks (bulk_step op) w)) = cw w.
Proof.
  intros Hop ks w.
  apply (for_each_inv (fun w' => cw w' = cw w)); [|reflexivity].
  intros k w' _ Hw'. rewrite <- Hw'.
  unfold bulk_step, bind, diffs_get, gets.
  destruct (map_get k (diffs (dm w'))) as [d|]; [|reflexivity].
  destruct (Status_eqb (status d) pending); [apply Hop | reflexivity].
Qed.

Lemma react_idle_closed parse root ev w :
  idle_closed w -> idle_closed (final (react parse root ev w)).
Proof.
  intros Hw. destruct ev; simpl.
  - now apply poll_idle_closed.
  - unfold chokidar_emit, modify. simpl.
    destruct (fsWatcher (cw w)) as [f|] eqn:Ef; [|exact Hw].
    destruct (handles ev f); [|exact Hw].
    unfold idle_closed, watcher_closed in *. simpl. rewrite Ef in *.
    exact Hw.
  - exact Hw.
  - exact Hw.
  - unfold idle_closed. now rewrite acceptFile_same_cw.
  - unfold idle_closed. now rewrite rejectFile_same_cw.
  - unfold idle_closed. rewrite acceptAll_unfold.
    now rewrite (bulk_same_cw acceptFile acceptFile_same_cw).
  - unfold idle_closed. rewrite rejectAll_unfold.
    now rewrite (bulk_same_cw rejectFile rejectFile_same_cw).
  - unfold start, bind, gets, modify.
    destruct (active (cw w)); exact Hw.
  - intros _. unfold watcher_closed. simpl.
    now destruct (fsWatcher (cw w)).
Qed.

(** In every state the extension reaches, no watcher is open between two
    agent runs. *)
Lemma run_idle_closed parse root evs :
  forall w, idle_closed w -> idle_closed (run parse root evs w).
Proof.
  induction evs as [|ev evs IH]; intros w Hw; [exact Hw|].
  simpl. apply IH. now apply react_idle_closed.
Qed.

(** * Part II, continued: the rest of [DiffManager] *)

(** ** [snapshotFiles] *)

Lemma snapshotFiles_unfold paths :
  snapshotFiles paths = for_each paths snapshot_path.
Proof. reflexivity. Qed.

Lemma snapshot_path_spec fp w :
  snapshot_path fp w =
  match lookup fp (disk w) with
  | Some (Dir _) => Threw EISDIR w
  | _ => Done tt (with_snapshots
                    (map_set fp (content_or_empty fp (disk w))
                       (snapshots (dm w))) w)
  end.
Proof.
  cbv beta iota delta [snapshot_path bind existsSync gets fs_exists
    readFileSync lift_fs fs_read snapshots_set modify content_or_empty file_at].
  destruct (lookup fp (disk w)) as [[c|es]|] eqn:El; cbv beta iota;
    rewrite ?El; reflexivity.
Qed.

Lemma only_snapshots_disk w w' : only_snapshots w w' -> disk w' = disk w.
Proof. intros [H _]. unfold disk. now rewrite H. Qed.

Lemma snapshot_path_only_snapshots fp w :
  only_snapshots w (final (snapshot_path fp w)).
Proof.
  rewrite snapshot_path_spec.
  destruct (lookup fp (disk w)) as [[c|es]|]; simpl; repeat split.
Qed.

Lemma snapshotFiles_only_snapshots paths w :
  only_snapshots w (final (for_each paths snapshot_path w)).
Proof.
  apply (for_each_inv (only_snapshots w)); [|apply only_snapshots_refl].
  intros fp w' _ Hw'. eapply only_snapshots_trans; [exact Hw'|].
  apply snapshot_path_only_snapshots.
Qed.

(** One step of the loop, by cases on what [fp] is on disk. *)
Lemma snapshot_path_cases fp w :
  (is_dir fp (disk w) = true /\ snapshot_path fp w = Threw EISDIR w) \/
  (is_dir fp (disk w) = false /\
   exists w1, snapshot_path fp w = Done tt w1 /\ only_snapshots w w1 /\
     forall q, map_get q (snapshots (dm w1)) =
               if path_eqb q fp then Some (content_or_empty fp (disk w))
               else map_get q (snapshots (dm w))).
Proof.
  rewrite snapshot_path_spec. unfold is_dir.
  destruct (lookup fp (disk w)) as [[c|es]|]; [right|left; auto|right];
    (split; [reflexivity|]); eexists; (split; [reflexivity|]);
    (split; [repeat split|]); intros q; simpl;
    (destruct (path_eqb_spec q fp) as [->|Hne];
     [apply map_get_set_same | now apply map_get_set_other]).
Qed.

Lemma snapshotFiles_loop paths :
  forall w0 w, only_snapshots w0 w ->
    (completed (for_each paths snapshot_path w) = true <->
     forall p, In p paths -> is_dir p (disk w0) = false) /\
    (forall p, ~ In p paths ->
       map_get p (snapshots (dm (final (for_each paths snapshot_path w)))) =
       map_get p (snapshots (dm w))) /\
    (completed (for_each paths snapshot_path w) = true ->
     forall p, In p paths ->
       map_get p (snapshots (dm (final (for_each paths snapshot_path w)))) =
       Some (content_or_empty p (disk w0))).
Proof.
  induction paths as [|fp paths IH]; intros w0 w Hb.
  - simpl. split; [|split].
    + split; [intros _ p []|reflexivity].
    + reflexivity.
    + intros _ p [].
  - pose proof (only_snapshots_disk w0 w Hb) as Hd.
    simpl. unfold bind.
    destruct (snapshot_path_cases fp w) as [[Hdir ->]|[Hdir (w1 & -> & Hb1 & Hget)]];
      rewrite Hd in *.
    + simpl. split; [|split].
      * split; [discriminate|]. intros Hall.
        rewrite (Hall fp (or_introl eq_refl)) in Hdir. discriminate.
      * reflexivity.
      * discriminate.
    + assert (Hb01 : only_snapshots w0 w1)
        by (eapply only_snapshots_trans; eauto).
      destruct (IH w0 w1 Hb01) as (H1 & H2 & H3).
      split; [|split].
      * rewrite H1. split.
        -- intros Hall p [<-|Hp]; [exact Hdir | now apply Hall].
        -- intros Hall p Hp. apply Hall. now right.
      * intros p Hn. rewrite H2 by (intros Hin; apply Hn; now right).
        rewrite Hget. destruct (path_eqb_spec p fp) as [->|Hne];
          [exfalso; apply Hn; now left | reflexivity].
      * intros Hc p [<-|Hin].
        -- destruct (in_dec (list_eq_dec string_dec) fp paths) as [Hi|Hi].
           ++ now apply H3.
           ++ rewrite (H2 fp Hi), Hget.
              now destruct (path_eqb_spec fp fp).
        -- now apply H3.
Qed.

(** X1. [snapshotFiles(paths)] returns unless one of the paths is a
    directory, which makes [readFileSync] raise.  When it returns, each
    path of [paths] is snapshotted with the content of its file, or with
    the empty string when there is no such file, overwriting an earlier
    snapshot; the snapshots of the other paths, the disk, the records and
    the watcher are as before. *)
Theorem snapshotFiles_captures (paths : list path) (w : world) :
  only_snapshots w (final (snapshotFiles paths w)) /\
  (completed (snapshotFiles paths w) = true <->
   forall p, In p paths -> is_dir p (disk w) = false) /\
  (forall p, ~ In p paths ->
     map_get p (snapshots (dm (final (snapshotFiles paths w)))) =
     map_get p (snapshots (dm w))) /\
  (completed (snapshotFiles paths w) = true ->
   forall p, In p paths ->
     map_get p (snapshots (dm (final (snapshotFiles paths w)))) =
     Some (content_or_empty p (disk w))).
Proof.
  rewrite snapshotFiles_unfold.
  split; [apply snapshotFiles_only_snapshots|].
  apply (snapshotFiles_loop paths w w (only_snapshots_refl w)).
Qed.

(** ** [snapshotWorkspace] *)

Lemma snapshot_entry_inv (P : world -> Prop) :
  (forall p c w, file_at p (disk w) = Some c -> P w ->
     P (with_snapshots (map_set p c (snapshots (dm w))) w)) ->
  forall fuel dir,
    (forall d w, P w -> P (final (snapshotDirectory fuel d w))) ->
    forall entry w, P w -> P (final (snapshot_entry fuel dir entry w)).
Proof.
  intros Hset fuel dir Hrec entry w Hw. unfold snapshot_entry.
  destruct (set_has ignore (name entry)); [exact Hw|].
  destruct (isDirectory entry); [now apply Hrec|].
  destruct (isFile entry && isTextFile (path_join dir (name entry)));
    [|exact Hw].
  unfold bind, readFileSync, lift_fs, fs_read.
  destruct (lookup (path_join dir (name entry)) (disk w)) as [[c|?]|] eqn:El;
    simpl; try exact Hw.
  apply Hset; [|exact Hw]. unfold file_at. now rewrite El.
Qed.

(** A property kept by each [snapshots.set] of a file's content is kept by
    the whole walk. *)
Lemma snapshotDirectory_inv (P : world -> Prop) :
  (forall p c w, file_at p (disk w) = Some c -> P w ->
     P (with_snapshots (map_set p c (snapshots (dm w))) w)) ->
  forall fuel dir w, P w -> P (final (snapshotDirectory fuel dir w)).
Proof.
  intros Hset. induction fuel as [|fuel IH]; intros dir w Hw; [exact Hw|].
  rewrite snapshotDirectory_S.
  destruct (fs_readdir dir (disk w)) as [entries|e]; [|exact Hw].
  apply for_each_inv; [|exact Hw].
  intros entry w' _. apply snapshot_entry_inv; auto.
Qed.

Lemma not_ignored_snoc r x :
  not_ignored r -> set_has ignore x = false -> not_ignored (r ++ [x]).
Proof.
  intros Hr Hx. unfold not_ignored. apply Forall_app. split; [exact Hr|].
  constructor; [exact Hx | constructor].
Qed.

(** The same, knowing where the file is: below [root], under names that
    are not ignored, with a whitelisted extension. *)
Lemma snapshotDirectory_inv_below (P : world -> Prop) (root : path) :
  (forall rel c w, not_ignored rel -> isTextFile (root ++ rel) = true ->
     file_at (root ++ rel) (disk w) = Some c -> P w ->
     P (with_snapshots (map_set (root ++ rel) c (snapshots (dm w))) w)) ->
  forall fuel r w, not_ignored r -> P w ->
    P (final (snapshotDirectory fuel (root ++ r) w)).
Proof.
  intros Hset. induction fuel as [|fuel IH]; intros r w Hr Hw; [exact Hw|].
  rewrite snapshotDirectory_S.
  destruct (fs_readdir (root ++ r) (disk w)) as [entries|e]; [|exact Hw].
  apply for_each_inv; [|exact Hw].
  intros entry w' _ Hw'. unfold snapshot_entry, path_join.
  rewrite <- app_assoc.
  destruct (set_has ignore (name entry)) eqn:Ei; [exact Hw'|].
  pose proof (not_ignored_snoc r (name entry) Hr Ei) as Hr'.
  destruct (isDirectory entry); [now apply IH|].
  destruct (isFile entry && isTextFile (root ++ r ++ [name entry])) eqn:Et;
    [|exact Hw'].
  apply andb_true_iff in Et. destruct Et as [_ Et].
  unfold bind, readFileSync, lift_fs, fs_read.
  destruct (lookup (root ++ r ++ [name entry]) (disk w')) as [[c|?]|] eqn:El;
    simpl; try exact Hw'.
  apply Hset; auto. unfold file_at. now rewrite El.
Qed.

Section SnapshotVisits.
Variable root : path.
Variable w0 : world.

(** The snapshot of the file at [p] is in place. *)
Definition snapshot_stored (p : path) (c : string) (w : world) : Prop :=
  only_snapshots w0 w /\ map_get p (snapshots (dm w)) = Some c.

Lemma snapshot_stored_set p c q c' w :
  file_at p (disk w0) = Some c ->
  file_at q (disk w) = Some c' ->
  snapshot_stored p c w ->
  snapshot_stored p c (with_snapshots (map_set q c' (snapshots (dm w))) w).
Proof.
  intros Hp Hq [Hb Hg]. split.
  - destruct Hb as (?&?&?&?&?&?&?). repeat split; assumption.
  - simpl. destruct (path_eqb_spec p q) as [<-|Hne].
    + rewrite map_get_set_same. rewrite (only_snapshots_disk w0 w Hb) in Hq.
      congruence.
    + now rewrite map_get_set_other.
Qed.

(** A walk that returns has snapshotted every whitelisted file below its
    directory that no ignored name hides. *)
Lemma snapshot_visits fuel :
  forall r w w1,
    only_snapshots w0 w ->
    snapshotDirectory fuel (root ++ r) w = Done tt w1 ->
    forall rel' c,
      rel' <> [] -> not_ignored rel' ->
      isTextFile (root ++ r ++ rel') = true ->
      file_at (root ++ r ++ rel') (disk w0) = Some c ->
      snapshot_stored (root ++ r ++ rel') c w1.
Proof.
  induction fuel as [|fuel IH]; intros r w w1 Hb Hrun rel' c Hne Hni Ht Hfa;
    [discriminate|].
  rewrite snapshotDirectory_S in Hrun. unfold fs_readdir in Hrun.
  rewrite (only_snapshots_disk w0 w Hb) in Hrun.
  destruct rel' as [|x rel'']; [congruence|].
  pose proof Hfa as Hfa'.
  unfold file_at in Hfa'. rewrite app_assoc, lookup_app in Hfa'.
  destruct (lookup (root ++ r) (disk w0)) as [[?|es]|] eqn:Edir;
    try discriminate.
  simpl in Hfa'. destruct (map_get x es) as [c1|] eqn:Ex; [|discriminate].
  destruct (map_get_split x es c1 Ex) as (es1 & es2 & ->).
  rewrite map_app, for_each_app in Hrun. simpl in Hrun.
  assert (Hkeep : forall entries wa,
             snapshot_stored (root ++ r ++ x :: rel'') c wa ->
             snapshot_stored (root ++ r ++ x :: rel'') c
               (final (for_each entries (snapshot_entry fuel (root ++ r)) wa))).
  { intros entries wa. apply for_each_inv. intros entry w' _.
    apply snapshot_entry_inv.
    - intros q c' w2 Hq. now apply snapshot_stored_set.
    - intros d w2. apply snapshotDirectory_inv.
      intros q c' w3 Hq. now apply snapshot_stored_set. }
  destruct (for_each (map dirent_of es1) _ w) as [[] wa|] eqn:Ea;
    [|discriminate].
  assert (Hba : only_snapshots w0 wa).
  { change wa with (final (Done tt wa : outcome unit)). rewrite <- Ea.
    apply (for_each_inv (only_snapshots w0)); [|exact Hb].
    intros entry w' _. apply snapshot_entry_inv.
    - intros q c' w2 _ (?&?&?&?&?&?&?). repeat split; assumption.
    - intros d w2 Hw2. eapply only_snapshots_trans; [exact Hw2|].
      apply snapshotDirectory_only_snapshots. }
  unfold bind in Hrun.
  destruct (snapshot_entry fuel (root ++ r) (dirent_of (x, c1)) wa)
    as [[] wb|] eqn:Eb; [|discriminate].
  assert (Hx : set_has ignore x = false) by (inversion Hni; assumption).
  assert (Hstored : snapshot_stored (root ++ r ++ x :: rel'') c wb).
  { assert (Hname : name (dirent_of (x, c1)) = x)
      by (unfold dirent_of; simpl; now destruct c1).
    unfold snapshot_entry, path_join in Eb.
    rewrite Hname, Hx, <- app_assoc in Eb.
    destruct c1 as [c1|es']; unfold dirent_of in Eb;
      cbn [snd isDirectory isFile andb] in Eb.
    - destruct rel'' as [|y rel'']; [|discriminate].
      inversion Hfa'; subst c1. rewrite Ht in Eb.
      unfold bind, readFileSync, lift_fs, fs_read in Eb.
      rewrite (only_snapshots_disk w0 wa Hba) in Eb.
      unfold file_at in Hfa.
      destruct (lookup (root ++ r ++ [x]) (disk w0)) as [[a|?]|];
        try discriminate.
      inversion Hfa; subst a. inversion Eb; subst wb. split.
      + destruct Hba as (?&?&?&?&?&?&?). repeat split; assumption.
      + simpl. apply map_get_set_same.
    - assert (Hr : r ++ x :: rel'' = (r ++ [x]) ++ rel'')
        by now rewrite <- app_assoc.
      rewrite Hr. apply (IH (r ++ [x]) wa wb Hba Eb rel'' c).
      + intros ->. discriminate.
      + inversion Hni; assumption.
      + now rewrite <- Hr.
      + now rewrite <- Hr. }
  change w1 with (final (Done tt w1 : outcome unit)). rewrite <- Hrun.
  now apply Hkeep.
Qed.
End SnapshotVisits.

(** X2. [snapshotWorkspace] changes nothing but the snapshots, and never
    removes one: a snapshot taken earlier stays, also when its file is
    gone.  With no workspace folder it does nothing.  Every snapshot it
    adds is the content of a file below the workspace root that has a
    whitelisted extension and no ignored name on its path; when it
    returns, every such file is snapshotted.  The recursion stays within
    its bound. *)
Theorem snapshotWorkspace_captures (w : world) :
  let o := snapshotWorkspace w in
  only_snapshots w (final o) /\
  (workspaceFolder w = None -> o = Done tt w) /\
  (forall p c, map_get p (snapshots (dm w)) = Some c ->
     exists c', map_get p (snapshots (dm (final o))) = Some c') /\
  (forall root, workspaceFolder w = Some root ->
     (forall p c, map_get p (snapshots (dm (final o))) = Some c ->
        map_get p (snapshots (dm w)) = Some c \/
        exists rel, p = root ++ rel /\ not_ignored rel /\
                    isTextFile p = true /\ file_at p (disk w) = Some c) /\
     (completed o = true ->
      forall rel c, rel <> [] -> not_ignored rel ->
        isTextFile (root ++ rel) = true ->
        file_at (root ++ rel) (disk w) = Some c ->
        map_get (root ++ rel) (snapshots (dm (final o))) = Some c)) /\
  (forall e w', o = Threw e w' -> e <> RangeError).
Proof.
  simpl. split; [apply snapshotWorkspace_only_snapshots|].
  split; [|split; [|split]].
  - intros Hn. unfold snapshotWorkspace, bind, workspaceRoot, gets.
    now rewrite Hn.
  - unfold snapshotWorkspace, bind, workspaceRoot, gets.
    destruct (workspaceFolder w) as [root|]; [|intros p c Hg; eauto].
    apply (snapshotDirectory_inv
             (fun w' => forall p c, map_get p (snapshots (dm w)) = Some c ->
                         exists c', map_get p (snapshots (dm w')) = Some c'));
      [|eauto].
    intros q c' w' _ Hw' p c Hg. simpl.
    destruct (path_eqb_spec p q) as [->|Hne].
    + rewrite map_get_set_same. eauto.
    + rewrite map_get_set_other by exact Hne. eauto.
  - intros root Hroot.
    unfold snapshotWorkspace, bind, workspaceRoot, gets. rewrite Hroot.
    split.
    + assert (Hinv :
        (fun w' => only_snapshots w w' /\
           forall p c, map_get p (snapshots (dm w')) = Some c ->
             map_get p (snapshots (dm w)) = Some c \/
             exists rel, p = root ++ rel /\ not_ignored rel /\
               isTextFile p = true /\ file_at p (disk w) = Some c)
          (final (snapshotDirectory (S (height (disk w))) (root ++ []) w))).
      { apply snapshotDirectory_inv_below;
          [| constructor | split; [apply only_snapshots_refl | auto]].
        intros rel c w' Hni Ht Hfa [Hb Hrec]. split.
        - destruct Hb as (?&?&?&?&?&?&?). repeat split; assumption.
        - intros p c0. simpl.
          destruct (path_eqb_spec p (root ++ rel)) as [->|Hne].
          + rewrite map_get_set_same. intros Hc; inversion Hc; subst c0.
            right. exists rel.
            rewrite (only_snapshots_disk w w' Hb) in Hfa. auto.
          + rewrite map_get_set_other by exact Hne. apply Hrec. }
      rewrite app_nil_r in Hinv. destruct Hinv as [_ Hrec]. exact Hrec.
    + intros Hc rel c Hne Hni Ht Hfa.
      destruct (snapshotDirectory (S (height (disk w))) root w)
        as [[] w1|] eqn:Erun; [|discriminate].
      pose proof (snapshot_visits root w (S (height (disk w))) [] w w1
                    (only_snapshots_refl w)) as Hv.
      rewrite app_nil_r in Hv.
      destruct (Hv Erun rel c Hne Hni Ht Hfa) as [_ Hg]. exact Hg.
  - intros e w'. apply snapshotWorkspace_fuel.
Qed.

(** ** [isTextFile] *)

Lemma lower_ascii_dot c :
  Ascii.eqb (lower_ascii c) "."%char = Ascii.eqb c "."%char.
Proof. destruct c as [[] [] [] [] [] [] [] []]; reflexivity. Qed.

Lemma lower_ascii_idem c : lower_ascii (lower_ascii c) = lower_ascii c.
Proof. destruct c as [[] [] [] [] [] [] [] []]; reflexivity. Qed.

Lemma toLowerCase_idem s : toLowerCase (toLowerCase s) = toLowerCase s.
Proof.
  induction s as [|c s IH]; simpl; [reflexivity|].
  now rewrite lower_ascii_idem, IH.
Qed.

Lemma toLowerCase_empty s :
  String.eqb (toLowerCase s) "" = String.eqb s "".
Proof. now destruct s. Qed.

Lemma toLowerCase_dotdot s :
  String.eqb (toLowerCase s) ".." = String.eqb s "..".
Proof.
  destruct s as [|c1 [|c2 [|c3 s]]]; simpl; try reflexivity;
    rewrite ?lower_ascii_dot; reflexivity.
Qed.

Lemma last_dot_lower s :
  last_dot (toLowerCase s) =
  match last_dot s with
  | Some (b, e) => Some (toLowerCase b, toLowerCase e)
  | None => None
  end.
Proof.
  induction s as [|c s IH]; simpl; [reflexivity|].
  rewrite IH. destruct (last_dot s) as [[b e]|]; [reflexivity|].
  rewrite lower_ascii_dot. now destruct (Ascii.eqb c ".").
Qed.

Lemma extname_lower s : extname (toLowerCase s) = toLowerCase (extname s).
Proof.
  unfold extname. rewrite last_dot_lower.
  destruct (last_dot s) as [[b e]|]; [|reflexivity].
  rewrite toLowerCase_empty, toLowerCase_dotdot.
  now destruct (String.eqb b "" || String.eqb s "..").
Qed.

Lemma basename_join dir x : basename (path_join dir x) = x.
Proof. unfold basename, path_join. apply last_last. Qed.

(** X3. [isTextFile] does not look at the case of the file name: a name and
    its lower-case form are both whitelisted or both not. *)
Theorem isTextFile_ignores_case (dir : path) (file : string) :
  isTextFile (path_join dir (toLowerCase file)) =
  isTextFile (path_join dir file).
Proof.
  unfold isTextFile. rewrite !basename_join, extname_lower.
  now rewrite toLowerCase_idem.
Qed.

(** X4. A file name with no dot after its first character has no
    extension for [path.extname], so it is not a text file.  That holds of
    [Makefile], and of dot files such as [.gitignore] and [.env], although
    ['.env'] is in the whitelist. *)
Theorem isTextFile_needs_inner_dot (dir : path) (c : ascii) (rest : string) :
  last_dot rest = None ->
  isTextFile (path_join dir (String c rest)) = false.
Proof.
  intros Hrest. unfold isTextFile, extname. rewrite basename_join.
  simpl last_dot. rewrite Hrest.
  destruct (Ascii.eqb c "."); reflexivity.
Qed.

(** ** More about maps *)

Section JsMapMore.
Context {K V : Type} `{EqKey K}.

Lemma map_keys_set (k : K) (v : V) (m : list (K * V)) :
  forall k', In k' (map_keys (map_set k v m)) <-> k' = k \/ In k' (map_keys m).
Proof.
  induction m as [|[k0 v0] m IH]; intros k'; simpl.
  - intuition.
  - destruct (keqb_spec k k0) as [->|Hne]; simpl.
    + intuition.
    + rewrite IH. intuition.
Qed.

Lemma map_set_NoDup (k : K) (v : V) (m : list (K * V)) :
  NoDup (map_keys m) -> NoDup (map_keys (map_set k v m)).
Proof.
  induction m as [|[k0 v0] m IH]; simpl; intros Hnd.
  - constructor; [intros []|constructor].
  - inversion Hnd as [|? ? Hnin Hnd']; subst.
    destruct (keqb_spec k k0) as [->|Hne]; simpl.
    + now constructor.
    + constructor; [|now apply IH].
      intros Hin. apply map_keys_set in Hin. destruct Hin as [->|Hin]; auto.
Qed.

Lemma map_get_of_In (k : K) (v : V) (m : list (K * V)) :
  NoDup (map_keys m) -> In (k, v) m -> map_get k m = Some v.
Proof.
  induction m as [|[k0 v0] m IH]; simpl; intros Hnd Hin; [contradiction|].
  inversion Hnd as [|? ? Hnin Hnd']; subst.
  destruct Hin as [Heq|Hin].
  - inversion Heq; subst. now rewrite keqb_refl.
  - destruct (keqb_spec k k0) as [->|Hne]; [|now apply IH].
    exfalso. apply Hnin. change k0 with (fst (k0, v)).
    unfold map_keys. now apply in_map.
Qed.

Lemma map_get_all_None (m : list (K * V)) :
  (forall k, map_get k m = None) -> m = [].
Proof.
  destruct m as [|[k0 v0] m]; [reflexivity|].
  intros Hall. specialize (Hall k0). simpl in Hall.
  rewrite keqb_refl in Hall. discriminate.
Qed.
End JsMapMore.

(** ** More about [computeDiffs] *)

Lemma computeDiffs_loop_NoDup paths w :
  NoDup (map_keys (diffs (dm w))) ->
  NoDup (map_keys (diffs (dm (final (for_each paths computeDiffs_path w))))).
Proof.
  apply (for_each_inv (fun w' => NoDup (map_keys (diffs (dm w'))))).
  intros fp w' _ Hnd. rewrite computeDiffs_path_spec.
  destruct (lookup fp (disk w')) as [[c|es]|]; simpl; auto;
    unfold store_diff; destruct (diff_of w' fp); simpl; auto;
    now apply map_set_NoDup.
Qed.

Lemma filter_all {A} (f : A -> bool) (l : list A) :
  (forall x, In x l -> f x = true) -> filter f l = l.
Proof.
  induction l as [|x l IH]; simpl; intros Hall; [reflexivity|].
  rewrite (Hall x (or_introl eq_refl)). f_equal. apply IH. auto.
Qed.

(** X5. Called without a list, [computeDiffs] goes over every snapshotted
    path.  When it returns, a snapshotted path whose content on disk is the
    snapshot has no record, and one whose content differs has a pending
    record with the snapshot as [before] and the content as [after] (empty
    when the file is gone); the record is marked new iff the snapshot was
    empty, and deleted iff the content now is. *)
Theorem computeDiffs_default_reports_every_change (w : world) (p : path)
  (c : string) :
  completed (computeDiffs None w) = true ->
  map_get p (snapshots (dm w)) = Some c ->
  (content_or_empty p (disk w) = c ->
   map_get p (diffs (dm (final (computeDiffs None w)))) = None) /\
  (content_or_empty p (disk w) <> c ->
   exists d,
     map_get p (diffs (dm (final (computeDiffs None w)))) = Some d /\
     status d = pending /\ before d = c /\
     after d = content_or_empty p (disk w) /\
     isNew d = String.eqb c "" /\
     isDeleted d = String.eqb (content_or_empty p (disk w)) "").
Proof.
  intros Hc Hs.
  rewrite computeDiffs_completed in Hc. rewrite computeDiffs_final_diffs.
  unfold paths_of in *.
  assert (Hin : In p (map_keys (snapshots (dm w))))
    by (eapply map_get_Some_key; eauto).
  destruct (computeDiffs_loop_get (map_keys (snapshots (dm w)))
              (with_diffs [] w) (with_diffs [] w)
              (same_base_refl _) p) as [_ H2].
  rewrite (H2 Hc Hin).
  rewrite (diff_of_same_base w (with_diffs [] w) p
             (same_base_with_diffs w w [] (same_base_refl w))).
  unfold diff_of, snapshot_or_empty. rewrite Hs.
  destruct (String.eqb_spec c (content_or_empty p (disk w))) as [Heq|Hne].
  - split; [reflexivity | congruence].
  - split; [congruence|]. intros _. eexists. split; [reflexivity|]. simpl.
    repeat split.
    + destruct (String.eqb_spec c ""); [|reflexivity].
      destruct (String.eqb_spec (content_or_empty p (disk w)) "");
        [congruence | reflexivity].
    + destruct (String.eqb_spec (content_or_empty p (disk w)) "");
        [|now rewrite andb_false_r].
      destruct (String.eqb_spec c ""); [congruence | reflexivity].
Qed.

(** X6. The list that [computeDiffs] returns is the whole session: every
    record it holds, in the order stored, all of them pending and stored
    under distinct paths.  That list is also the payload of the one
    notification, which is fired iff the list is not empty. *)
Theorem computeDiffs_returns_the_session (changedPaths : option (list path))
  (w : world) (res : list FileDiff) (w' : world) :
  computeDiffs changedPaths w = Done res w' ->
  res = map_values (diffs (dm w')) /\
  NoDup (map_keys (diffs (dm w'))) /\
  (forall d, In d res -> status d = pending /\ before d <> after d) /\
  changesReady (dm w') =
  changesReady (dm w) ++ match res with [] => [] | _ => [res] end.
Proof.
  intros Hrun.
  pose proof (computeDiffs_records changedPaths w) as Hrec.
  rewrite Hrun in Hrec. simpl in Hrec.
  rewrite computeDiffs_unfold in Hrun.
  pose proof (computeDiffs_loop_NoDup (paths_of changedPaths w)
                (with_diffs [] w)) as Hnd.
  pose proof (computeDiffs_loop_same_base (paths_of changedPaths w)
                (with_diffs [] w)) as Hb.
  destruct (for_each _ _ _) as [[] w1|e w1]; [|discriminate].
  inversion Hrun; subst res w'; clear Hrun. simpl in Hnd, Hb.
  specialize (Hnd (NoDup_nil _)).
  rewrite notify_same_diffs in *.
  assert (Hall : forall d, In d (map_values (diffs (dm w1))) ->
                           status d = pending /\ before d <> after d).
  { intros d Hin. unfold map_values in Hin. apply in_map_iff in Hin.
    destruct Hin as ([k d'] & Hd & Hin). simpl in Hd. subst d'.
    apply (map_get_of_In k d _ Hnd) in Hin.
    destruct (Hrec k d Hin) as [_ Hdiff].
    destruct (diff_of_inv w k d Hdiff) as ((Hne & _) & _ & Hp & _). auto. }
  assert (Hpend : pending_of w1 = map_values (diffs (dm w1))).
  { unfold pending_of. apply filter_all. intros d Hin.
    apply Status_eqb_pending. now apply Hall. }
  rewrite Hpend. split; [reflexivity|]. split; [exact Hnd|].
  split; [exact Hall|].
  destruct Hb as (_ & _ & _ & _ & _ & _ & Hcr). simpl in Hcr.
  unfold notify. rewrite Hpend.
  destruct (diffs (dm w1)) as [|[k d] l]; simpl.
  - now rewrite Hcr, app_nil_r.
  - now rewrite Hcr.
Qed.

Lemma diff_of_same_but_events wa wb fp :
  same_but_events wa wb -> diff_of wb fp = diff_of wa fp.
Proof.
  intros (Hd & Hf & Hc & _ & _ & Hs & _).
  unfold diff_of, snapshot_or_empty, resolve_root, disk.
  now rewrite Hd, Hf, Hc, Hs.
Qed.

(** The loop of [computeDiffs] does not look at the notifications. *)
Lemma computeDiffs_loop_events paths :
  forall wa wb, same_but_events wa wb ->
    completed (for_each paths computeDiffs_path wb) =
    completed (for_each paths computeDiffs_path wa) /\
    same_but_events (final (for_each paths computeDiffs_path wa))
                    (final (for_each paths computeDiffs_path wb)).
Proof.
  induction paths as [|fp paths IH]; intros wa wb Hr; simpl; [auto|].
  unfold bind. rewrite !computeDiffs_path_spec.
  assert (Hdisk : disk wb = disk wa)
    by (destruct Hr as [Hd _]; unfold disk; now rewrite Hd).
  rewrite Hdisk.
  assert (Hst : same_but_events (store_diff fp wa) (store_diff fp wb)).
  { unfold store_diff. rewrite (diff_of_same_but_events wa wb fp Hr).
    destruct (diff_of wa fp); [|exact Hr].
    destruct Hr as (?&?&?&?&?&?&Hdf). repeat split; try assumption.
    simpl. now rewrite Hdf. }
  destruct (lookup fp (disk wa)) as [[c|es]|]; simpl; auto.
Qed.

Lemma computeDiffs_changesReady changedPaths w :
  changesReady (dm (final (computeDiffs changedPaths w))) =
  changesReady (dm w) ++
    (if completed (computeDiffs changedPaths w)
        && (0 <? List.length (diffs (dm (final (computeDiffs changedPaths w)))))
     then [pending_of (final (computeDiffs changedPaths w))] else []).
Proof.
  rewrite computeDiffs_unfold.
  pose proof (computeDiffs_loop_same_base (paths_of changedPaths w)
                (with_diffs [] w)) as Hb.
  destruct (for_each _ _ _) as [[] w1|e w1]; simpl in *;
    destruct Hb as (_ & _ & _ & _ & _ & _ & Hcr); simpl in Hcr.
  - rewrite notify_same_diffs. unfold notify, pending_of.
    destruct (0 <? List.length (diffs (dm w1))); simpl;
      rewrite Hcr; [reflexivity | now rewrite app_nil_r].
  - now rewrite Hcr, app_nil_r.
Qed.

Lemma computeDiffs_same_snapshots changedPaths w :
  snapshots (dm (final (computeDiffs changedPaths w))) = snapshots (dm w).
Proof.
  rewrite computeDiffs_unfold.
  pose proof (computeDiffs_loop_same_base (paths_of changedPaths w)
                (with_diffs [] w)) as (_ & _ & _ & _ & _ & Hs & _).
  destruct (for_each _ _ _) as [[] w1|e w1]; simpl in *; [|exact Hs].
  now rewrite notify_same_snapshots.
Qed.

Lemma computeDiffs_same_but_diffs_events changedPaths w :
  same_but_events (with_diffs [] w)
    (with_diffs [] (final (computeDiffs changedPaths w))).
Proof.
  rewrite computeDiffs_unfold.
  pose proof (computeDiffs_loop_same_base (paths_of changedPaths w)
                (with_diffs [] w)) as (H1 & H2 & H3 & H4 & H5 & H6 & _).
  destruct (for_each _ _ _) as [[] w1|e w1]; simpl in *.
  - unfold notify. destruct (0 <? _); repeat split; assumption.
  - repeat split; assumption.
Qed.

(** X7. Running [computeDiffs] a second time on the same paths, with the
    disk as it was, gives the same outcome and the same records: the
    records a call makes depend on the snapshots and the disk only.  The
    second call fires the notification again when the session is not
    empty. *)
Theorem computeDiffs_idempotent (changedPaths : option (list path))
  (w : world) :
  let o1 := computeDiffs changedPaths w in
  let o2 := computeDiffs changedPaths (final o1) in
  completed o2 = completed o1 /\
  diffs (dm (final o2)) = diffs (dm (final o1)) /\
  changesReady (dm (final o2)) =
  changesReady (dm (final o1)) ++
    (if completed o1 && (0 <? List.length (diffs (dm (final o1))))
     then [pending_of (final o1)] else []).
Proof.
  simpl.
  assert (Hpaths : paths_of changedPaths (final (computeDiffs changedPaths w))
                   = paths_of changedPaths w).
  { unfold paths_of. destruct changedPaths; [reflexivity|].
    now rewrite computeDiffs_same_snapshots. }
  destruct (computeDiffs_loop_events (paths_of changedPaths w)
              (with_diffs [] w)
              (with_diffs [] (final (computeDiffs changedPaths w)))
              (computeDiffs_same_but_diffs_events changedPaths w))
    as [Hc Hr].
  assert (Hcompleted :
            completed (computeDiffs changedPaths
                         (final (computeDiffs changedPaths w))) =
            completed (computeDiffs changedPaths w)).
  { rewrite !computeDiffs_completed, Hpaths. exact Hc. }
  assert (Hdiffs :
            diffs (dm (final (computeDiffs changedPaths
                                (final (computeDiffs changedPaths w))))) =
            diffs (dm (final (computeDiffs changedPaths w)))).
  { rewrite !computeDiffs_final_diffs, Hpaths. apply Hr. }
  split; [exact Hcompleted|]. split; [exact Hdiffs|].
  rewrite computeDiffs_changesReady, Hcompleted, Hdiffs.
  unfold pending_of. now rewrite Hdiffs.
Qed.

Lemma map_get_of_key_path {V} (p : path) (m : list (path * V)) :
  In p (map_keys m) -> exists c, map_get p m = Some c.
Proof.
  intros Hin. destruct (map_get p m) as [c|] eqn:Eg; [eauto|].
  apply map_get_None in Eg. contradiction.
Qed.
(** ** Accepting, rejecting, and diffing again *)

Lemma computeDiffs_same_disk changedPaths w :
  disk (final (computeDiffs changedPaths w)) = disk w.
Proof.
  rewrite computeDiffs_unfold.
  pose proof (computeDiffs_loop_same_base (paths_of changedPaths w)
                (with_diffs [] w)) as Hb.
  apply same_base_disk in Hb.
  destruct (for_each _ _ _) as [[] w1|e w1]; simpl in *; [|exact Hb].
  now rewrite notify_same_disk.
Qed.

(** The loop of [computeDiffs] returns iff none of its paths is a
    directory. *)
Lemma computeDiffs_loop_completed paths :
  forall w0 w, same_base w0 w ->
    (completed (for_each paths computeDiffs_path w) = true <->
     forall p, In p paths -> is_dir p (disk w0) = false).
Proof.
  induction paths as [|fp paths IH]; intros w0 w Hb; simpl.
  - split; [intros _ p [] | reflexivity].
  - unfold bind. rewrite computeDiffs_path_spec.
    rewrite (same_base_disk w0 w Hb).
    assert (Hst : same_base w0 (store_diff fp w)).
    { unfold store_diff. destruct (diff_of w fp); [|exact Hb].
      apply same_base_with_diffs, Hb. }
    destruct (lookup fp (disk w0)) as [[c|es]|] eqn:El; simpl.
    + rewrite (IH w0 _ Hst). split.
      * intros Hall p [<-|Hp]; [unfold is_dir; now rewrite El | now apply Hall].
      * intros Hall p Hp. apply Hall. now right.
    + split; [discriminate|]. intros Hall.
      specialize (Hall fp (or_introl eq_refl)). unfold is_dir in Hall.
      rewrite El in Hall. discriminate.
    + rewrite (IH w0 _ Hst). split.
      * intros Hall p [<-|Hp]; [unfold is_dir; now rewrite El | now apply Hall].
      * intros Hall p Hp. apply Hall. now right.
Qed.

Lemma computeDiffs_completed_iff changedPaths w :
  completed (computeDiffs changedPaths w) = true <->
  forall p, In p (paths_of changedPaths w) -> is_dir p (disk w) = false.
Proof.
  rewrite computeDiffs_completed.
  apply (computeDiffs_loop_completed _ w (with_diffs [] w)).
  apply same_base_with_diffs, same_base_refl.
Qed.

(** A call whose paths all come without a change leaves an empty session
    and fires nothing. *)
Lemma computeDiffs_nothing_to_report changedPaths w :
  (forall p, In p (paths_of changedPaths w) -> diff_of w p = None) ->
  diffs (dm (final (computeDiffs changedPaths w))) = [] /\
  changesReady (dm (final (computeDiffs changedPaths w))) = changesReady (dm w).
Proof.
  intros Hnone.
  assert (Hd : diffs (dm (final (computeDiffs changedPaths w))) = []).
  { apply map_get_all_None. intros k.
    destruct (map_get k (diffs (dm (final (computeDiffs changedPaths w)))))
      as [d|] eqn:Eg; [|reflexivity].
    apply computeDiffs_records in Eg. destruct Eg as [Hin Hdiff].
    rewrite (Hnone k Hin) in Hdiff. discriminate. }
  split; [exact Hd|].
  rewrite computeDiffs_changesReady, Hd. simpl.
  rewrite andb_false_r. apply app_nil_r.
Qed.

Lemma computeDiffs_keys_ok changedPaths w :
  keys_ok (final (computeDiffs changedPaths w)).
Proof.
  intros k d Hg. apply computeDiffs_records in Hg. destruct Hg as [_ Hd].
  apply diff_of_inv in Hd. tauto.
Qed.

(** The snapshots after [acceptAll]: the [after] of each record that was
    pending, and the snapshot held before for every other path. *)
Lemma accept_loop_snapshots ks :
  forall w, keys_ok w ->
    forall p,
      map_get p (snapshots
                   (dm (final (for_each ks (bulk_step acceptFile) w)))) =
      match map_get p (diffs (dm w)) with
      | Some d =>
          if existsb (path_eqb p) ks && Status_eqb (status d) pending
          then Some (after d) else map_get p (snapshots (dm w))
      | None => map_get p (snapshots (dm w))
      end.
Proof.
  induction ks as [|k' ks IH]; intros w Hk p; simpl.
  - now destruct (map_get p (diffs (dm w))).
  - unfold bind.
    destruct (bulk_step_cases acceptFile k' w Hk)
      as [(d' & Hg & Hp & ->)|[Hnp ->]].
    + rewrite acceptFile_unfold, Hg.
      assert (Hk1 : keys_ok (accept_record k' d' w)).
      { eapply (keys_ok_set k' (with_status accepted d') w);
          [exact Hk | apply (Hk _ _ Hg) | reflexivity]. }
      cbn [final]. rewrite (IH _ Hk1 p). simpl.
      destruct (path_eqb_spec p k') as [->|Hne].
      * rewrite !map_get_set_same, Hg, Hp. simpl.
        now rewrite andb_false_r.
      * rewrite !map_get_set_other by exact Hne. reflexivity.
    + cbn [final]. rewrite (IH _ Hk p).
      destruct (map_get p (diffs (dm w))) as [d|] eqn:Eg; [|reflexivity].
      destruct (path_eqb_spec p k') as [->|Hne]; [|reflexivity].
      simpl. destruct (Status_eqb (status d) pending) eqn:Es;
        [|now rewrite !andb_false_r].
      apply Status_eqb_pending in Es. now destruct (Hnp d Eg).
Qed.

(** X8. Accepting moves the baseline: after a [computeDiffs] that
    returned, [acceptAll] sets the snapshot of every record's path to the
    record's [after], and the same [computeDiffs] run again on the
    unchanged disk returns with an empty session and fires no
    notification. *)
Theorem accept_then_rediff_is_empty (changedPaths : option (list path))
  (w : world) :
  completed (computeDiffs changedPaths w) = true ->
  let w1 := final (computeDiffs changedPaths w) in
  let w2 := final (acceptAll w1) in
  (forall p d, map_get p (diffs (dm w1)) = Some d ->
     map_get p (snapshots (dm w2)) = Some (after d)) /\
  completed (computeDiffs changedPaths w2) = true /\
  diffs (dm (final (computeDiffs changedPaths w2))) = [] /\
  changesReady (dm (final (computeDiffs changedPaths w2))) =
  changesReady (dm w2).
Proof.
  intros Hc. simpl.
  set (w1 := final (computeDiffs changedPaths w)).
  assert (Hk : keys_ok w1) by apply computeDiffs_keys_ok.
  pose proof (accept_loop (map_keys (diffs (dm w1))) w1 Hk)
    as (_ & _ & Hdisk2 & _).
  rewrite <- acceptAll_unfold in Hdisk2.
  pose proof (accept_loop_snapshots (map_keys (diffs (dm w1))) w1 Hk) as Hsnap.
  rewrite <- acceptAll_unfold in Hsnap.
  assert (Hdisk1 : disk w1 = disk w) by apply computeDiffs_same_disk.
  assert (Hsnap1 : snapshots (dm w1) = snapshots (dm w))
    by apply computeDiffs_same_snapshots.
  assert (Hrec : forall p d, map_get p (diffs (dm w1)) = Some d ->
                   map_get p (snapshots (dm (final (acceptAll w1)))) =
                   Some (after d)).
  { intros p d Hg. rewrite Hsnap, Hg.
    assert (Hin : existsb (path_eqb p) (map_keys (diffs (dm w1))) = true).
    { apply existsb_exists. exists p. split.
      - eapply map_get_Some_key; eauto.
      - now destruct (path_eqb_spec p p). }
    apply computeDiffs_records in Hg. destruct Hg as [_ Hd].
    apply diff_of_inv in Hd. destruct Hd as (_ & _ & Hp & _).
    now rewrite Hin, Hp. }
  assert (Hother : forall p, map_get p (diffs (dm w1)) = None ->
                     map_get p (snapshots (dm (final (acceptAll w1)))) =
                     map_get p (snapshots (dm w))).
  { intros p Hg. now rewrite Hsnap, Hg, Hsnap1. }
  assert (Hpaths : forall p,
             In p (paths_of changedPaths (final (acceptAll w1))) ->
             In p (paths_of changedPaths w)).
  { intros p. unfold paths_of. destruct changedPaths; [auto|].
    intros Hin. apply map_get_of_key_path in Hin. destruct Hin as [c Hc'].
    destruct (map_get p (diffs (dm w1))) as [d|] eqn:Eg.
    - apply computeDiffs_records in Eg. apply Eg.
    - rewrite (Hother p Eg) in Hc'. eapply map_get_Some_key; eauto. }
  assert (Hnone : forall p,
             In p (paths_of changedPaths (final (acceptAll w1))) ->
             diff_of (final (acceptAll w1)) p = None).
  { intros p Hin. apply Hpaths in Hin.
    assert (Hcont : content_or_empty p (disk (final (acceptAll w1))) =
                    content_or_empty p (disk w))
      by now rewrite Hdisk2, Hdisk1.
    unfold diff_of at 1. rewrite Hcont. unfold snapshot_or_empty.
    destruct (map_get p (diffs (dm w1))) as [d|] eqn:Eg.
    - rewrite (Hrec p d Eg).
      apply computeDiffs_records in Eg. destruct Eg as [_ Hd].
      apply diff_of_inv in Hd. destruct Hd as (_ & _ & _ & _ & _ & Ha).
      rewrite Ha. now rewrite String.eqb_refl.
    - rewrite (Hother p Eg).
      assert (Hd : diff_of w p = None).
      { rewrite <- Eg. symmetry. unfold w1.
        rewrite computeDiffs_final_diffs.
        rewrite computeDiffs_completed in Hc.
        destruct (computeDiffs_loop_get (paths_of changedPaths w)
                    (with_diffs [] w) (with_diffs [] w)
                    (same_base_refl _) p) as [_ H2].
        rewrite (H2 Hc Hin).
        rewrite (diff_of_same_base w (with_diffs [] w) p
                   (same_base_with_diffs w w [] (same_base_refl w))).
        now destruct (diff_of w p). }
      unfold diff_of, snapshot_or_empty in Hd.
      destruct (String.eqb _ (content_or_empty p (disk w)));
        [reflexivity | discriminate]. }
  split; [exact Hrec|]. split.
  - apply computeDiffs_completed_iff. intros p Hin.
    rewrite Hdisk2, Hdisk1.
    apply (proj1 (computeDiffs_completed_iff changedPaths w) Hc).
    now apply Hpaths.
  - now apply computeDiffs_nothing_to_report.
Qed.

Lemma computeDiffs_get_listed changedPaths w p :
  completed (computeDiffs changedPaths w) = true ->
  In p (paths_of changedPaths w) ->
  map_get p (diffs (dm (final (computeDiffs changedPaths w)))) = diff_of w p.
Proof.
  intros Hc Hin. rewrite computeDiffs_final_diffs.
  rewrite computeDiffs_completed in Hc.
  destruct (computeDiffs_loop_get (paths_of changedPaths w)
              (with_diffs [] w) (with_diffs [] w)
              (same_base_refl _) p) as [_ H2].
  rewrite (H2 Hc Hin).
  rewrite (diff_of_same_base w (with_diffs [] w) p
             (same_base_with_diffs w w [] (same_base_refl w))).
  now destruct (diff_of w p).
Qed.

Lemma rejectFile_done p d w w' :
  map_get p (diffs (dm w)) = Some d ->
  rejectFile p w = Done tt w' ->
  exists n, restore p d (disk w) = Ok n /\ disk w' = n /\
            snapshots (dm w') = snapshots (dm w) /\
            changesReady (dm w') = changesReady (dm w) /\
            workspaceFolder w' = workspaceFolder w /\ cwd w' = cwd w.
Proof.
  intros Hg. rewrite rejectFile_unfold, Hg.
  destruct (restore p d (disk w)) as [n|e] eqn:Er; [|discriminate].
  intros Hrun; inversion Hrun; subst w'; clear Hrun.
  exists n. split; [reflexivity|]. split; [|repeat split].
  destruct (restore_is_Dir _ _ _ _ Er) as [es Hes].
  change (disk (reject_record p d n w)) with (disk (with_disk n w)).
  apply disk_with_disk. eauto.
Qed.

(** X9. Rejecting undoes the change that [computeDiffs] recorded: when
    [rejectFile] returns, the file holds the snapshot again (or is gone,
    when the snapshot was empty), the snapshots are untouched, and a
    [computeDiffs] on that path returns with an empty session and fires no
    notification. *)
Theorem reject_then_rediff_is_empty (changedPaths : option (list path))
  (w : world) (p : path) (d : FileDiff) (w2 : world) :
  map_get p (diffs (dm (final (computeDiffs changedPaths w)))) = Some d ->
  rejectFile p (final (computeDiffs changedPaths w)) = Done tt w2 ->
  content_or_empty p (disk w2) = snapshot_or_empty p w /\
  (snapshot_or_empty p w = ""%string <-> fs_exists p (disk w2) = false) /\
  snapshots (dm w2) = snapshots (dm w) /\
  completed (computeDiffs (Some [p]) w2) = true /\
  diffs (dm (final (computeDiffs (Some [p]) w2))) = [] /\
  changesReady (dm (final (computeDiffs (Some [p]) w2))) =
  changesReady (dm w2).
Proof.
  intros Hg Hrun.
  destruct (rejectFile_done _ _ _ _ Hg Hrun)
    as (n & Hres & Hdisk & Hsnap & _).
  rewrite computeDiffs_same_disk in Hres.
  rewrite computeDiffs_same_snapshots in Hsnap.
  apply computeDiffs_records in Hg. destruct Hg as [_ Hd].
  apply diff_of_inv in Hd.
  destruct Hd as ((Hne & Hnew & _) & _ & _ & _ & Hb & Ha).
  assert (Hlook : lookup p (disk w2) =
                  if isNew d then None else Some (File (before d))).
  { rewrite Hdisk. unfold restore in Hres. destruct (isNew d).
    - now apply fs_unlink_gone in Hres.
    - apply fs_write_read in Hres. unfold file_at in Hres.
      destruct (lookup p n) as [[c|es]|]; inversion Hres; reflexivity. }
  assert (Hempty : isNew d = true <-> before d = ""%string).
  { split; [intros H; now apply Hnew in H|].
    intros H. apply Hnew. split; [exact H|]. congruence. }
  assert (Hcont : content_or_empty p (disk w2) = snapshot_or_empty p w).
  { unfold content_or_empty, file_at. rewrite Hlook, <- Hb.
    destruct (isNew d) eqn:En; [|reflexivity].
    symmetry. now apply Hempty. }
  assert (Hnone : diff_of w2 p = None).
  { unfold diff_of, snapshot_or_empty. rewrite Hsnap, Hcont.
    unfold snapshot_or_empty. now rewrite String.eqb_refl. }
  split; [exact Hcont|]. split.
  { rewrite <- Hb, <- Hempty. unfold fs_exists. rewrite Hlook.
    destruct (isNew d); split; congruence. }
  split; [exact Hsnap|]. split.
  - apply computeDiffs_completed_iff. intros q [<-|[]].
    unfold is_dir. rewrite Hlook. now destruct (isNew d).
  - apply computeDiffs_nothing_to_report. intros q [<-|[]]. exact Hnone.
Qed.

(** X10. A file that has no snapshot is taken to have been empty: when
    [computeDiffs] is given the path of such a file and the file is not
    empty, the record says the file is new, with an empty [before], and
    [rejectFile] on it returns and deletes the file, whatever the file
    held before the session. *)
Theorem computeDiffs_unsnapshotted_is_new (paths : list path) (w : world)
  (p : path) (c : string) :
  completed (computeDiffs (Some paths) w) = true ->
  In p paths ->
  map_get p (snapshots (dm w)) = None ->
  file_at p (disk w) = Some c ->
  c <> ""%string ->
  let w1 := final (computeDiffs (Some paths) w) in
  exists d,
    map_get p (diffs (dm w1)) = Some d /\
    isNew d = true /\ isDeleted d = false /\
    before d = ""%string /\ after d = c /\
    completed (rejectFile p w1) = true /\
    fs_exists p (disk (final (rejectFile p w1))) = false.
Proof.
  intros Hc Hin Hs Hf Hne. simpl.
  pose proof (computeDiffs_get_listed (Some paths) w p Hc Hin) as Hg.
  assert (Hb : snapshot_or_empty p w = ""%string)
    by (unfold snapshot_or_empty; now rewrite Hs).
  assert (Ha : content_or_empty p (disk w) = c)
    by (unfold content_or_empty; now rewrite Hf).
  destruct (diff_of w p) as [d|] eqn:Ed.
  2:{ unfold diff_of in Ed. rewrite Hb, Ha in Ed.
      destruct (String.eqb_spec "" c); [congruence|discriminate]. }
  pose proof (diff_of_inv _ _ _ Ed)
    as ((_ & Hnew & Hboth) & Hdel & _ & _ & Hbd & Had).
  rewrite Hb in Hbd. rewrite Ha in Had.
  assert (Hn : isNew d = true) by (apply Hnew; split; congruence).
  exists d. split; [exact Hg|]. split; [exact Hn|]. split.
  { destruct (isDeleted d) eqn:E; [|reflexivity].
    exfalso. apply Hboth. now split. }
  split; [exact Hbd|]. split; [exact Had|].
  rewrite rejectFile_unfold, Hg. unfold restore. rewrite Hn.
  rewrite computeDiffs_same_disk.
  destruct (alter_file_succeeds unlink_entry p (root_dir w) c Hf)
    as [n Hu]; [simpl; eauto|].
  change (alter unlink_entry p (Dir (root_dir w)))
    with (fs_unlink p (disk w)) in Hu.
  rewrite Hu. split; [reflexivity|]. simpl final.
  destruct (alter_Dir _ _ _ _ Hu) as [es Hes].
  change (disk (reject_record p d n (final (computeDiffs (Some paths) w))))
    with (disk (with_disk n (final (computeDiffs (Some paths) w)))).
  rewrite disk_with_disk by eauto.
  unfold fs_exists. now rewrite (fs_unlink_gone _ _ _ Hu).
Qed.

(** * Part II, continued: sessions of the watcher *)

Lemma set_add_In fp s q : In q (set_add fp s) <-> q = fp \/ In q s.
Proof.
  unfold set_add. destruct (existsb (path_eqb fp) s) eqn:Ex.
  - apply existsb_exists in Ex. destruct Ex as (x & Hx & Heq).
    destruct (path_eqb_spec fp x) as [->|]; [|discriminate].
    split; [auto | intros [->|]; auto].
  - rewrite in_app_iff. simpl. split; [intros [|[<-|[]]]; auto|].
    intros [->|]; auto.
Qed.

Lemma collect_In evs : forall s q,
  In q (collect evs s) <-> In q s \/ In q (map snd evs).
Proof.
  unfold collect.
  induction evs as [|e evs IH]; intros s q; simpl; [tauto|].
  rewrite IH, set_add_In. split; [intros [[->|]|]|intros [|[<-|]]]; auto.
Qed.

(** An open watcher with the three handlers collects every report. *)
Lemma deliver_open root evs : forall w,
  fsWatcher (cw w) = Some (auto_watcher root) ->
  deliver evs w =
  Done tt (with_cw (set_changedFiles (collect evs (changedFiles (cw w)))
                      (cw w)) w).
Proof.
  unfold deliver, collect.
  induction evs as [|[ev fp] evs IH]; intros w Hf; simpl.
  - destruct w as [? ? ? ? ? []]; reflexivity.
  - unfold bind, chokidar_emit at 1, modify. rewrite Hf.
    assert (Hh : handles ev (auto_watcher root) = true) by now destruct ev.
    rewrite Hh. rewrite IH by exact Hf. reflexivity.
Qed.

Lemma onClaudeStarted_auto root w :
  currentMode w = auto ->
  let w1 := with_cw (set_changedFiles [] (set_isClaudeActive true (cw w))) w in
  onClaudeStarted root w =
  match snapshotWorkspace w1 with
  | Done _ w2 =>
      Done tt (with_cw (set_fsWatcher (Some (auto_watcher root)) (cw w2)) w2)
  | Threw e w2 => Threw e w2
  end.
Proof.
  intros Hm. unfold onClaudeStarted, bind, modify, gets, chokidar_watch.
  simpl. rewrite Hm. reflexivity.
Qed.

(** X11. A session in [auto] mode.  When [onClaudeStarted] returns, every
    path chokidar reports until the agent finishes is collected, whatever
    the event; [onClaudeFinished] then leaves a record for exactly the
    reported paths whose content at the end differs from their snapshot,
    and returns iff no reported path is a directory by then.  In
    particular a whitelisted file below the root that no ignored name
    hides, reported and changed, has a pending record from its content at
    the start to its content at the end. *)
Theorem auto_session_records_reported_changes (root proposedDir : path)
  (w : world) (evs : list (FsEvent * path)) (edited : list (string * node)) :
  currentMode w = auto ->
  workspaceFolder w = Some root ->
  completed (onClaudeStarted root w) = true ->
  let started := final (onClaudeStarted root w) in
  let worked := with_disk (Dir edited) (final (deliver evs started)) in
  let o := onClaudeFinished root proposedDir worked in
  (forall q, In q (changedFiles (cw worked)) <-> In q (map snd evs)) /\
  (completed o = true <->
   forall q, In q (map snd evs) -> is_dir q (Dir edited) = false) /\
  (forall q d, map_get q (diffs (dm (final o))) = Some d ->
     In q (map snd evs) /\ diff_of worked q = Some d) /\
  (completed o = true ->
   (forall q, In q (map snd evs) ->
      map_get q (diffs (dm (final o))) = diff_of worked q) /\
   (forall rel c0,
      rel <> [] -> not_ignored rel -> isTextFile (root ++ rel) = true ->
      file_at (root ++ rel) (disk w) = Some c0 ->
      In (root ++ rel) (map snd evs) ->
      content_or_empty (root ++ rel) (Dir edited) <> c0 ->
      exists d,
        map_get (root ++ rel) (diffs (dm (final o))) = Some d /\
        status d = pending /\ before d = c0 /\
        after d = content_or_empty (root ++ rel) (Dir edited))).
Proof.
  intros Hm Hroot Hstart. simpl.
  rewrite (onClaudeStarted_auto root w Hm) in *. cbv zeta in *.
  set (w1 := with_cw (set_changedFiles [] (set_isClaudeActive true (cw w))) w)
    in *.
  pose proof (snapshotWorkspace_only_snapshots w1) as Hos.
  assert (Hsw : snapshotWorkspace w1 =
                snapshotDirectory (S (height (disk w1))) root w1).
  { unfold snapshotWorkspace, bind, workspaceRoot, gets. simpl.
    now rewrite Hroot. }
  destruct (snapshotWorkspace w1) as [[] w2|e w2] eqn:Esw; [|discriminate].
  clear Hstart. cbn [final] in *.
  destruct Hos as (Hrd & Hwf & Hcwd & Hmode & Hcw & Hdf & Hcr).
  set (started := with_cw (set_fsWatcher (Some (auto_watcher root)) (cw w2)) w2).
  assert (Hfw : fsWatcher (cw started) = Some (auto_watcher root))
    by reflexivity.
  rewrite (deliver_open root evs started Hfw). cbn [final].
  assert (Hcf : changedFiles (cw started) = []).
  { unfold started. simpl. now rewrite Hcw. }
  rewrite Hcf.
  set (worked := with_disk (Dir edited)
                   (with_cw (set_changedFiles (collect evs []) (cw started))
                      started)).
  assert (Hin : forall q, In q (changedFiles (cw worked)) <->
                          In q (map snd evs)).
  { intros q. unfold worked. simpl. rewrite collect_In. simpl. tauto. }
  assert (Hmw : currentMode worked <> propose).
  { unfold worked, started. simpl. rewrite Hmode. unfold w1. simpl.
    rewrite Hm. discriminate. }
  rewrite (onClaudeFinished_not_propose root proposedDir worked Hmw).
  set (w3 := with_cw (set_fsWatcher (option_map close (fsWatcher (cw worked)))
                        (set_isClaudeActive false (cw worked))) worked).
  set (cp := Some (changedFiles (cw worked))).
  assert (Hfin : forall (o : outcome (list FileDiff)),
            final (match o with
                   | Done _ w' => Done tt w'
                   | Threw e w' => Threw e w'
                   end) = final o) by (intros []; reflexivity).
  assert (Hcomp : forall (o : outcome (list FileDiff)),
            completed (match o with
                       | Done _ w' => Done tt w'
                       | Threw e w' => Threw e w'
                       end) = completed o) by (intros []; reflexivity).
  rewrite Hfin, Hcomp.
  assert (Hdiff : forall q, diff_of w3 q = diff_of worked q) by reflexivity.
  split; [exact Hin|]. split; [|split].
  - rewrite computeDiffs_completed_iff. simpl paths_of.
    split; intros H q Hq; apply H; apply Hin; exact Hq.
  - intros q d Hg. apply computeDiffs_records in Hg.
    destruct Hg as [Hq Hd]. simpl in Hq. rewrite Hdiff in Hd.
    split; [apply Hin; exact Hq | exact Hd].
  - intros Hc.
    assert (Hget : forall q, In q (map snd evs) ->
              map_get q (diffs (dm (final (computeDiffs cp w3)))) =
              diff_of worked q).
    { intros q Hq. rewrite (computeDiffs_get_listed cp w3 q Hc).
      - apply Hdiff.
      - simpl. apply Hin. exact Hq. }
    split; [exact Hget|].
    intros rel c0 Hne Hni Ht Hfa Hq Hchg.
    assert (Hsnap : map_get (K:=path) (root ++ rel) (snapshots (dm w2)) =
                    Some c0).
    { symmetry in Hsw.
      pose proof (snapshot_visits root w1 (S (height (disk w1))) [] w1 w2
                    (only_snapshots_refl w1)) as Hv.
      rewrite app_nil_r in Hv.
      destruct (Hv Hsw rel c0 Hne Hni Ht Hfa) as [_ Hg]. exact Hg. }
    assert (Hb : snapshot_or_empty (root ++ rel) worked = c0).
    { change (snapshot_or_empty (root ++ rel) worked)
        with (snapshot_or_empty (root ++ rel) w2).
      unfold snapshot_or_empty. now rewrite Hsnap. }
    assert (Ha : content_or_empty (root ++ rel) (disk worked) =
                 content_or_empty (root ++ rel) (Dir edited)) by reflexivity.
    destruct (diff_of worked (root ++ rel)) as [d|] eqn:Ed.
    + pose proof (diff_of_inv _ _ _ Ed) as (_ & _ & Hs & _ & Hbd & Had).
      exists d. rewrite Hb in Hbd. rewrite Ha in Had.
      split; [|auto].
      transitivity (diff_of worked (root ++ rel));
        [exact (Hget _ Hq) | assumption].
    + unfold diff_of in Ed. rewrite Hb, Ha in Ed.
      destruct (String.eqb_spec c0
                  (content_or_empty (root ++ rel) (Dir edited)));
        [congruence | discriminate].
Qed.

(** ** The polling tick *)

Lemma computeDiffs_only_manager changedPaths w :
  only_manager w (final (computeDiffs changedPaths w)).
Proof.
  rewrite computeDiffs_unfold.
  pose proof (computeDiffs_loop_same_base (paths_of changedPaths w)
                (with_diffs [] w)) as (H1 & H2 & H3 & H4 & H5 & _).
  destruct (for_each _ _ _) as [[] w1|e w1]; simpl in *;
    [unfold notify; destruct (0 <? _)|]; repeat split; assumption.
Qed.

Lemma loadProposedChanges_only_manager proposedDir w :
  only_manager w (final (loadProposedChanges proposedDir w)).
Proof.
  rewrite loadProposedChanges_unfold.
  destruct (fs_exists proposedDir (disk w)); [|repeat split].
  pose proof (walk_sound proposedDir w (S (height (disk w))) []) as [Hb _].
  rewrite app_nil_r in Hb. destruct Hb as (H1 & H2 & H3 & H4 & H5 & _).
  destruct (walk _ _ _ _ w) as [[] w1|e w1]; simpl in *;
    [unfold notify; destruct (0 <? _)|]; repeat split; assumption.
Qed.

Lemma onClaudeStarted_untouched root w :
  untouched_by_watcher w (final (onClaudeStarted root w)).
Proof.
  unfold onClaudeStarted, bind, modify, gets, chokidar_watch. simpl.
  destruct (currentMode w) eqn:Em; try (repeat split; assumption);
    match goal with |- context [snapshotWorkspace ?w1] =>
      pose proof (snapshotWorkspace_only_snapshots w1)
        as (H1 & H2 & H3 & H4 & H5 & _);
      destruct (snapshotWorkspace w1) as [[] w2|e w2]
    end; simpl in *; repeat split; try assumption;
    try congruence; now rewrite H5.
Qed.

Lemma onClaudeFinished_untouched root proposedDir w :
  untouched_by_watcher w (final (onClaudeFinished root proposedDir w)) /\
  isClaudeActive (cw (final (onClaudeFinished root proposedDir w))) = false.
Proof.
  unfold onClaudeFinished, bind, modify, gets, fsWatcher_close. simpl.
  destruct (currentMode w) eqn:Em.
  - match goal with |- context [computeDiffs ?a ?b] =>
      pose proof (computeDiffs_only_manager a b) as (H1 & H2 & H3 & H4 & H5);
      destruct (computeDiffs a b)
    end; unfold untouched_by_watcher; simpl in *; rewrite ?H5;
      repeat split; try assumption; congruence.
  - match goal with |- context [loadProposedChanges ?a ?b] =>
      pose proof (loadProposedChanges_only_manager a b)
        as (H1 & H2 & H3 & H4 & H5)
    end; unfold untouched_by_watcher; simpl in *; rewrite ?H5;
      repeat split; try assumption; congruence.
  - match goal with |- context [computeDiffs ?a ?b] =>
      pose proof (computeDiffs_only_manager a b) as (H1 & H2 & H3 & H4 & H5);
      destruct (computeDiffs a b)
    end; unfold untouched_by_watcher; simpl in *; rewrite ?H5;
      repeat split; try assumption; congruence.
Qed.

Lemma untouched_refl w : untouched_by_watcher w w.
Proof. repeat split. Qed.

(** X12. A tick of the polling timer always returns: whatever is raised
    while the marker is read or the session is opened or closed is
    swallowed.  It never changes the disk, the mode or the [active] flag,
    and it changes anything at all only when the watcher is active and the
    marker reads [running] outside a session, which opens one, or [idle]
    inside a session, which closes it. *)
Theorem poll_acts_on_status_change (parse : string -> option string)
  (root : path) (w : world) :
  let w' := final (poll parse root w) in
  poll parse root w = Done tt w' /\
  untouched_by_watcher w w' /\
  (w' <> w ->
   active (cw w) = true /\
   exists content,
     file_at (activity_file root) (disk w) = Some content /\
     (parse content = Some "running"%string /\
      isClaudeActive (cw w) = false /\ isClaudeActive (cw w') = true \/
      parse content = Some "idle"%string /\
      isClaudeActive (cw w) = true /\ isClaudeActive (cw w') = false)).
Proof.
  simpl.
  destruct (active (cw w)) eqn:Ea.
  2:{ assert (Hp : poll parse root w = Done tt w).
      { unfold poll, bind, gets. cbv beta. now rewrite Ea. }
      rewrite Hp. simpl. split; [reflexivity|].
      split; [apply untouched_refl | intros H; now destruct H]. }
  destruct (file_at (activity_file root) (disk w)) as [content|] eqn:Ef.
  2:{ assert (Hp : poll parse root w = Done tt w).
      { unfold file_at, activity_file in Ef.
        cbv beta iota delta [poll bind gets existsSync fs_exists try_catch
          readFileSync lift_fs fs_read ret throw].
        rewrite Ea. cbn [negb].
        destruct (lookup (root ++ [".claude"; "activity.json"]%string)
                    (disk w)) as [[c|?]|] eqn:El; try discriminate;
          cbn [negb]; cbv beta iota; rewrite ?El; reflexivity. }
      rewrite Hp. simpl. split; [reflexivity|].
      split; [apply untouched_refl | intros H; now destruct H]. }
  destruct (parse content) as [st|] eqn:Ep.
  2:{ rewrite (poll_malformed parse root w content Ef Ep). simpl.
      split; [reflexivity|].
      split; [apply untouched_refl | intros H; now destruct H]. }
  rewrite (poll_dispatch parse root w content st Ea Ef Ep). cbn [final].
  split; [reflexivity|].
  destruct (String.eqb_spec st "running") as [->|Hr];
    destruct (isClaudeActive (cw w)) eqn:Eb; cbn [andb negb].
  - simpl. split; [apply untouched_refl | intros H; now destruct H].
  - split; [apply onClaudeStarted_untouched|]. intros _.
    split; [reflexivity|]. exists content. split; [reflexivity|].
    left. split; [exact Ep|]. split; [reflexivity|].
    apply onClaudeStarted_busy.
  - destruct (String.eqb_spec st "idle") as [->|Hi]; cbn [andb].
    + destruct (onClaudeFinished_untouched root (proposed_of root) w)
        as [Hu Hb].
      split; [exact Hu|]. intros _.
      split; [reflexivity|]. exists content. split; [reflexivity|].
      right. auto.
    + simpl. split; [apply untouched_refl | intros H; now destruct H].
  - destruct (String.eqb st "idle"); cbn [andb]; simpl;
      (split; [apply untouched_refl | intros H; now destruct H]).
Qed.

(** ** The states the extension reaches *)

(** X13. Starting from a state with no open watcher, whatever the timer,
    chokidar, the user and the disk do, every state reached outside a
    session has no open watcher: a change that chokidar reports there is
    dropped, and [changedFiles] stays as it is. *)
Theorem reports_outside_sessions_are_dropped
  (parse : string -> option string) (root : path) (evs : list Event)
  (w : world) (ev : FsEvent) (fp : path) :
  idle_closed w ->
  isClaudeActive (cw (run parse root evs w)) = false ->
  chokidar_emit ev fp (run parse root evs w) = Done tt (run parse root evs w).
Proof.
  intros Hw Hidle. apply chokidar_emit_closed.
  exact (run_idle_closed parse root evs w Hw Hidle).
Qed.

Lemma run_app parse root evs1 evs2 w :
  run parse root (evs1 ++ evs2) w =
  run parse root evs2 (run parse root evs1 w).
Proof. unfold run. apply fold_left_app. Qed.

(** X14. [stop] closes the watcher and stops the timer, but leaves
    [isClaudeActive] as it is.  After [stop], ticks and reports change
    nothing.  When [stop] falls inside a session, a later [start] does not
    resume it: while the marker reads [running] the ticks do nothing, no
    watcher is open, and the reports go on being dropped. *)
Theorem stop_inside_a_session_is_final (parse : string -> option string)
  (root : path) (w : world) (content : string) (evs evs' : list Event) :
  isClaudeActive (cw w) = true ->
  file_at (activity_file root) (disk w) = Some content ->
  parse content = Some "running"%string ->
  forallb from_outside evs = true ->
  forallb from_outside evs' = true ->
  let stopped := final (stop w) in
  let resumed := final (start stopped) in
  run parse root evs stopped = stopped /\
  active (cw resumed) = true /\
  isClaudeActive (cw resumed) = true /\
  watcher_closed (cw resumed) /\
  run parse root evs' resumed = resumed.
Proof.
  intros Hb Hf Hp Hevs Hevs' stopped resumed.
  assert (Hclosed : watcher_closed (cw stopped)).
  { unfold stopped, stop, bind, modify, fsWatcher_close, watcher_closed.
    simpl. now destruct (fsWatcher (cw w)). }
  assert (Hact : active (cw stopped) = false) by reflexivity.
  assert (Hinert : forall v, watcher_closed (cw v) ->
            poll parse root v = Done tt v ->
            forall l, forallb from_outside l = true ->
                      run parse root l v = v).
  { intros v Hc Hpoll l. induction l as [|e l IH]; [reflexivity|].
    intros Hl. cbn [forallb] in Hl. apply andb_prop in Hl.
    destruct Hl as [He Hl].
    change (run parse root (e :: l) v)
      with (run parse root l (final (react parse root e v))).
    destruct e; try discriminate; cbn [react].
    - rewrite Hpoll. cbn [final]. apply IH, Hl.
    - rewrite (chokidar_emit_closed ev fp v Hc). cbn [final]. apply IH, Hl. }
  split.
  { apply Hinert; [exact Hclosed| |exact Hevs].
    reflexivity. }
  assert (Hres : resumed = with_cw (set_active true (cw stopped)) stopped).
  { reflexivity. }
  assert (Hc' : watcher_closed (cw resumed)).
  { rewrite Hres. exact Hclosed. }
  assert (Hb' : isClaudeActive (cw resumed) = true).
  { rewrite Hres. exact Hb. }
  split; [now rewrite Hres|]. split; [exact Hb'|]. split; [exact Hc'|].
  apply Hinert; [exact Hc'| |exact Hevs'].
  rewrite (poll_dispatch parse root resumed content "running");
    [|now rewrite Hres|rewrite Hres; exact Hf|exact Hp].
  rewrite Hb'. reflexivity.
Qed.

End Extension.

(** * Part III: concrete sessions *)

Module Sessions.

Local Open Scope string_scope.

(** A stand-in for [createTwoFilesPatch]: the two header lines and the two
    contents. *)
Definition sample_patch (oldName newName oldStr newStr _ _ : string)
  : string :=
  "--- " ++ oldName ++ " +++ " ++ newName ++ " -" ++ oldStr ++ " +" ++ newStr.

Definition ws : path := ["w"].

Definition a_txt : path := ["w"; "a.txt"].

Definition b_txt : path := ["w"; "b.txt"].

Definition new_txt : path := ["w"; "new.txt"].

Definition staging : path := ["w"; ".claude"; "proposed"].

Definition idle_watcher : ClaudeWatcher :=
  {| fsWatcher := None; changedFiles := [];
     isClaudeActive := false; active := true |}.

Definition empty_manager : DiffManager :=
  {| snapshots := []; diffs := []; changesReady := [] |}.

Definition make_world (root : list (string * node)) (m : Mode)
  (d : DiffManager) : world :=
  {| root_dir := root; workspaceFolder := Some ws; cwd := [];
     currentMode := m; dm := d; cw := idle_watcher |}.

(** *** An [ask] session: [a.txt] goes from [hello] to [hello world] *)

Definition ask_world : world :=
  make_world [("w", Dir [("a.txt", File "hello")])] ask empty_manager.

Definition edited_disk : node :=
  Dir [("w", Dir [("a.txt", File "hello world")])].

Definition ask_worked : world :=
  with_disk edited_disk
    (final (deliver [(EvChange, a_txt)] (final (onClaudeStarted ws ask_world)))).

Lemma ask_session_yields_no_record_witness :
  map_get a_txt (snapshots (dm ask_worked)) = Some "hello" /\
  file_at a_txt (disk ask_worked) = Some "hello world" /\
  List.length (final (computeDiffs sample_patch None ask_worked)).(dm).(diffs) = 1 /\
  diffs (dm (final (onClaudeFinished sample_patch ws staging ask_worked))) = [].
Proof.
  split; [reflexivity|]. split; [reflexivity|]. split; [reflexivity|].
  exact (proj1 (proj2 (proj2
    (ask_session_yields_no_record sample_patch ws staging ask_world
       [(EvChange, a_txt)] edited_disk eq_refl I)))).
Defined.

(** The same session driven by the polling timer.  [sample_status] stands
    in for [JSON.parse(content).status] on markers that hold the bare
    status word. *)
Definition sample_status (content : string) : option string :=
  if String.eqb content "running" then Some "running"
  else if String.eqb content "idle" then Some "idle"
  else None.

Definition marked_disk (a_content marker : string) : list (string * node) :=
  [("w", Dir [("a.txt", File a_content);
              (".claude", Dir [("activity.json", File marker)])])].

Definition polled_session (m : Mode) : world :=
  run sample_patch sample_status ws
    [Tick;
     DiskChanged (marked_disk "hello world" "running");
     Reported EvChange a_txt;
     DiskChanged (marked_disk "hello world" "idle");
     Tick]
    (make_world (marked_disk "hello" "running") m empty_manager).

Example ask_session_by_polling :
  snapshots (dm (polled_session ask)) = [(a_txt, "hello")] /\
  file_at a_txt (disk (polled_session ask)) = Some "hello world" /\
  isClaudeActive (cw (polled_session ask)) = false /\
  diffs (dm (polled_session ask)) = [] /\
  changesReady (dm (polled_session ask)) = [].
Proof. repeat split. Qed.

Example auto_session_by_polling :
  map_keys (diffs (dm (polled_session auto))) = [a_txt] /\
  List.length (changesReady (dm (polled_session auto))) = 1.
Proof. split; reflexivity. Qed.

(** *** A session that already holds a record for [b.txt] *)

Definition diff_b (s : Status) : FileDiff :=
  {| filePath := b_txt; relativePath := "b.txt";
     before := "old"; after := "new";
     patch := sample_patch "a/b.txt" "b/b.txt" "old" "new" "" "";
     status := s; isNew := false; isDeleted := false |}.

Definition stale_world (s : Status) : world :=
  make_world
    [("w", Dir [("a.txt", File "hello world"); ("b.txt", File "new");
                (".claude", Dir [("proposed", Dir [])])])]
    auto
    {| snapshots := [(a_txt, "hello"); (b_txt, "old")];
       diffs := [(b_txt, diff_b s)];
       changesReady := [] |}.

Lemma computeDiffs_drops_other_records :
  ~ (forall (paths : list path) (w : world) (p : path),
       ~ In p paths ->
       map_get p (diffs (dm (final (computeDiffs sample_patch (Some paths) w)))) =
       map_get p (diffs (dm w))).
Proof.
  intros H. specialize (H [a_txt] (stale_world pending) b_txt).
  assert (Hn : ~ In b_txt [a_txt]) by (intros [E|[]]; discriminate).
  specialize (H Hn). vm_compute in H. discriminate.
Qed.

Lemma computeDiffs_replaces_records_witness :
  map_get b_txt (diffs (dm (stale_world pending))) = Some (diff_b pending) /\
  map_get b_txt
    (diffs (dm (final (computeDiffs sample_patch (Some [a_txt])
                         (stale_world pending))))) = None /\
  map_get a_txt
    (diffs (dm (final (computeDiffs sample_patch (Some [a_txt])
                         (stale_world pending))))) =
  diff_of sample_patch (stale_world pending) a_txt.
Proof.
  split; [reflexivity|].
  pose proof (computeDiffs_replaces_records sample_patch [a_txt]
                (stale_world pending)) as (H1 & H2 & _).
  split.
  - apply H1. intros [E|[]]; discriminate.
  - apply H2; [reflexivity | now left].
Defined.

(** *** Terminal records *)

Lemma single_file_operations_ignore_status :
  ~ (forall (w : world) (k : path) (d : FileDiff),
       keys_ok w -> map_get k (diffs (dm w)) = Some d ->
       status d <> pending ->
       map_get k (diffs (dm (final (acceptFile k w)))) = Some d) /\
  ~ (forall (w : world) (k : path) (d : FileDiff),
       keys_ok w -> map_get k (diffs (dm w)) = Some d ->
       status d <> pending ->
       map_get k (diffs (dm (final (rejectFile k w)))) = Some d /\
       file_at k (disk (final (rejectFile k w))) = file_at k (disk w)).
Proof.
  split; intros H.
  - specialize (H (stale_world rejected) b_txt (diff_b rejected)
                  (keys_okb_sound (stale_world rejected) eq_refl) eq_refl).
    assert (Hs : status (diff_b rejected) <> pending) by discriminate.
    specialize (H Hs). vm_compute in H. discriminate.
  - specialize (H (stale_world accepted) b_txt (diff_b accepted)
                  (keys_okb_sound (stale_world accepted) eq_refl) eq_refl).
    assert (Hs : status (diff_b accepted) <> pending) by discriminate.
    destruct (H Hs) as [_ Hf]. vm_compute in Hf. discriminate.
Qed.

(** [b.txt] was accepted, [a.txt] is still pending. *)
Definition mixed_world : world :=
  make_world
    [("w", Dir [("a.txt", File "hello world"); ("b.txt", File "new")])]
    auto
    {| snapshots := [(a_txt, "hello"); (b_txt, "old")];
       diffs := [(b_txt, diff_b accepted);
                 (a_txt,
                  {| filePath := a_txt; relativePath := "a.txt";
                     before := "hello"; after := "hello world";
                     patch := sample_patch "a/a.txt" "b/a.txt"
                                "hello" "hello world" "" "";
                     status := pending; isNew := false; isDeleted := false |})];
       changesReady := [] |}.

Lemma bulk_operations_skip_terminal_witness :
  file_at a_txt (disk (final (rejectAll mixed_world))) = Some "hello" /\
  map_get b_txt (diffs (dm (final (rejectAll mixed_world)))) =
  Some (diff_b accepted) /\
  file_at b_txt (disk (final (rejectAll mixed_world))) =
  file_at b_txt (disk mixed_world).
Proof.
  split; [reflexivity|].
  assert (Hs : status (diff_b accepted) <> pending) by discriminate.
  exact (proj1 (proj2
    (bulk_operations_skip_terminal mixed_world b_txt
       (diff_b accepted) (keys_okb_sound mixed_world eq_refl)
       eq_refl Hs))).
Defined.

(** *** A staged session: one new file, one modified, one emptied *)

Definition gone_txt : path := ["w"; "gone.txt"].

Definition staged_world0 : world :=
  make_world
    [("w", Dir [("a.txt", File "hello");
                ("gone.txt", File "bye");
                (".claude",
                 Dir [("proposed",
                       Dir [("new.txt", File "x");
                            ("a.txt", File "hello world");
                            ("gone.txt", File "")])])])]
    propose empty_manager.

Definition staged_world : world :=
  final (loadProposedChanges sample_patch staging staged_world0).

Definition staged_new : FileDiff :=
  {| filePath := new_txt; relativePath := "new.txt";
     before := ""; after := "x";
     patch := sample_patch "a/new.txt" "b/new.txt" "" "x" "" "";
     status := pending; isNew := true; isDeleted := false |}.

Definition staged_a : FileDiff :=
  {| filePath := a_txt; relativePath := "a.txt";
     before := "hello"; after := "hello world";
     patch := sample_patch "a/a.txt" "b/a.txt" "hello" "hello world" "" "";
     status := pending; isNew := false; isDeleted := false |}.

Definition staged_gone : FileDiff :=
  {| filePath := gone_txt; relativePath := "gone.txt";
     before := "bye"; after := "";
     patch := sample_patch "a/gone.txt" "b/gone.txt" "bye" "" "" "";
     status := pending; isNew := false; isDeleted := false |}.

Example staged_world_diffs :
  diffs (dm staged_world) =
  [(new_txt, staged_new); (a_txt, staged_a); (gone_txt, staged_gone)].
Proof. reflexivity. Qed.

Lemma rejectAll_abandons_later_records :
  ~ (forall (w : world) (k : path) (d : FileDiff),
       keys_ok w -> map_get k (diffs (dm w)) = Some d ->
       status d = pending ->
       completed (rejectFile k w) = true ->
       exists d', map_get k (diffs (dm (final (rejectAll w)))) = Some d' /\
                  status d' = rejected).
Proof.
  intros H.
  destruct (H staged_world a_txt staged_a
              (keys_okb_sound staged_world eq_refl) eq_refl eq_refl eq_refl)
    as (d' & Hg & Hs).
  vm_compute in Hg. inversion Hg; subst d'. discriminate.
Qed.

Lemma bulk_failure_aborts_witness :
  map_keys (diffs (dm staged_world)) = [new_txt; a_txt; gone_txt] /\
  rejectFile a_txt staged_world =
  Done tt (final (rejectFile a_txt staged_world)) /\
  rejectAll staged_world = Threw ENOENT staged_world /\
  map_get a_txt (diffs (dm staged_world)) = Some staged_a.
Proof.
  split; [reflexivity|]. split; [reflexivity|].
  destruct (proj1 (proj2 (proj2
              (bulk_failure_aborts staged_world
                 (keys_okb_sound staged_world eq_refl))))
              [] new_txt [a_txt; gone_txt] staged_new staged_world ENOENT
              staged_world eq_refl (rejected_none staged_world)
              eq_refl eq_refl eq_refl) as (Hrun & _ & Hrest).
  split; [exact Hrun|].
  destruct (Hrest a_txt) as [Hg _]; [intros []|].
  exact Hg.
Defined.

Lemma rejectFile_fails_on_missing_new_file :
  ~ (forall (w : world) (p : path) (d : FileDiff),
       map_get p (diffs (dm w)) = Some d -> isNew d = true ->
       fs_exists p (disk (final (rejectFile p w))) = false /\
       exists d', map_get p (diffs (dm (final (rejectFile p w)))) = Some d' /\
                  status d' = rejected).
Proof.
  intros H.
  destruct (H staged_world new_txt staged_new eq_refl eq_refl)
    as (_ & d' & Hg & Hs).
  vm_compute in Hg. inversion Hg; subst d'. discriminate.
Qed.

(** *** An [auto] session: [a.txt] modified, [new.txt] created *)

Definition auto_world0 : world :=
  make_world
    [("w", Dir [("a.txt", File "hello world"); ("new.txt", File "x")])]
    auto
    {| snapshots := [(a_txt, "hello")]; diffs := []; changesReady := [] |}.

Definition auto_world : world :=
  final (computeDiffs sample_patch (Some [a_txt; new_txt]) auto_world0).

(** [a.txt] was recorded as modified, and is gone when the record is
    rejected. *)
Definition deleted_world : world :=
  with_disk (Dir [("w", Dir [("new.txt", File "x")])]) auto_world.

Lemma rejectFile_restores_witness :
  file_at a_txt (disk auto_world) = Some "hello world" /\
  (map_get a_txt (diffs (dm (final (rejectFile a_txt auto_world)))) =
   Some (with_status rejected staged_a) /\
   (isNew staged_a = false ->
    file_at a_txt (disk (final (rejectFile a_txt auto_world))) = Some "hello") /\
   (isNew staged_a = true ->
    fs_exists a_txt (disk (final (rejectFile a_txt auto_world))) = false)) /\
  fs_exists a_txt (disk deleted_world) = false /\
  completed (rejectFile a_txt deleted_world) = true /\
  file_at a_txt (disk (final (rejectFile a_txt deleted_world))) =
  Some "hello".
Proof.
  split; [reflexivity|]. split.
  - exact (proj1 (rejectFile_restores a_txt staged_a auto_world eq_refl)
             (final (rejectFile a_txt auto_world)) eq_refl).
  - split; [reflexivity|].
    exact (proj1 (proj2 (proj2 (proj2
             (rejectFile_restores a_txt staged_a deleted_world eq_refl))))
             eq_refl eq_refl eq_refl).
Defined.

Lemma staged_records_never_deleted :
  ~ (forall (proposedDir : path) (w : world) (k : path) (d : FileDiff),
       map_get k (diffs (dm (final (loadProposedChanges sample_patch
                                      proposedDir w)))) = Some d ->
       isDeleted d = true <-> before d <> "" /\ after d = "").
Proof.
  intros H.
  destruct (H staging staged_world0 gone_txt staged_gone eq_refl) as [_ Hd].
  assert (Hf : isDeleted staged_gone = true)
    by (apply Hd; split; [discriminate | reflexivity]).
  discriminate.
Qed.

Lemma records_classified_witness :
  (record_inv staged_a /\ deleted_inv staged_a) /\
  (map_get gone_txt (diffs (dm staged_world0)) = Some staged_gone \/
   (record_inv staged_gone /\ isDeleted staged_gone = false)).
Proof.
  destruct (records_classified sample_patch (Some [a_txt; new_txt]) staging
              auto_world0 a_txt staged_a) as [H1 _].
  destruct (records_classified sample_patch None staging
              staged_world0 gone_txt staged_gone) as [_ H2].
  split; [exact (H1 eq_refl) | exact (H2 eq_refl)].
Defined.

Lemma loadProposedChanges_fires_on_old_records :
  ~ (forall (proposedDir : path) (w : world),
       let o := loadProposedChanges sample_patch proposedDir w in
       diffs (dm (final o)) = diffs (dm w) ->
       changesReady (dm (final o)) = changesReady (dm w)).
Proof.
  intros H. specialize (H staging (stale_world accepted) eq_refl).
  vm_compute in H. discriminate.
Qed.

Lemma changesReady_policy_witness :
  changesReady (dm auto_world) = [[staged_a; staged_new]] /\
  changesReady (dm (final (loadProposedChanges sample_patch staging
                              (stale_world accepted)))) = [[]].
Proof.
  destruct (changesReady_policy sample_patch (Some [a_txt; new_txt]) staging
              auto_world0) as [[H1 _] _].
  destruct (changesReady_policy sample_patch None staging
              (stale_world accepted)) as [_ H2].
  split; [exact H1 | exact H2].
Defined.

Lemma loadProposedChanges_records_staged_files_witness :
  exists d,
    map_get gone_txt (diffs (dm staged_world)) = Some d /\
    before d = "bye" /\ after d = "" /\
    isDeleted d = false /\ status d = pending.
Proof.
  exact (proj1 (proj2
    (loadProposedChanges_records_staged_files sample_patch staging
       staged_world0)) eq_refl ["gone.txt"] ""
    eq_refl (fun H => ltac:(discriminate H))).
Defined.


Lemma rejectFile_new_missing_raises_witness :
  exists d e,
    map_get new_txt (diffs (dm staged_world)) = Some d /\
    isNew d = true /\ status d = pending /\
    rejectFile new_txt staged_world = Threw e staged_world.
Proof.
  exact (proj2 (rejectFile_new_missing_raises sample_patch)
           staging staged_world0 staged_world ["new.txt"] "x"
           eq_refl eq_refl (fun H => ltac:(discriminate H)) eq_refl).
Defined.

(** *** The rest of [DiffManager] on the sample sessions *)

Lemma isTextFile_needs_inner_dot_witness :
  last_dot "env" = None /\ isTextFile (path_join ws ".env") = false.
Proof.
  split; [reflexivity|].
  exact (isTextFile_needs_inner_dot ws "."%char "env" eq_refl).
Defined.

Lemma computeDiffs_default_reports_every_change_witness :
  completed (computeDiffs sample_patch None (stale_world pending)) = true /\
  map_get a_txt (snapshots (dm (stale_world pending))) = Some "hello" /\
  content_or_empty a_txt (disk (stale_world pending)) = "hello world" /\
  exists d,
    map_get a_txt
      (diffs (dm (final (computeDiffs sample_patch None
                           (stale_world pending))))) = Some d /\
    status d = pending /\ before d = "hello" /\ after d = "hello world".
Proof.
  split; [reflexivity|]. split; [reflexivity|]. split; [reflexivity|].
  destruct (proj2 (computeDiffs_default_reports_every_change sample_patch
                     (stale_world pending) a_txt "hello" eq_refl eq_refl))
    as (d & Hg & Hs & Hb & Ha & _).
  - discriminate.
  - exists d. rewrite Hg, Hs, Hb, Ha. repeat split.
Defined.

Lemma computeDiffs_returns_the_session_witness :
  List.length (fst (match computeDiffs sample_patch None (stale_world pending)
                    with Done r w' => (r, w') | Threw _ w' => ([], w') end))
  = 2 /\
  changesReady
    (dm (final (computeDiffs sample_patch None (stale_world pending)))) =
  [map_values
     (diffs (dm (final (computeDiffs sample_patch None
                          (stale_world pending)))))].
Proof.
  split; [reflexivity|].
  destruct (computeDiffs sample_patch None (stale_world pending))
    as [res w'|e w'] eqn:Erun; [|discriminate].
  destruct (computeDiffs_returns_the_session sample_patch None
              (stale_world pending) res w' Erun) as (Hres & _ & _ & Hcr).
  simpl final. rewrite Hcr, <- Hres.
  assert (Hlen : List.length res = 2).
  { change res with (fst (res, w')).
    replace (res, w') with
      (match computeDiffs sample_patch None (stale_world pending)
       with Done r w0 => (r, w0) | Threw _ w0 => ([], w0) end)
      by now rewrite Erun.
    reflexivity. }
  destruct res; [discriminate|reflexivity].
Defined.

Lemma accept_then_rediff_is_empty_witness :
  completed (computeDiffs sample_patch None (stale_world pending)) = true /\
  map_get a_txt
    (snapshots
       (dm (final (acceptAll
                     (final (computeDiffs sample_patch None
                               (stale_world pending))))))) =
  Some "hello world" /\
  diffs
    (dm (final (computeDiffs sample_patch None
                  (final (acceptAll
                            (final (computeDiffs sample_patch None
                                      (stale_world pending)))))))) = [].
Proof.
  split; [reflexivity|]. split; [reflexivity|].
  exact (proj1 (proj2 (proj2
    (accept_then_rediff_is_empty sample_patch None (stale_world pending)
       eq_refl)))).
Defined.

Definition diff_a : FileDiff :=
  {| filePath := a_txt; relativePath := "a.txt";
     before := "hello"; after := "hello world";
     patch := sample_patch "a/a.txt" "b/a.txt" "hello" "hello world" "" "";
     status := pending; isNew := false; isDeleted := false |}.

Lemma reject_then_rediff_is_empty_witness :
  file_at a_txt
    (disk (final (rejectFile a_txt
                    (final (computeDiffs sample_patch None
                              (stale_world pending)))))) = Some "hello" /\
  diffs
    (dm (final (computeDiffs sample_patch (Some [a_txt])
                  (final (rejectFile a_txt
                            (final (computeDiffs sample_patch None
                                      (stale_world pending)))))))) = [].
Proof.
  split; [reflexivity|].
  exact (proj1 (proj2 (proj2 (proj2 (proj2
    (reject_then_rediff_is_empty sample_patch None (stale_world pending)
       a_txt diff_a
       (final (rejectFile a_txt
                 (final (computeDiffs sample_patch None
                           (stale_world pending)))))
       eq_refl eq_refl)))))).
Defined.

(** *** A file outside the whitelist, edited during a session *)

Definition makefile : path := ["w"; "Makefile"].

Definition untracked_world : world :=
  make_world [("w", Dir [("Makefile", File "all: build")])] auto
    empty_manager.

Lemma computeDiffs_unsnapshotted_is_new_witness :
  isTextFile makefile = false /\
  file_at makefile (disk untracked_world) = Some "all: build" /\
  fs_exists makefile
    (disk (final (rejectFile makefile
                    (final (computeDiffs sample_patch (Some [makefile])
                              untracked_world))))) = false.
Proof.
  split; [reflexivity|]. split; [reflexivity|].
  destruct (computeDiffs_unsnapshotted_is_new sample_patch [makefile]
              untracked_world makefile "all: build" eq_refl
              (or_introl eq_refl) eq_refl eq_refl)
    as (d & _ & _ & _ & _ & _ & _ & Hgone).
  - discriminate.
  - exact Hgone.
Defined.

(** *** An [auto] session: [a.txt] goes from [hello] to [hello world] *)

Definition auto_start : world :=
  make_world [("w", Dir [("a.txt", File "hello")])] auto empty_manager.

Lemma auto_session_records_reported_changes_witness :
  exists d,
    map_get a_txt
      (diffs (dm (final (onClaudeFinished sample_patch ws staging
                           (with_disk edited_disk
                              (final (deliver [(EvChange, a_txt)]
                                        (final (onClaudeStarted ws
                                                  auto_start)))))))))
    = Some d /\
    status d = pending /\ before d = "hello" /\ after d = "hello world".
Proof.
  destruct (auto_session_records_reported_changes sample_patch ws staging
              auto_start [(EvChange, a_txt)]
              [("w", Dir [("a.txt", File "hello world")])]
              eq_refl eq_refl eq_refl) as (_ & _ & _ & H).
  destruct (H eq_refl) as [_ Hrec].
  apply (Hrec ["a.txt"] "hello").
  - discriminate.
  - repeat constructor.
  - reflexivity.
  - reflexivity.
  - left. reflexivity.
  - discriminate.
Defined.

(** *** The watcher outside and inside a session *)

Lemma reports_outside_sessions_are_dropped_witness :
  isClaudeActive (cw (polled_session auto)) = false /\
  chokidar_emit EvChange b_txt (polled_session auto) =
  Done tt (polled_session auto).
Proof.
  split; [reflexivity|].
  exact (reports_outside_sessions_are_dropped sample_patch sample_status ws
           [Tick;
            DiskChanged (marked_disk "hello world" "running");
            Reported EvChange a_txt;
            DiskChanged (marked_disk "hello world" "idle");
            Tick]
           (make_world (marked_disk "hello" "running") auto empty_manager)
           EvChange b_txt (fun _ => I) eq_refl).
Defined.

Definition in_session : world :=
  run sample_patch sample_status ws [Tick]
    (make_world (marked_disk "hello" "running") auto empty_manager).

Lemma stop_inside_a_session_is_final_witness :
  isClaudeActive (cw in_session) = true /\
  changedFiles
    (cw (run sample_patch sample_status ws
           [Tick; Reported EvChange a_txt; Tick]
           (final (start (final (stop in_session)))))) = [].
Proof.
  split; [reflexivity|].
  destruct (stop_inside_a_session_is_final sample_patch sample_status ws
              in_session "running" [Tick]
              [Tick; Reported EvChange a_txt; Tick]
              eq_refl eq_refl eq_refl eq_refl eq_refl)
    as (_ & _ & _ & _ & Hrun).
  rewrite Hrun. reflexivity.
Defined.

End Sessions.
